(** * VoxelGrid: a shallow embedding of [src/scripts/VoxelGrid.ts]

    The TypeScript class [VoxelGrid] keeps a dense scalar field in a nested
    array [grid : number[][][]], seeds it in [initializeGrid], walks it cube
    by cube in [marchCubes] and hands the triangle soup to three.js in
    [generateMesh] / [render].

    Modelling conventions.
    - A JavaScript [number] is a rational ([Q]); arithmetic is exact.  [NaN],
      the infinities and IEEE rounding are outside the model.  The only
      division of the class, [_ / this.resolution], is reached only inside the
      scan loops, which run no iteration when the resolution is [0]
      (lemma [visited_resolution_nonzero]).
    - A JavaScript array is a [list]; an element that is a hole or
      [undefined] is [None].  Reading a property that is not there gives
      [undefined]; reading a property OF [undefined] throws [TypeError];
      writing past the end of an array extends it.
    - The methods mutate [this]; they are computations in a small state and
      exception monad [M], whose abrupt outcome keeps the state reached when
      the exception was thrown.
    - The tables of [./marchingConstants] ([CORNER_ARRAY], [EDGE_ARRAY],
      [TRIANGLE_TABLE]) are parameters of the development. *)

From Stdlib Require Import List ZArith QArith Qround Lia Lqa Bool.
From Stdlib Require String.
Import ListNotations.
Import String.StringSyntax.
Delimit Scope string_scope with string.

Set Implicit Arguments.

(** ** Exceptions, outcomes and the monad *)

Inductive error : Type :=
| TypeError
| RangeError
| Thrown (msg : String.string).

Inductive outcome (S A : Type) : Type :=
| Normal (a : A) (s : S)
| Abrupt (e : error) (s : S).

Arguments Normal {S A} a s.
Arguments Abrupt {S A} e s.

Definition M (S A : Type) : Type := S -> outcome S A.

Definition ret {S A} (a : A) : M S A := fun s => Normal a s.

Definition bind {S A B} (m : M S A) (k : A -> M S B) : M S B :=
  fun s =>
    match m s with
    | Normal a s' => k a s'
    | Abrupt e s' => Abrupt e s'
    end.

Definition throw {S A} (e : error) : M S A := fun s => Abrupt e s.

Definition get {S} : M S S := fun s => Normal s s.

Definition modify {S} (f : S -> S) : M S unit := fun s => Normal tt (f s).

(** [try { m } catch (error) { h error }] *)
Definition try_catch {S A} (m : M S A) (h : error -> M S A) : M S A :=
  fun s =>
    match m s with
    | Normal a s' => Normal a s'
    | Abrupt e s' => h e s'
    end.

Declare Scope js_scope.
Delimit Scope js_scope with js.
Notation "x <- m ;; k" := (bind m (fun x => k))
  (at level 61, m at next level, right associativity) : js_scope.
Notation "m ;; k" := (bind m (fun _ => k))
  (at level 61, right associativity) : js_scope.
Local Open Scope js_scope.

(** [for (const a of l) body(a)] *)
Fixpoint forEach {S A} (l : list A) (body : A -> M S unit) : M S unit :=
  match l with
  | [] => ret tt
  | a :: l' => body a ;; forEach l' body
  end.

(** The final state of an outcome, normal or abrupt. *)
Definition final {S A} (o : outcome S A) : S :=
  match o with
  | Normal _ s => s
  | Abrupt _ s => s
  end.

(** ** Numbers used as array lengths and property keys *)

Definition is_integer (q : Q) : bool := Qeq_bool q (inject_Z (Qfloor q)).

(** Truncation towards zero ([ToIntegerOrInfinity]). *)
Definition Qtrunc (q : Q) : Z :=
  if Qle_bool 0 q then Qfloor q else Qceiling q.

(** Largest length of an array, [2^32 - 1]. *)
Definition MAX_ARRAY_LENGTH : Z := 4294967295.

(** [ToLength]: truncate, clamp below at [0] and above at [2^53 - 1]. *)
Definition to_length (q : Q) : Z :=
  Z.min (Z.max 0 (Qtrunc q)) 9007199254740991.

(** A number used as a property key of an array names the element [n] when
    it is an integer [0 <= n < 2^32 - 1]; any other key ("1.5", "-1") is an
    ordinary property, absent from the arrays of this class. *)
Definition array_index (k : Q) : option nat :=
  if is_integer k && (0 <=? Qfloor k)%Z && (Qfloor k <? MAX_ARRAY_LENGTH)%Z
  then Some (Z.to_nat (Qfloor k))
  else None.

(** [arr[k]]: [None] is [undefined]. *)
Definition get_prop {A} (arr : list A) (k : Q) : option A :=
  match array_index k with
  | Some n => nth_error arr n
  | None => None
  end.

(** Replace element [n] of a list that has one. *)
Fixpoint update {A} (l : list A) (n : nat) (a : A) : list A :=
  match l, n with
  | [], _ => []
  | _ :: l', O => a :: l'
  | b :: l', S n' => b :: update l' n' a
  end.

(** [arr[k] = v] on an array of numbers with holes: in range the element is
    replaced, past the end the array grows (the gap is holes), and a key that
    is no array index creates a named property and leaves the elements. *)
Definition set_prop (arr : list (option Q)) (k : Q) (v : Q) : list (option Q) :=
  match array_index k with
  | Some n =>
      if (n <? length arr)%nat then update arr n (Some v)
      else arr ++ repeat None (n - length arr) ++ [Some v]
  | None => arr
  end.

(** [Array(n)]: [n] must be an integer in [0, 2^32 - 1], else [RangeError];
    the fresh array has [n] holes. *)
Definition Array_ {S} (n : Q) : M S (list (option Q)) :=
  if is_integer n && (0 <=? Qfloor n)%Z && (Qfloor n <=? MAX_ARRAY_LENGTH)%Z
  then ret (repeat None (Z.to_nat (Qfloor n)))
  else throw RangeError.

(** [arr.fill(v)] *)
Definition fill (arr : list (option Q)) (v : Q) : list (option Q) :=
  map (fun _ => Some v) arr.

(** [n] successive calls of [f], results collected in order. *)
Fixpoint collect {S A} (n : nat) (f : M S A) : M S (list A) :=
  match n with
  | O => ret []
  | S n' => a <- f ;; l <- collect n' f ;; ret (a :: l)
  end.

(** [Array.from({ length: len }, f)]: the length goes through [ToLength];
    the array is constructed with that length ([RangeError] above
    [2^32 - 1]) and [f] is called once per index. *)
Definition Array_from {S A} (len : Q) (f : M S A) : M S (list A) :=
  if (to_length len <=? MAX_ARRAY_LENGTH)%Z
  then collect (Z.to_nat (to_length len)) f
  else throw RangeError.

(** ** three.js values *)

Record Vector3 : Type := mkVector3 { vec_x : Q; vec_y : Q; vec_z : Q }.

(** [v.add(w)] *)
Definition Vector3_add (v w : Vector3) : Vector3 :=
  mkVector3 (vec_x v + vec_x w) (vec_y v + vec_y w) (vec_z v + vec_z w).

(** [v.multiplyScalar(s)] *)
Definition Vector3_multiplyScalar (v : Vector3) (s : Q) : Vector3 :=
  mkVector3 (vec_x v * s) (vec_y v * s) (vec_z v * s).

(** A mesh object: its identity and the position buffer of its geometry. *)
Record Mesh : Type := mkMesh { mesh_id : nat; mesh_positions : list Q }.

(** ** The class *)

Definition Grid : Type := list (list (list (option Q))).

Record VoxelGrid : Type := mkVoxelGrid {
  resolution : Q;
  size : Vector3;
  isovalue : Q;
  position : Vector3;
  grid : Grid;
  meshVertexes : list Vector3;
  mesh : option Mesh
}.

Definition set_grid (g : Grid) (t : VoxelGrid) : VoxelGrid :=
  mkVoxelGrid (resolution t) (size t) (isovalue t) (position t)
              g (meshVertexes t) (mesh t).

Definition set_meshVertexes (vs : list Vector3) (t : VoxelGrid) : VoxelGrid :=
  mkVoxelGrid (resolution t) (size t) (isovalue t) (position t)
              (grid t) vs (mesh t).

Definition set_mesh (m : option Mesh) (t : VoxelGrid) : VoxelGrid :=
  mkVoxelGrid (resolution t) (size t) (isovalue t) (position t)
              (grid t) (meshVertexes t) m.

(** [this.grid[a][b][c] = v].  [this.grid[a]] and then [...[b]] are read
    first; a missing plane or row makes the next access throw.  The rows were
    each built by their own call of the allocation callback, so no two
    positions share an array and the write changes one row only. *)
Definition grid_write (a b c : Q) (v : Q) : M VoxelGrid unit :=
  t <- get ;;
  match get_prop (grid t) a, array_index a with
  | Some plane, Some ia =>
      match get_prop plane b, array_index b with
      | Some row, Some ib =>
          modify (set_grid (update (grid t) ia (update plane ib (set_prop row c v))))
      | _, _ => throw TypeError
      end
  | _, _ => throw TypeError
  end.

Definition initializeGrid : M VoxelGrid unit :=
  t <- get ;;
  let sx := vec_x (size t) in
  let sy := vec_y (size t) in
  let sz := vec_z (size t) in
  let r := resolution t in
  g <- Array_from (sx * r)
         (Array_from (sy * r)
            (arr <- Array_ (sz * r) ;; ret (fill arr (-1)))) ;;
  modify (set_grid g) ;;
  grid_write ((sx / 2) * r) ((sy / 2) * r) ((sz / 2) * r) 1 ;;
  grid_write ((sx / 2) * r + 1) ((sy / 2) * r) ((sz / 2) * r) 1 ;;
  grid_write ((sx / 2) * r + 2) ((sy / 2) * r) ((sz / 2) * r) 1 ;;
  grid_write ((sx / 2) * r + 2) ((sy / 2) * r - 1) ((sz / 2) * r) 1 ;;
  grid_write ((sx / 2) * r + 2) ((sy / 2) * r - 2) ((sz / 2) * r) 1 ;;
  grid_write ((sx / 2) * r + 2) ((sy / 2) * r - 3) ((sz / 2) * r) 1 ;;
  grid_write ((sx / 2) * r + 3) ((sy / 2) * r) ((sz / 2) * r) 1 ;;
  grid_write ((sx / 2) * r + 4) ((sy / 2) * r) ((sz / 2) * r) 1.

(** [new VoxelGrid(resolution, size, isovalue, position)] *)
Definition constructor (resolution0 : Q) (size0 : Vector3) (isovalue0 : Q)
    (position0 : Vector3) : outcome VoxelGrid unit :=
  initializeGrid (mkVoxelGrid resolution0 size0 isovalue0 position0 [] [] None).

(** ** 32-bit integer operators *)

(** [ToInt32] *)
Definition to_int32 (n : Z) : Z := ((n + 2 ^ 31) mod 2 ^ 32 - 2 ^ 31)%Z.

(** [a << n]: the shift count is taken modulo 32, the result is an int32. *)
Definition js_shl (a n : Z) : Z :=
  to_int32 (Z.shiftl (to_int32 a) (n mod 32)).

(** [a | b] *)
Definition js_or (a b : Z) : Z := to_int32 (Z.lor (to_int32 a) (to_int32 b)).

(** [c > iso] where [c] may be [undefined] (which compares false). *)
Definition js_gt (c : option Q) (iso : Q) : bool :=
  match c with
  | Some v => negb (Qle_bool v iso)
  | None => false
  end.

(** A loop counter, as the number it is. *)
Definition num (n : nat) : Q := inject_Z (Z.of_nat n).

(** [for (let x = 0; x < bound; x++)]: the counter takes the values
    [0, 1, ...] while it is below [bound], that is [ceil bound] values
    (none when [bound <= 0]); see [range_spec]. *)
Definition loop_count (bound : Q) : nat := Z.to_nat (Qceiling bound).

Definition range (bound : Q) : list nat := seq 0 (loop_count bound).

(** [l.entries()] *)
Definition entries {A} (l : list A) : list (nat * A) :=
  combine (seq 0 (length l)) l.

(** [table[k]] for an integer key, or [undefined] as a key. *)
Definition lookup {A} (table : list A) (k : option Z) : option A :=
  match k with
  | Some i => if (0 <=? i)%Z then nth_error table (Z.to_nat i) else None
  | None => None
  end.

Section Marching.

(** The constants imported from [./marchingConstants]. *)
Variable CORNER_ARRAY : list Vector3.
Variable EDGE_ARRAY : list (list Vector3).
Variable TRIANGLE_TABLE : list (list Z).

(** [this.grid[x + corner.x][y + corner.y][z + corner.z]] *)
Definition sample_corner (x y z : Q) (corner : Vector3)
  : M VoxelGrid (option Q) :=
  t <- get ;;
  match get_prop (grid t) (x + vec_x corner) with
  | None => throw TypeError
  | Some plane =>
      match get_prop plane (y + vec_y corner) with
      | None => throw TypeError
      | Some row =>
          ret (match get_prop row (z + vec_z corner) with
               | Some c => c
               | None => None
               end)
      end
  end.

(** The loop over [CORNER_ARRAY.entries()], threading [cubeConfigByte]. *)
Fixpoint cornerLoop (x y z : Q) (es : list (nat * Vector3))
    (cubeConfigByte : Z) : M VoxelGrid Z :=
  match es with
  | [] => ret cubeConfigByte
  | (i, corner) :: es' =>
      c <- sample_corner x y z corner ;;
      t <- get ;;
      cornerLoop x y z es'
        (if js_gt c (isovalue t)
         then js_or cubeConfigByte (js_shl 1 (Z.of_nat i))
         else cubeConfigByte)
  end.

Definition createScaledVector (point : option Vector3) (resolution : Q)
  : M VoxelGrid Vector3 :=
  match point with
  | Some p =>
      ret (mkVector3 (vec_x p / resolution) (vec_y p / resolution)
                     (vec_z p / resolution))
  | None => throw TypeError
  end.

Definition getEdgeMidpoint (edge : option (list Vector3)) (resolution : Q)
  : M VoxelGrid Vector3 :=
  match edge with
  | None => throw TypeError
  | Some e =>
      v1 <- createScaledVector (nth_error e 0) resolution ;;
      v2 <- createScaledVector (nth_error e 1) resolution ;;
      ret (Vector3_multiplyScalar (Vector3_add v1 v2) (1 # 2))
  end.

(** One round of the [while] loop past the sentinel test: the three edge
    indices (each possibly [undefined]), the three midpoints, the push. *)
Definition emitTriangle (x y z : Q) (edgeIndex1 edgeIndex2 edgeIndex3 : option Z)
  : M VoxelGrid unit :=
  let edge1 := lookup EDGE_ARRAY edgeIndex1 in
  let edge2 := lookup EDGE_ARRAY edgeIndex2 in
  let edge3 := lookup EDGE_ARRAY edgeIndex3 in
  t <- get ;;
  vertex1 <- getEdgeMidpoint edge1 (resolution t) ;;
  vertex2 <- getEdgeMidpoint edge2 (resolution t) ;;
  vertex3 <- getEdgeMidpoint edge3 (resolution t) ;;
  let base :=
    mkVector3 (x / resolution t) (y / resolution t) (z / resolution t) in
  modify (fun t => set_meshVertexes
    (meshVertexes t ++
     [Vector3_add base vertex1; Vector3_add base vertex2;
      Vector3_add base vertex3]) t).

(** [while (i < triangles.length) { if (triangles[i] === -1) break; ...;
    i += 3 }], by recursion on the part of [triangles] from [i] on. *)
Fixpoint triangleLoop (x y z : Q) (triangles : list Z) : M VoxelGrid unit :=
  match triangles with
  | [] => ret tt
  | e1 :: rest =>
      if (e1 =? -1)%Z then ret tt
      else
        match rest with
        | e2 :: e3 :: rest' =>
            emitTriangle x y z (Some e1) (Some e2) (Some e3) ;;
            triangleLoop x y z rest'
        | [e2] => emitTriangle x y z (Some e1) (Some e2) None
        | [] => emitTriangle x y z (Some e1) None None
        end
  end.

(** The body of the innermost [for]. *)
Definition marchCube (x y z : nat) : M VoxelGrid unit :=
  cubeConfigByte <-
    cornerLoop (num x) (num y) (num z) (entries CORNER_ARRAY) 0%Z ;;
  match lookup TRIANGLE_TABLE (Some cubeConfigByte) with
  | None => throw TypeError
  | Some triangles => triangleLoop (num x) (num y) (num z) triangles
  end.

(** The loop bounds [this.size.a * this.resolution - 1] are evaluated at
    every test, but nothing in the loops assigns [size] or [resolution]. *)
Definition marchCubes : M VoxelGrid unit :=
  modify (set_meshVertexes []) ;;
  t <- get ;;
  forEach (range (vec_x (size t) * resolution t - 1)) (fun x =>
    forEach (range (vec_y (size t) * resolution t - 1)) (fun y =>
      forEach (range (vec_z (size t) * resolution t - 1)) (fun z =>
        marchCube x y z))).

(** *** Rendering: the scene around the grid *)

(** The [Float32Array] filled by [generateMesh]: three numbers per
    vertex.  The rounding to single precision is outside the model. *)
Definition positions_of (vs : list Vector3) : list Q :=
  flat_map (fun v => [vec_x v; vec_y v; vec_z v]) vs.

Record World : Type := mkWorld {
  this : VoxelGrid;
  scene_children : list Mesh;
  disposed : list nat;
  console : list error;
  next_id : nat
}.

Definition set_this (t : VoxelGrid) (w : World) : World :=
  mkWorld t (scene_children w) (disposed w) (console w) (next_id w).

(** A method of the grid, run on the grid of the world. *)
Definition on_this {A} (m : M VoxelGrid A) : M World A :=
  fun w =>
    match m (this w) with
    | Normal a t => Normal a (set_this t w)
    | Abrupt e t => Abrupt e (set_this t w)
    end.

(** [children.splice(children.indexOf(mesh), 1)] *)
Fixpoint remove_child (id : nat) (children : list Mesh) : list Mesh :=
  match children with
  | [] => []
  | m :: children' =>
      if (mesh_id m =? id)%nat then children'
      else m :: remove_child id children'
  end.

(** [removeMeshAndDispose(scene, mesh)]: the function is [async] but has
    no [await], so its whole body runs within the call. *)
Definition removeMeshAndDispose (m : Mesh) : M World unit :=
  modify (fun w =>
    mkWorld (this w) (remove_child (mesh_id m) (scene_children w))
            (mesh_id m :: disposed w) (console w) (next_id w)).

(** [scene.add(this.mesh!)]: the mesh was just made by [generateMesh] and
    has no parent to be taken from. *)
Definition scene_add (m : option Mesh) : M World unit :=
  match m with
  | Some m =>
      modify (fun w =>
        mkWorld (this w) (scene_children w ++ [m])
                (disposed w) (console w) (next_id w))
  | None => ret tt
  end.

Definition console_log (e : error) : M World unit :=
  modify (fun w =>
    mkWorld (this w) (scene_children w) (disposed w) (console w ++ [e])
            (next_id w)).

Definition generateMesh : M World unit :=
  w <- get ;;
  let vs := meshVertexes (this w) in
  if (length vs mod 3 =? 0)%nat
  then
    modify (fun w =>
      mkWorld (set_mesh (Some (mkMesh (next_id w) (positions_of vs))) (this w))
              (scene_children w) (disposed w) (console w) (S (next_id w)))
  else throw (Thrown "meshVertexes array length must be a multiple of 3."%string).

Definition render : M World unit :=
  w <- get ;;
  match mesh (this w) with
  | Some m => removeMeshAndDispose m
  | None => ret tt
  end ;;
  on_this marchCubes ;;
  try_catch
    (generateMesh ;; w' <- get ;; scene_add (mesh (this w')))
    (fun error => console_log error).

End Marching.

(** ** A concrete instance of the constants

    The module [./marchingConstants] is not among the sources; the results
    below hold for every choice of the three tables that meets the stated
    conditions.  The instance here serves the concrete runs. *)

(** Modelled from the spec: [CORNER_ARRAY] of the missing
    [./marchingConstants], "a constant 8-entry corner-offset table", with
    the corner numbering drawn in the layout comment of [VoxelGrid.ts]
    (x to the right, y up, z to the back). *)
Definition sample_CORNER_ARRAY : list Vector3 :=
  [ mkVector3 0 0 0; mkVector3 1 0 0; mkVector3 0 1 0; mkVector3 1 1 0;
    mkVector3 0 0 1; mkVector3 1 0 1; mkVector3 0 1 1; mkVector3 1 1 1 ].

(** Modelled from the spec: [EDGE_ARRAY] of the missing
    [./marchingConstants], "a constant 12-entry edge-to-corner-pair table",
    with the edge numbering drawn in the layout comment of [VoxelGrid.ts];
    each edge is the pair of its end corners. *)
Definition sample_EDGE_ARRAY : list (list Vector3) :=
  let c i := nth i sample_CORNER_ARRAY (mkVector3 0 0 0) in
  [ [c 0; c 1]; [c 1; c 3]; [c 2; c 3]; [c 0; c 2];
    [c 4; c 5]; [c 5; c 7]; [c 6; c 7]; [c 4; c 6];
    [c 0; c 4]; [c 1; c 5]; [c 3; c 7]; [c 2; c 6] ]%nat.

(** Modelled from the spec: [TRIANGLE_TABLE] of the missing
    [./marchingConstants], a 256-entry table of edge-index triples closed by
    [-1].  Only its shape is known; this stand-in fills in the eight
    configurations with a single corner above the isovalue (one triangle
    across the three edges that meet at the corner) and leaves every other
    entry empty. *)
Definition sample_entry (code : nat) : list Z :=
  match code with
  | 1%nat => [0; 8; 3; -1]%Z
  | 2%nat => [0; 1; 9; -1]%Z
  | 4%nat => [2; 3; 11; -1]%Z
  | 8%nat => [1; 2; 10; -1]%Z
  | 16%nat => [4; 7; 8; -1]%Z
  | 32%nat => [4; 5; 9; -1]%Z
  | 64%nat => [6; 7; 11; -1]%Z
  | 128%nat => [5; 6; 10; -1]%Z
  | _ => [-1]%Z
  end.

Definition sample_TRIANGLE_TABLE : list (list Z) := map sample_entry (seq 0 256).

(** The grid built by [index.ts]:
    [new VoxelGrid(4, new Vector3(10, 10, 10), 0, new Vector3(0, 0, 0))]. *)
Definition index_grid : outcome VoxelGrid unit :=
  constructor 4 (mkVector3 10 10 10) 0 (mkVector3 0 0 0).

(** A small field: 3 x 3 x 3 samples at resolution 1, the middle one above
    the isovalue [0]. *)
Definition small_grid : VoxelGrid :=
  let lo := [Some (-1); Some (-1); Some (-1)] in
  let plane := [lo; lo; lo] in
  mkVoxelGrid 1 (mkVector3 3 3 3) 0 (mkVector3 0 0 0)
    [plane; [lo; [Some (-1); Some 1; Some (-1)]; lo]; plane] [] None.

(** ** Frame conditions: what a computation may change *)

(** [extends t t']: [t'] is [t] with whole triangles pushed on
    [meshVertexes], and nothing else changed. *)
Definition extends (t t' : VoxelGrid) : Prop :=
  exists vs, t' = set_meshVertexes (meshVertexes t ++ vs) t
             /\ (length vs mod 3 = 0)%nat.

Definition pushes {A} (m : M VoxelGrid A) : Prop :=
  forall t, extends t (final (m t)).

(** A computation that leaves the state alone, also when it throws. *)
Definition reads {A} (m : M VoxelGrid A) : Prop :=
  forall t, final (m t) = t.

(** ** The scan and the shape of the field *)

(** The cells the three nested loops of [marchCubes] reach, in order. *)
Definition visited (t : VoxelGrid) : list (nat * nat * nat) :=
  flat_map (fun x =>
    flat_map (fun y =>
      map (fun z => (x, y, z))
        (range (vec_z (size t) * resolution t - 1)))
      (range (vec_y (size t) * resolution t - 1)))
    (range (vec_x (size t) * resolution t - 1)).

(** The shape invariant of the field: the extents [nx], [ny], [nz] are the
    products [size.axis * resolution], and the nested array is a box of
    these extents. *)
Definition shape_ok (t : VoxelGrid) (nx ny nz : nat) : Prop :=
  vec_x (size t) * resolution t == num nx /\
  vec_y (size t) * resolution t == num ny /\
  vec_z (size t) * resolution t == num nz /\
  length (grid t) = nx /\
  Forall (fun plane => length plane = ny /\
                       Forall (fun row => length row = nz) plane) (grid t) /\
  (Z.of_nat nx <= MAX_ARRAY_LENGTH)%Z /\
  (Z.of_nat ny <= MAX_ARRAY_LENGTH)%Z /\
  (Z.of_nat nz <= MAX_ARRAY_LENGTH)%Z.

(** A corner offset: each coordinate is [0] or [1]. *)
Definition unit_corner (c : Vector3) : Prop :=
  (vec_x c == 0 \/ vec_x c == 1) /\
  (vec_y c == 0 \/ vec_y c == 1) /\
  (vec_z c == 0 \/ vec_z c == 1).

(** The corner table a cube needs: eight unit offsets. *)
Definition corners_ok (CORNER_ARRAY : list Vector3) : Prop :=
  length CORNER_ARRAY = 8%nat /\ Forall unit_corner CORNER_ARRAY.

(** The element [i][j][k] of a nested array, when all three levels have
    it. *)
Definition cell_at (g : Grid) (i j k : nat) : option (option Q) :=
  match nth_error g i with
  | Some plane =>
      match nth_error plane j with
      | Some row => nth_error row k
      | None => None
      end
  | None => None
  end.

(** ** The triangle table read by the inner loop *)

(** Component-wise equality of vectors, as numbers. *)
Definition vec_eq (v w : Vector3) : Prop :=
  vec_x v == vec_x w /\ vec_y v == vec_y w /\ vec_z v == vec_z w.

(** The midpoint of the segment from [p0] to [p1] (factor one half), divided
    by the resolution, plus the base [(x, y, z)] of the cell divided by the
    resolution. *)
Definition cell_vertex (r x y z : Q) (p0 p1 : Vector3) : Vector3 :=
  mkVector3 ((vec_x p0 + vec_x p1) * (1 # 2) / r + x / r)
            ((vec_y p0 + vec_y p1) * (1 # 2) / r + y / r)
            ((vec_z p0 + vec_z p1) * (1 # 2) / r + z / r).

(** The edge indices the [while] loop reads from a table entry: triples, up
    to the first triple that starts with [-1]. *)
Fixpoint referenced (triangles : list Z) : list Z :=
  match triangles with
  | [] => []
  | e1 :: rest =>
      if (e1 =? -1)%Z then []
      else
        match rest with
        | e2 :: e3 :: rest' => e1 :: e2 :: e3 :: referenced rest'
        | _ => e1 :: rest
        end
  end.

(** The edge table has two end points for the index. *)
Definition edge_ok (EDGE_ARRAY : list (list Vector3)) (e : Z) : bool :=
  match lookup EDGE_ARRAY (Some e) with
  | Some (_ :: _ :: _) => true
  | _ => false
  end.

(** A table entry made of whole triples of known edges, up to its sentinel
    or its end. *)
Fixpoint entry_ok (EDGE_ARRAY : list (list Vector3)) (triangles : list Z) : bool :=
  match triangles with
  | [] => true
  | e1 :: rest =>
      if (e1 =? -1)%Z then true
      else
        match rest with
        | e2 :: e3 :: rest' =>
            edge_ok EDGE_ARRAY e1 && edge_ok EDGE_ARRAY e2
            && edge_ok EDGE_ARRAY e3 && entry_ok EDGE_ARRAY rest'
        | _ => false
        end
  end.

(** What the spec says of the three tables: eight unit corner offsets, and
    256 entries of edge triples, each edge with its two end points. *)
Definition tables_ok (CORNER_ARRAY : list Vector3)
    (EDGE_ARRAY : list (list Vector3)) (TRIANGLE_TABLE : list (list Z)) : Prop :=
  corners_ok CORNER_ARRAY /\
  length TRIANGLE_TABLE = 256%nat /\
  forallb (entry_ok EDGE_ARRAY) TRIANGLE_TABLE = true.

(** The emitted vertex [v] is the midpoint vertex of edge [e] in the cell at
    [(x, y, z)]. *)
Definition vertex_of_edge (EDGE_ARRAY : list (list Vector3)) (r x y z : Q)
    (e : Z) (v : Vector3) : Prop :=
  exists p0 p1 more,
    lookup EDGE_ARRAY (Some e) = Some (p0 :: p1 :: more) /\
    vec_eq v (cell_vertex r x y z p0 p1).

(** ** Allocation and seeding, step by step *)

(** The row callback of [initializeGrid]:
    [Array(this.size.z * this.resolution).fill(-1)]. *)
Definition new_row (lz : Q) : M VoxelGrid (list (option Q)) :=
  arr <- Array_ lz ;; ret (fill arr (-1)).

(** The value of the nested [Array.from] for the three requested lengths,
    [None] when it throws [RangeError]: the callbacks run only for arrays
    that have an element. *)
Definition allocate (lx ly lz : Q) : option Grid :=
  if (to_length lx <=? MAX_ARRAY_LENGTH)%Z then
    match Z.to_nat (to_length lx) with
    | O => Some []
    | nx =>
        if (to_length ly <=? MAX_ARRAY_LENGTH)%Z then
          match Z.to_nat (to_length ly) with
          | O => Some (repeat [] nx)
          | ny =>
              if is_integer lz && (0 <=? Qfloor lz)%Z
                 && (Qfloor lz <=? MAX_ARRAY_LENGTH)%Z
              then Some (repeat (repeat (repeat (Some (-1))
                                           (Z.to_nat (Qfloor lz))) ny) nx)
              else None
          end
        else None
    end
  else None.

(** The keys of the eight seed writes, in the order of the source. *)
Definition seed_keys (t : VoxelGrid) : list (Q * Q * Q) :=
  let a := (vec_x (size t) / 2) * resolution t in
  let b := (vec_y (size t) / 2) * resolution t in
  let c := (vec_z (size t) / 2) * resolution t in
  [ (a, b, c); (a + 1, b, c); (a + 2, b, c); (a + 2, b - 1, c);
    (a + 2, b - 2, c); (a + 2, b - 3, c); (a + 3, b, c); (a + 4, b, c) ].

(** The cells these keys name when the anchor is the cell [(ix, iy, kz)]. *)
Definition seed_cells (ix iy kz : nat) : list (nat * nat * nat) :=
  [ (ix, iy, kz); (ix + 1, iy, kz); (ix + 2, iy, kz); (ix + 2, iy - 1, kz);
    (ix + 2, iy - 2, kz); (ix + 2, iy - 3, kz); (ix + 3, iy, kz);
    (ix + 4, iy, kz) ]%nat.

(** The first two keys of a write name a plane and a row of a grid with
    [nx] planes of [ny] rows. *)
Definition names_row (nx ny : nat) (key : Q * Q * Q) : bool :=
  match array_index (fst (fst key)), array_index (snd (fst key)) with
  | Some ia, Some ib => (ia <? nx)%nat && (ib <? ny)%nat
  | _, _ => false
  end.

(** [nx] planes of [ny] rows each. *)
Definition box (g : Grid) (nx ny : nat) : Prop :=
  length g = nx /\ Forall (fun plane => length plane = ny) g.

(** The three keys of a write are the array indices of a cell. *)
Definition names_cell (key : Q * Q * Q) (cell : nat * nat * nat) : Prop :=
  array_index (fst (fst key)) = Some (fst (fst cell)) /\
  array_index (snd (fst key)) = Some (snd (fst cell)) /\
  array_index (snd key) = Some (snd cell).

(** Every row of every plane has [nz] elements. *)
Definition rows_len (g : Grid) (nz : nat) : Prop :=
  Forall (Forall (fun row : list (option Q) => length row = nz)) g.

(** The seed writes of [initializeGrid], as a loop over their keys. *)
Definition write_seeds (keys : list (Q * Q * Q)) : M VoxelGrid unit :=
  forEach keys (fun key => grid_write (fst (fst key)) (snd (fst key)) (snd key) 1).

(** The numbers of planes and of rows per plane that [initializeGrid]
    allocates. *)
Definition x_extent (t : VoxelGrid) : nat :=
  Z.to_nat (to_length (vec_x (size t) * resolution t)).

Definition y_extent (t : VoxelGrid) : nat :=
  Z.to_nat (to_length (vec_y (size t) * resolution t)).

(** ** The scene before and after a call of [render] *)

(** The world once [render] has run its first statement,
    [if (this.mesh) removeMeshAndDispose(scene, this.mesh)]. *)
Definition after_removal (w : World) : World :=
  match mesh (this w) with
  | Some m =>
      mkWorld (this w) (remove_child (mesh_id m) (scene_children w))
              (mesh_id m :: disposed w) (console w) (next_id w)
  | None => w
  end.

Definition set_resolution (r : Q) (t : VoxelGrid) : VoxelGrid :=
  mkVoxelGrid r (size t) (isovalue t) (position t)
              (grid t) (meshVertexes t) (mesh t).

(** A first frame: the small field, nothing rendered yet, an empty scene. *)
Definition fresh_world : World := mkWorld small_grid [] [] [] 0.

(** The world after a first [render], when the caller then assigns
    [grid.resolution = 2] and does not call [initializeGrid]. *)
Definition stale_world : World :=
  let w := final (render sample_CORNER_ARRAY sample_EDGE_ARRAY
                    sample_TRIANGLE_TABLE fresh_world) in
  set_this (set_resolution 2 (this w)) w.

(** ** Inputs of the concrete runs of [initializeGrid] *)

(** The object as the constructor has it before it calls
    [initializeGrid]. *)
Definition blank (resolution0 : Q) (size0 : Vector3) (isovalue0 : Q) : VoxelGrid :=
  mkVoxelGrid resolution0 size0 isovalue0 (mkVector3 0 0 0) [] [] None.

(** 10 x 10 x 2 units at resolution 1. *)
Definition slab : VoxelGrid := blank 1 (mkVector3 10 10 2) 0.

(** 10 x 10 x 1 units at resolution 1: the third seed key is [1/2]. *)
Definition thin_slab : VoxelGrid := blank 1 (mkVector3 10 10 1) 0.

(** 10 x 10 x 0 units at resolution 1: rows of no element. *)
Definition flat_slab : VoxelGrid := blank 1 (mkVector3 10 10 0) 0.

(** 10 x 10 x 10 units at resolution 0, the lower end of the slider of
    [index.ts]. *)
Definition zero_resolution : VoxelGrid := blank 0 (mkVector3 10 10 10) 0.

(** ** The field as the input of the extraction *)

(** Two objects with the same field: resolution, size, isovalue and grid. *)
Definition same_field (t1 t2 : VoxelGrid) : Prop :=
  resolution t1 = resolution t2 /\ size t1 = size t2 /\
  isovalue t1 = isovalue t2 /\ grid t1 = grid t2.

(** The same field and the same vertex buffer. *)
Definition agree (t1 t2 : VoxelGrid) : Prop :=
  same_field t1 t2 /\ meshVertexes t1 = meshVertexes t2.

(** Two outcomes of the same kind, with the same value or error, in states
    that agree. *)
Definition agree_out {A} (o1 o2 : outcome VoxelGrid A) : Prop :=
  match o1, o2 with
  | Normal a1 s1, Normal a2 s2 => a1 = a2 /\ agree s1 s2
  | Abrupt e1 s1, Abrupt e2 s2 => e1 = e2 /\ agree s1 s2
  | _, _ => False
  end.

(** A computation that sees of the object only the field and the buffer. *)
Definition uniform {A} (m : M VoxelGrid A) : Prop :=
  forall t1 t2, agree t1 t2 -> agree_out (m t1) (m t2).

(** ** Further code of the class and what is said of it *)

(** [forEachVoxel(callback)].  The callback works on a state [S] of the
    caller's own; it does not assign [size] or [resolution] of the grid,
    which the loop tests read at every round. *)
Definition forEachVoxel {S} (t : VoxelGrid) (callback : Q -> Q -> Q -> M S unit)
  : M S unit :=
  forEach (range (vec_x (size t) * resolution t)) (fun currX =>
    forEach (range (vec_y (size t) * resolution t)) (fun currY =>
      forEach (range (vec_z (size t) * resolution t)) (fun currZ =>
        callback (num currX / resolution t) (num currY / resolution t)
                 (num currZ / resolution t)))).

(** The index triples of a box of [nx] by [ny] by [nz] cells, the first
    index slowest. *)
Definition grid_cells (nx ny nz : nat) : list (nat * nat * nat) :=
  flat_map (fun i =>
    flat_map (fun j => map (fun k => (i, j, k)) (seq 0 nz)) (seq 0 ny))
    (seq 0 nx).

(** The vertices one cube pushes, started on an empty buffer. *)
Definition cube_vertices (CORNER_ARRAY : list Vector3)
    (EDGE_ARRAY : list (list Vector3)) (TRIANGLE_TABLE : list (list Z))
    (t : VoxelGrid) (c : nat * nat * nat) : list Vector3 :=
  meshVertexes
    (final (marchCube CORNER_ARRAY EDGE_ARRAY TRIANGLE_TABLE
              (fst (fst c)) (snd (fst c)) (snd c) (set_meshVertexes [] t))).

(** The same field, and the buffer of the second state is the buffer of the
    first after [vs]. *)
Definition shifted (vs : list Vector3) (t1 t2 : VoxelGrid) : Prop :=
  same_field t1 t2 /\ meshVertexes t2 = vs ++ meshVertexes t1.

Definition shifted_out {A} (vs : list Vector3) (o1 o2 : outcome VoxelGrid A)
  : Prop :=
  match o1, o2 with
  | Normal a1 s1, Normal a2 s2 => a1 = a2 /\ shifted vs s1 s2
  | Abrupt e1 s1, Abrupt e2 s2 => e1 = e2 /\ shifted vs s1 s2
  | _, _ => False
  end.

(** A computation that only appends to the buffer it finds. *)
Definition appends {A} (m : M VoxelGrid A) : Prop :=
  forall vs t1 t2, shifted vs t1 t2 -> shifted_out vs (m t1) (m t2).

(** The edge table joins unit corners. *)
Definition edges_unit (EDGE_ARRAY : list (list Vector3)) : Prop :=
  Forall (Forall unit_corner) EDGE_ARRAY.

(** A point of the box from the origin to [size]. *)
Definition in_size_box (t : VoxelGrid) (v : Vector3) : Prop :=
  (0 <= vec_x v /\ vec_x v <= vec_x (size t)) /\
  (0 <= vec_y v /\ vec_y v <= vec_y (size t)) /\
  (0 <= vec_z v /\ vec_z v <= vec_z (size t)).

(** No sample of the field is above the isovalue. *)
Definition none_above (t : VoxelGrid) : Prop :=
  forall i j k v, cell_at (grid t) i j k = Some (Some v) -> v <= isovalue t.

(** Every sample of the field is a number above the isovalue. *)
Definition all_above (t : VoxelGrid) : Prop :=
  forall i j k c, cell_at (grid t) i j k = Some c ->
    exists v, c = Some v /\ isovalue t < v.

(** The meshes of the scene are distinct objects, made before the next one
    to be made; so is the mesh of the grid. *)
Definition world_ok (w : World) : Prop :=
  NoDup (map mesh_id (scene_children w)) /\
  Forall (fun c => (mesh_id c < next_id w)%nat) (scene_children w) /\
  (forall m, mesh (this w) = Some m -> (mesh_id m < next_id w)%nat).

(** A computation whose only exception is [TypeError]. *)
Definition throws_only_TypeError {S A} (m : M S A) : Prop :=
  forall s e s', m s = Abrupt e s' -> e = TypeError.

(** ** Inputs of further concrete runs *)

(** The small field with every sample at [-1], below the isovalue [0]. *)
Definition low_grid : VoxelGrid :=
  set_grid (repeat (repeat (repeat (Some (-1)) 3) 3) 3) small_grid.

(** The small field with every sample at [1], above the isovalue [0]. *)
Definition high_grid : VoxelGrid :=
  set_grid (repeat (repeat (repeat (Some 1) 3) 3) 3) small_grid.

(** A callback for [forEachVoxel] that counts its calls. *)
Definition count_call (x y z : Q) : M nat unit := modify S.

(** The world after a first [render] of the small field. *)
Definition drawn_world : World :=
  final (render sample_CORNER_ARRAY sample_EDGE_ARRAY sample_TRIANGLE_TABLE
           fresh_world).

(** * Properties *)

Unset Implicit Arguments.

(** ** Numbers as keys and bounds *)

Lemma is_integer_spec (q : Q) :
  is_integer q = true <-> q == inject_Z (Qfloor q).
Proof. unfold is_integer. apply Qeq_bool_iff. Qed.

Lemma is_integer_Qeq (q q' : Q) : q == q' -> is_integer q = is_integer q'.
Proof.
  intros E. unfold is_integer.
  destruct (Qeq_bool q' (inject_Z (Qfloor q'))) eqn:H.
  - apply Qeq_bool_iff. apply Qeq_bool_iff in H.
    rewrite E at 1. rewrite H. rewrite E. reflexivity.
  - destruct (Qeq_bool q (inject_Z (Qfloor q))) eqn:H'; [|reflexivity].
    apply Qeq_bool_iff in H'. rewrite <- H.
    symmetry. apply Qeq_bool_iff. rewrite <- E at 1. rewrite H'.
    rewrite E. reflexivity.
Qed.

Lemma array_index_Qeq (q q' : Q) : q == q' -> array_index q = array_index q'.
Proof.
  intros E. unfold array_index.
  rewrite (is_integer_Qeq _ _ E), (Qfloor_comp _ _ E). reflexivity.
Qed.

Lemma array_index_num (n : nat) :
  (Z.of_nat n < MAX_ARRAY_LENGTH)%Z -> array_index (num n) = Some n.
Proof.
  intros B. unfold array_index, num, is_integer.
  rewrite Qfloor_Z.
  replace (Qeq_bool (inject_Z (Z.of_nat n)) (inject_Z (Z.of_nat n))) with true
    by (symmetry; apply Qeq_bool_iff; reflexivity).
  replace (0 <=? Z.of_nat n)%Z with true by (symmetry; apply Z.leb_le; lia).
  replace (Z.of_nat n <? MAX_ARRAY_LENGTH)%Z with true
    by (symmetry; apply Z.ltb_lt; lia).
  simpl. rewrite Nat2Z.id. reflexivity.
Qed.

Lemma array_index_Some (q : Q) (n : nat) :
  array_index q = Some n ->
  q == num n /\ (Z.of_nat n < MAX_ARRAY_LENGTH)%Z.
Proof.
  unfold array_index.
  destruct (is_integer q) eqn:I; simpl; [|discriminate].
  destruct (0 <=? Qfloor q)%Z eqn:P; simpl; [|discriminate].
  destruct (Qfloor q <? MAX_ARRAY_LENGTH)%Z eqn:B; [|discriminate].
  intros H. injection H as <-.
  apply Z.leb_le in P. apply Z.ltb_lt in B. apply is_integer_spec in I.
  unfold num. rewrite Z2Nat.id by assumption. split; assumption.
Qed.

Lemma num_lt (n m : nat) : num n < num m <-> (n < m)%nat.
Proof. unfold num. rewrite <- Zlt_Qlt. lia. Qed.

Lemma num_le (n m : nat) : num n <= num m <-> (n <= m)%nat.
Proof. unfold num. rewrite <- Zle_Qle. lia. Qed.

Lemma num_S (n : nat) : num (S n) == num n + 1.
Proof.
  unfold num. rewrite Nat2Z.inj_succ. unfold Z.succ.
  rewrite inject_Z_plus. reflexivity.
Qed.

Lemma num_plus (n m : nat) : num (n + m) == num n + num m.
Proof. unfold num. rewrite Nat2Z.inj_add, inject_Z_plus. reflexivity. Qed.

(** The counter of [for (let x = 0; x < bound; x++)] takes exactly the
    values below the bound. *)
Lemma range_spec (bound : Q) (n : nat) :
  In n (range bound) <-> num n < bound.
Proof.
  unfold range, loop_count. rewrite in_seq. simpl.
  split.
  - intros [_ H].
    assert (Hz : (Z.of_nat n <= Qceiling bound - 1)%Z) by lia.
    apply Qle_lt_trans with (inject_Z (Qceiling bound - 1)).
    + unfold num. rewrite <- Zle_Qle. exact Hz.
    + apply Qceiling_lt.
  - intros H. split; [lia|].
    assert (Hq : num n < inject_Z (Qceiling bound)).
    { apply Qlt_le_trans with bound; [exact H | apply Qle_ceiling]. }
    unfold num in Hq. rewrite <- Zlt_Qlt in Hq. lia.
Qed.

(** ** Frame: what a computation may change *)

Lemma set_meshVertexes_same (t : VoxelGrid) :
  set_meshVertexes (meshVertexes t) t = t.
Proof. destruct t; reflexivity. Qed.

Lemma extends_refl (t : VoxelGrid) : extends t t.
Proof.
  exists []. rewrite app_nil_r, set_meshVertexes_same. split; reflexivity.
Qed.

Lemma mod3_app {A} (l l' : list A) :
  (length l mod 3 = 0 -> length l' mod 3 = 0 -> length (l ++ l') mod 3 = 0)%nat.
Proof.
  intros H H'. rewrite length_app.
  rewrite Nat.Div0.add_mod, H, H'. reflexivity.
Qed.

Lemma extends_trans (t1 t2 t3 : VoxelGrid) :
  extends t1 t2 -> extends t2 t3 -> extends t1 t3.
Proof.
  intros [vs [-> H]] [vs' [-> H']].
  exists (vs ++ vs'). split.
  - destruct t1; unfold set_meshVertexes; simpl. rewrite app_assoc. reflexivity.
  - apply mod3_app; assumption.
Qed.

Lemma reads_pushes {A} (m : M VoxelGrid A) : reads m -> pushes m.
Proof. intros H t. rewrite H. apply extends_refl. Qed.

Lemma reads_ret {A} (a : A) : reads (ret a).
Proof. intros t. reflexivity. Qed.

Lemma reads_throw {A} (e : error) : reads (@throw VoxelGrid A e).
Proof. intros t. reflexivity. Qed.

Lemma reads_get : reads (@get VoxelGrid).
Proof. intros t. reflexivity. Qed.

Lemma reads_bind {A B} (m : M VoxelGrid A) (k : A -> M VoxelGrid B) :
  reads m -> (forall a, reads (k a)) -> reads (bind m k).
Proof.
  intros Hm Hk t. unfold bind. specialize (Hm t).
  destruct (m t) as [a s|e s]; simpl in Hm; subst s.
  - apply Hk.
  - reflexivity.
Qed.

Lemma pushes_bind {A B} (m : M VoxelGrid A) (k : A -> M VoxelGrid B) :
  pushes m -> (forall a, pushes (k a)) -> pushes (bind m k).
Proof.
  intros Hm Hk t. unfold bind. specialize (Hm t).
  destruct (m t) as [a s|e s]; simpl in Hm.
  - apply extends_trans with s; [assumption | apply Hk].
  - assumption.
Qed.

Lemma pushes_forEach {A} (l : list A) (body : A -> M VoxelGrid unit) :
  (forall a, pushes (body a)) -> pushes (forEach l body).
Proof.
  intros H. induction l as [|a l IH]; simpl.
  - apply reads_pushes, reads_ret.
  - apply pushes_bind; [apply H | intros _; exact IH].
Qed.

Create HintDb frame.
#[local] Hint Resolve reads_ret reads_throw reads_get reads_pushes : frame.

Section MarchingFrame.

Variable CORNER_ARRAY : list Vector3.
Variable EDGE_ARRAY : list (list Vector3).
Variable TRIANGLE_TABLE : list (list Z).

Lemma reads_sample_corner (x y z : Q) (corner : Vector3) :
  reads (sample_corner x y z corner).
Proof.
  unfold sample_corner. apply reads_bind; [apply reads_get|]. intros t.
  destruct (get_prop (grid t) (x + vec_x corner)) as [plane|];
    [|apply reads_throw].
  destruct (get_prop plane (y + vec_y corner)) as [row|];
    [apply reads_ret | apply reads_throw].
Qed.

Lemma reads_cornerLoop (x y z : Q) (es : list (nat * Vector3)) :
  forall c, reads (cornerLoop x y z es c).
Proof.
  induction es as [|[i corner] es IH]; intros c; simpl.
  - apply reads_ret.
  - apply reads_bind; [apply reads_sample_corner|]. intros v.
    apply reads_bind; [apply reads_get|]. intros t. apply IH.
Qed.

Lemma reads_createScaledVector (p : option Vector3) (r : Q) :
  reads (createScaledVector p r).
Proof. destruct p; simpl; auto with frame. Qed.

Lemma reads_getEdgeMidpoint (e : option (list Vector3)) (r : Q) :
  reads (getEdgeMidpoint e r).
Proof.
  destruct e as [e|]; simpl; [|apply reads_throw].
  apply reads_bind; [apply reads_createScaledVector|]. intros v1.
  apply reads_bind; [apply reads_createScaledVector|]. intros v2.
  apply reads_ret.
Qed.

Lemma pushes_emitTriangle (x y z : Q) (e1 e2 e3 : option Z) :
  pushes (emitTriangle EDGE_ARRAY x y z e1 e2 e3).
Proof.
  unfold emitTriangle.
  apply pushes_bind; [auto with frame|]. intros t.
  apply pushes_bind; [apply reads_pushes, reads_getEdgeMidpoint|]. intros v1.
  apply pushes_bind; [apply reads_pushes, reads_getEdgeMidpoint|]. intros v2.
  apply pushes_bind; [apply reads_pushes, reads_getEdgeMidpoint|]. intros v3.
  intros s. simpl. eexists. split; reflexivity.
Qed.

Lemma pushes_triangleLoop (x y z : Q) (triangles : list Z) :
  pushes (triangleLoop EDGE_ARRAY x y z triangles).
Proof.
  assert (H : forall n l, (length l <= n)%nat ->
               pushes (triangleLoop EDGE_ARRAY x y z l)).
  { induction n as [|n IH]; intros l Hl.
    - destruct l; [apply reads_pushes, reads_ret | simpl in Hl; lia].
    - destruct l as [|e1 [|e2 [|e3 rest]]]; simpl.
      + apply reads_pushes, reads_ret.
      + destruct (e1 =? -1)%Z; [apply reads_pushes, reads_ret|].
        apply pushes_emitTriangle.
      + destruct (e1 =? -1)%Z; [apply reads_pushes, reads_ret|].
        apply pushes_emitTriangle.
      + destruct (e1 =? -1)%Z; [apply reads_pushes, reads_ret|].
        apply pushes_bind; [apply pushes_emitTriangle|]. intros _.
        apply IH. simpl in Hl. lia. }
  apply (H (length triangles)). lia.
Qed.

Lemma pushes_marchCube (x y z : nat) :
  pushes (marchCube CORNER_ARRAY EDGE_ARRAY TRIANGLE_TABLE x y z).
Proof.
  unfold marchCube.
  apply pushes_bind; [apply reads_pushes, reads_cornerLoop|]. intros c.
  destruct (lookup TRIANGLE_TABLE (Some c)) as [tri|].
  - apply pushes_triangleLoop.
  - apply reads_pushes, reads_throw.
Qed.

(** Whatever the outcome, [marchCubes] leaves [this] as it was except for
    [meshVertexes], which holds whole triangles pushed on an empty
    buffer. *)
Lemma marchCubes_frame (t : VoxelGrid) :
  extends (set_meshVertexes [] t)
    (final (marchCubes CORNER_ARRAY EDGE_ARRAY TRIANGLE_TABLE t)).
Proof.
  unfold marchCubes.
  change (bind (modify (set_meshVertexes [])) ?k t)
    with (k tt (set_meshVertexes [] t)).
  cbv beta.
  generalize (set_meshVertexes [] t). apply pushes_bind.
  - apply reads_pushes, reads_get.
  - intros s. apply pushes_forEach. intros x.
    apply pushes_forEach. intros y. apply pushes_forEach. intros z.
    apply pushes_marchCube.
Qed.

End MarchingFrame.

Section MarchingFrameClaims.

Variable CORNER_ARRAY : list Vector3.
Variable EDGE_ARRAY : list (list Vector3).
Variable TRIANGLE_TABLE : list (list Z).

Let extract := marchCubes CORNER_ARRAY EDGE_ARRAY TRIANGLE_TABLE.

Lemma marchCubes_reset (vs : list Vector3) (t : VoxelGrid) :
  extract (set_meshVertexes vs t) = extract t.
Proof. reflexivity. Qed.

Lemma marchCubes_final (t : VoxelGrid) :
  exists vs, final (extract t) = set_meshVertexes vs t
             /\ (length vs mod 3 = 0)%nat.
Proof.
  destruct (marchCubes_frame CORNER_ARRAY EDGE_ARRAY TRIANGLE_TABLE t)
    as [vs [E H]].
  exists vs. split; [|exact H]. exact E.
Qed.

(** C9: extraction never writes the scalar field.  Whatever the outcome,
    the state after [marchCubes] has the grid (and every other field of
    the object) it had before; only [meshVertexes] changes, and it is
    replaced wholesale: the buffer left by the call does not depend on the
    buffer found. *)
Theorem marchCubes_preserves_field (t : VoxelGrid) (old : list Vector3) :
  let t' := final (extract t) in
  grid t' = grid t /\
  resolution t' = resolution t /\ size t' = size t /\
  isovalue t' = isovalue t /\ position t' = position t /\
  mesh t' = mesh t /\
  meshVertexes (final (extract (set_meshVertexes old t))) = meshVertexes t'.
Proof.
  intros t'. subst t'.
  destruct (marchCubes_final t) as [vs [E _]]. rewrite E.
  repeat split; try reflexivity.
  rewrite marchCubes_reset, E. reflexivity.
Qed.

End MarchingFrameClaims.

(** ** The scan: which cells are visited, which indices are read *)

Lemma forEach_app {S A} (l1 l2 : list A) (body : A -> M S unit) (s : S) :
  forEach (l1 ++ l2) body s = bind (forEach l1 body) (fun _ => forEach l2 body) s.
Proof.
  revert s. induction l1 as [|a l1 IH]; intros s; simpl.
  - reflexivity.
  - unfold bind in *. destruct (body a s) as [[] s'|e s'].
    + rewrite IH. reflexivity.
    + reflexivity.
Qed.

Lemma forEach_ext {S A} (l : list A) (body body' : A -> M S unit) :
  (forall a s, body a s = body' a s) ->
  forall s, forEach l body s = forEach l body' s.
Proof.
  intros E. induction l as [|a l IH]; intros s; simpl.
  - reflexivity.
  - unfold bind. rewrite E. destruct (body' a s); [apply IH | reflexivity].
Qed.

Lemma forEach_map {S A B} (f : A -> B) (l : list A) (body : B -> M S unit) (s : S) :
  forEach (map f l) body s = forEach l (fun a => body (f a)) s.
Proof.
  revert s. induction l as [|a l IH]; intros s; simpl.
  - reflexivity.
  - unfold bind. destruct (body (f a) s); [apply IH | reflexivity].
Qed.

Lemma forEach_flat_map {S A B} (f : A -> list B) (l : list A)
    (body : B -> M S unit) (s : S) :
  forEach (flat_map f l) body s = forEach l (fun a => forEach (f a) body) s.
Proof.
  revert s. induction l as [|a l IH]; intros s; simpl.
  - reflexivity.
  - rewrite forEach_app. unfold bind.
    destruct (forEach (f a) body s); [apply IH | reflexivity].
Qed.

(** A loop whose every round ends normally and keeps an invariant ends
    normally. *)
Lemma forEach_normal {S A} (I : S -> Prop) (l : list A) (body : A -> M S unit) :
  (forall a s, In a l -> I s -> exists s', body a s = Normal tt s' /\ I s') ->
  forall s, I s -> exists s', forEach l body s = Normal tt s' /\ I s'.
Proof.
  induction l as [|a l IH]; intros H s Hs; simpl.
  - exists s. split; [reflexivity | assumption].
  - destruct (H a s (or_introl eq_refl) Hs) as [s1 [E1 I1]].
    unfold bind. rewrite E1.
    apply IH; [|assumption].
    intros b s2 Hb. apply H. right. assumption.
Qed.

Lemma visited_spec (t : VoxelGrid) (x y z : nat) :
  In (x, y, z) (visited t) <->
  num x < vec_x (size t) * resolution t - 1 /\
  num y < vec_y (size t) * resolution t - 1 /\
  num z < vec_z (size t) * resolution t - 1.
Proof.
  unfold visited. rewrite in_flat_map. split.
  - intros [x' [Hx H]]. apply in_flat_map in H. destruct H as [y' [Hy H]].
    apply in_map_iff in H. destruct H as [z' [E Hz]].
    injection E as -> -> ->.
    rewrite <- !range_spec. auto.
  - intros [Hx [Hy Hz]]. exists x. split; [apply range_spec; assumption|].
    apply in_flat_map. exists y. split; [apply range_spec; assumption|].
    apply in_map_iff. exists z. split; [reflexivity|].
    apply range_spec; assumption.
Qed.

(** No cell is visited, and so nothing is divided by the resolution, when
    the resolution is [0]. *)
Lemma visited_resolution_nonzero (t : VoxelGrid) (x y z : nat) :
  In (x, y, z) (visited t) -> ~ resolution t == 0.
Proof.
  intros H E. apply visited_spec in H. destruct H as [Hx _].
  rewrite E, Qmult_0_r in Hx.
  assert (0 <= num x) by (change 0 with (num 0); apply num_le; lia).
  lra.
Qed.

Lemma below_extent (q : Q) (n x : nat) :
  q == num n -> (num x < q - 1 <-> (x + 1 < n)%nat).
Proof.
  intros E. rewrite E. rewrite <- num_lt.
  rewrite num_plus. change (num 1) with 1.
  split; intros H; lra.
Qed.

Lemma visited_shape (t : VoxelGrid) (nx ny nz x y z : nat) :
  shape_ok t nx ny nz ->
  (In (x, y, z) (visited t) <-> (x + 1 < nx /\ y + 1 < ny /\ z + 1 < nz)%nat).
Proof.
  intros (Ex & Ey & Ez & _). rewrite visited_spec.
  rewrite (below_extent _ _ _ Ex), (below_extent _ _ _ Ey), (below_extent _ _ _ Ez).
  reflexivity.
Qed.

(** A counter plus a unit offset is an index below the extent. *)
Lemma offset_index (o : Q) (x n : nat) :
  o == 0 \/ o == 1 -> (x + 1 < n)%nat -> (Z.of_nat n <= MAX_ARRAY_LENGTH)%Z ->
  exists i, array_index (num x + o) = Some i /\ (i < n)%nat /\ (x <= i <= x + 1)%nat.
Proof.
  intros [E|E] L B.
  - exists x. split; [|lia].
    rewrite (array_index_Qeq _ (num x)) by (rewrite E; ring).
    apply array_index_num. lia.
  - exists (S x). split; [|lia].
    rewrite (array_index_Qeq _ (num (S x))) by (rewrite E, num_S; ring).
    apply array_index_num. lia.
Qed.

Lemma shape_cell (t : VoxelGrid) (nx ny nz i j k : nat) :
  shape_ok t nx ny nz -> (i < nx)%nat -> (j < ny)%nat -> (k < nz)%nat ->
  exists plane row c,
    nth_error (grid t) i = Some plane /\ nth_error plane j = Some row /\
    nth_error row k = Some c.
Proof.
  intros (_ & _ & _ & Lx & F & _) Hi Hj Hk.
  destruct (nth_error (grid t) i) as [plane|] eqn:Ep;
    [|apply nth_error_None in Ep; lia].
  rewrite Forall_forall in F.
  destruct (F plane (nth_error_In _ _ Ep)) as [Ly Fr].
  destruct (nth_error plane j) as [row|] eqn:Er;
    [|apply nth_error_None in Er; lia].
  rewrite Forall_forall in Fr. pose proof (Fr row (nth_error_In _ _ Er)) as Lz.
  destruct (nth_error row k) as [c|] eqn:Ec;
    [|apply nth_error_None in Ec; lia].
  exists plane, row, c. auto.
Qed.

(** ** Bits of the configuration byte *)

Lemma to_int32_small (n : Z) :
  (- 2 ^ 31 <= n < 2 ^ 31)%Z -> to_int32 n = n.
Proof.
  intros H. unfold to_int32. rewrite Z.mod_small; lia.
Qed.

Lemma js_shl_one (k : Z) : (0 <= k <= 30)%Z -> js_shl 1 k = (2 ^ k)%Z.
Proof.
  intros H. unfold js_shl.
  rewrite (to_int32_small 1) by lia.
  rewrite Z.mod_small by lia.
  rewrite Z.shiftl_1_l.
  apply to_int32_small.
  assert (2 ^ k <= 2 ^ 30)%Z by (apply Z.pow_le_mono_r; lia).
  assert (0 < 2 ^ k)%Z by (apply Z.pow_pos_nonneg; lia).
  lia.
Qed.

Lemma lor_pow2_bound (c k : Z) :
  (0 <= k)%Z -> (0 <= c < 2 ^ k)%Z -> (0 <= Z.lor c (2 ^ k) < 2 ^ (k + 1))%Z.
Proof.
  intros Hk Hc.
  assert (P : (0 < 2 ^ k)%Z) by (apply Z.pow_pos_nonneg; lia).
  split.
  - apply Z.lor_nonneg. lia.
  - destruct (Z.eq_dec (Z.lor c (2 ^ k)) 0) as [E|N].
    + rewrite E. apply Z.pow_pos_nonneg; lia.
    + apply Z.log2_lt_pow2.
      * assert (0 <= Z.lor c (2 ^ k))%Z by (apply Z.lor_nonneg; lia). lia.
      * rewrite Z.log2_lor by lia. rewrite Z.log2_pow2 by lia.
        destruct (Z.eq_dec c 0) as [->|Nc]; [simpl; lia|].
        assert (Z.log2 c < k)%Z by (apply Z.log2_lt_pow2; lia). lia.
Qed.

(** Setting bit [k] of a [k]-bit value with [|= 1 << k]. *)
Lemma js_or_shl (c k : Z) :
  (0 <= k <= 30)%Z -> (0 <= c < 2 ^ k)%Z ->
  js_or c (js_shl 1 k) = Z.lor c (2 ^ k).
Proof.
  intros Hk Hc. rewrite js_shl_one by assumption. unfold js_or.
  assert (2 ^ k <= 2 ^ 30)%Z by (apply Z.pow_le_mono_r; lia).
  assert (2 ^ (k + 1) <= 2 ^ 31)%Z by (apply Z.pow_le_mono_r; lia).
  pose proof (lor_pow2_bound c k (proj1 Hk) Hc).
  rewrite (to_int32_small c) by lia.
  rewrite (to_int32_small (2 ^ k)%Z) by lia.
  apply to_int32_small. lia.
Qed.

Lemma testbit_above (c k i : Z) :
  (0 <= c < 2 ^ k)%Z -> (k <= i)%Z -> Z.testbit c i = false.
Proof.
  intros Hc Hi.
  destruct (Z.eq_dec c 0) as [->|N]; [apply Z.testbit_0_l|].
  apply Z.bits_above_log2; [lia|].
  assert (0 <= k)%Z.
  { destruct (Z.leb_spec 0 k); [assumption|].
    rewrite Z.pow_neg_r in Hc by assumption. lia. }
  assert (Z.log2 c < k)%Z by (apply Z.log2_lt_pow2; lia). lia.
Qed.

Lemma js_gt_spec (c : option Q) (iso : Q) :
  js_gt c iso = true <-> exists v, c = Some v /\ iso < v.
Proof.
  unfold js_gt. destruct c as [v|].
  - rewrite negb_true_iff. split.
    + intros H. exists v. split; [reflexivity|].
      apply Qnot_le_lt. intros L. apply Qle_bool_iff in L. congruence.
    + intros [v' [E L]]. injection E as <-.
      destruct (Qle_bool v iso) eqn:B; [|reflexivity].
      apply Qle_bool_iff in B. exfalso. apply (Qlt_not_le _ _ L B).
  - split; [discriminate | intros [v [E _]]; discriminate].
Qed.

Section ConfigurationByte.

Variable CORNER_ARRAY : list Vector3.

(** The loop over the corners from entry [k] on, started with a [k]-bit
    value: it leaves the state alone, keeps the bits below [k] and sets
    bit [k + j] exactly when corner [k + j] compares above the isovalue. *)
Lemma cornerLoop_bits (x y z : Q) (t : VoxelGrid) (cs : list Vector3) :
  forall (k : nat) (c0 c : Z) (t' : VoxelGrid),
    (0 <= c0 < 2 ^ Z.of_nat k)%Z -> (k + length cs <= 31)%nat ->
    cornerLoop x y z (combine (seq k (length cs)) cs) c0 t = Normal c t' ->
    t' = t /\
    (0 <= c < 2 ^ Z.of_nat (k + length cs))%Z /\
    (forall i, (i < k)%nat -> Z.testbit c (Z.of_nat i) = Z.testbit c0 (Z.of_nat i)) /\
    (forall j corner, nth_error cs j = Some corner ->
       exists v, sample_corner x y z corner t = Normal v t /\
                 Z.testbit c (Z.of_nat (k + j)) = js_gt v (isovalue t)).
Proof.
  induction cs as [|corner cs IH]; intros k c0 c t' B L; simpl.
  - intros E. injection E as <- <-. rewrite Nat.add_0_r.
    repeat split; try lia.
    intros j corner H. destruct j; discriminate.
  - unfold bind at 1.
    pose proof (reads_sample_corner x y z corner t) as R.
    destruct (sample_corner x y z corner t) as [v s|e s] eqn:Es;
      simpl in R; subst s; [|discriminate].
    unfold bind at 1. simpl.
    set (c1 := if js_gt v (isovalue t)
               then js_or c0 (js_shl 1 (Z.of_nat k)) else c0).
    simpl in L.
    assert (B1 : (0 <= c1 < 2 ^ Z.of_nat (S k))%Z).
    { subst c1. rewrite Nat2Z.inj_succ. unfold Z.succ.
      destruct (js_gt v (isovalue t)).
      - rewrite js_or_shl by lia. apply lor_pow2_bound; lia.
      - rewrite Z.pow_add_r by lia. lia. }
    assert (T1 : forall i, (i <= k)%nat ->
              Z.testbit c1 (Z.of_nat i)
              = if (i =? k)%nat then js_gt v (isovalue t)
                else Z.testbit c0 (Z.of_nat i)).
    { intros i Hi. subst c1.
      destruct (js_gt v (isovalue t)).
      - rewrite js_or_shl by lia. rewrite Z.lor_spec.
        rewrite Z.pow2_bits_eqb by lia.
        destruct (Nat.eqb_spec i k) as [->|N].
        + rewrite Z.eqb_refl. apply orb_true_r.
        + replace (Z.of_nat k =? Z.of_nat i)%Z with false
            by (symmetry; apply Z.eqb_neq; lia).
          apply orb_false_r.
      - destruct (Nat.eqb_spec i k) as [->|N]; [|reflexivity].
        apply (testbit_above c0 (Z.of_nat k)); [assumption | lia]. }
    intros E.
    destruct (IH (S k) c1 c t' B1 ltac:(lia) E) as (-> & Bc & Low & High).
    split; [reflexivity|]. split.
    { replace (k + S (length cs))%nat with (S k + length cs)%nat by lia.
      exact Bc. }
    split.
    + intros i Hi. rewrite Low by lia. rewrite T1 by lia.
      destruct (Nat.eqb_spec i k); [lia | reflexivity].
    + intros j corner' H. destruct j as [|j]; simpl in H.
      * injection H as <-. exists v. split; [exact Es|].
        rewrite Nat.add_0_r, Low by lia. rewrite T1 by lia.
        rewrite Nat.eqb_refl. reflexivity.
      * destruct (High j corner' H) as [v' [Ev' Tv']].
        exists v'. split; [assumption|].
        replace (k + S j)%nat with (S k + j)%nat by lia. exact Tv'.
Qed.

End ConfigurationByte.

(** ** The scan over a well-shaped field *)

Section Scan.

Variable CORNER_ARRAY : list Vector3.
Variable EDGE_ARRAY : list (list Vector3).
Variable TRIANGLE_TABLE : list (list Z).

Let extract := marchCubes CORNER_ARRAY EDGE_ARRAY TRIANGLE_TABLE.
Let cube := marchCube CORNER_ARRAY EDGE_ARRAY TRIANGLE_TABLE.

(** [marchCubes] empties the buffer and runs the cube body on the visited
    cells, in their order. *)
Lemma marchCubes_visits (t : VoxelGrid) :
  extract t
  = forEach (visited t) (fun c => cube (fst (fst c)) (snd (fst c)) (snd c))
      (set_meshVertexes [] t).
Proof.
  unfold extract, marchCubes, visited.
  change (bind (modify (set_meshVertexes [])) ?k t)
    with (k tt (set_meshVertexes [] t)).
  cbv beta. unfold bind at 1. unfold get at 1.
  change (size (set_meshVertexes [] t)) with (size t).
  change (resolution (set_meshVertexes [] t)) with (resolution t).
  generalize (set_meshVertexes [] t). intros s.
  rewrite forEach_flat_map. apply forEach_ext. intros x s1.
  rewrite forEach_flat_map. apply forEach_ext. intros y s2.
  rewrite forEach_map. reflexivity.
Qed.

Lemma sample_corner_in_bounds (t : VoxelGrid) (nx ny nz x y z : nat)
    (corner : Vector3) :
  shape_ok t nx ny nz -> unit_corner corner ->
  (x + 1 < nx)%nat -> (y + 1 < ny)%nat -> (z + 1 < nz)%nat ->
  exists i j k v,
    array_index (num x + vec_x corner) = Some i /\
    array_index (num y + vec_y corner) = Some j /\
    array_index (num z + vec_z corner) = Some k /\
    (i < nx)%nat /\ (j < ny)%nat /\ (k < nz)%nat /\
    cell_at (grid t) i j k = Some v /\
    sample_corner (num x) (num y) (num z) corner t = Normal v t.
Proof.
  intros Sh (Ux & Uy & Uz) Hx Hy Hz.
  pose proof Sh as (_ & _ & _ & _ & _ & Bx & By & Bz).
  destruct (offset_index _ x nx Ux Hx Bx) as [i [Ei [Li _]]].
  destruct (offset_index _ y ny Uy Hy By) as [j [Ej [Lj _]]].
  destruct (offset_index _ z nz Uz Hz Bz) as [k [Ek [Lk _]]].
  destruct (shape_cell t nx ny nz i j k Sh Li Lj Lk) as (plane & row & c & Ep & Er & Ec).
  exists i, j, k, c. repeat (split; [assumption|]).
  split.
  - unfold cell_at. rewrite Ep, Er. exact Ec.
  - unfold sample_corner, bind, get, get_prop.
    rewrite Ei, Ep, Ej, Er, Ek, Ec. reflexivity.
Qed.

(** C3: on a field whose extents are the products [size.axis * resolution]
    (non-negative integers), the scan of [marchCubes] is the loop over
    [visited]; every visited cell [(x, y, z)] has [0 <= x < extentX - 1]
    (and so for y and z), and each of the corner reads of the cell uses
    keys that are array indices inside [[0, extent)] on the three axes:
    the read finds an element and does not throw. *)
Theorem scan_reads_in_bounds (t : VoxelGrid) (nx ny nz : nat) :
  shape_ok t nx ny nz ->
  Forall unit_corner CORNER_ARRAY ->
  extract t
  = forEach (visited t) (fun c => cube (fst (fst c)) (snd (fst c)) (snd c))
      (set_meshVertexes [] t) /\
  forall x y z, In (x, y, z) (visited t) ->
    ((0 <= Z.of_nat x < Z.of_nat nx - 1)%Z /\
     (0 <= Z.of_nat y < Z.of_nat ny - 1)%Z /\
     (0 <= Z.of_nat z < Z.of_nat nz - 1)%Z) /\
    forall corner, In corner CORNER_ARRAY ->
      exists i j k v,
        array_index (num x + vec_x corner) = Some i /\
        array_index (num y + vec_y corner) = Some j /\
        array_index (num z + vec_z corner) = Some k /\
        (i < nx)%nat /\ (j < ny)%nat /\ (k < nz)%nat /\
        cell_at (grid t) i j k = Some v /\
        sample_corner (num x) (num y) (num z) corner t = Normal v t.
Proof.
  intros Sh U. split; [apply marchCubes_visits|].
  intros x y z V. apply (visited_shape t nx ny nz x y z Sh) in V.
  destruct V as (Hx & Hy & Hz). split; [lia|].
  intros corner Hc. rewrite Forall_forall in U.
  apply sample_corner_in_bounds; auto.
Qed.

Lemma cornerLoop_total (t : VoxelGrid) (nx ny nz x y z : nat)
    (cs : list Vector3) :
  shape_ok t nx ny nz -> Forall unit_corner cs ->
  (x + 1 < nx)%nat -> (y + 1 < ny)%nat -> (z + 1 < nz)%nat ->
  forall k c0, exists c,
    cornerLoop (num x) (num y) (num z) (combine (seq k (length cs)) cs) c0 t
    = Normal c t.
Proof.
  intros Sh U Hx Hy Hz. induction U as [|corner cs Uc U IH]; intros k c0; simpl.
  - exists c0. reflexivity.
  - destruct (sample_corner_in_bounds t nx ny nz x y z corner Sh Uc Hx Hy Hz)
      as (i & j & l & v & _ & _ & _ & _ & _ & _ & _ & E).
    unfold bind at 1. rewrite E. unfold bind at 1. simpl. apply IH.
Qed.

(** On a visited cell of a well-shaped field the corner loop ends normally
    with a byte. *)
Lemma cube_config_range (t : VoxelGrid) (nx ny nz x y z : nat) :
  shape_ok t nx ny nz ->
  corners_ok CORNER_ARRAY ->
  In (x, y, z) (visited t) ->
  exists c,
    cornerLoop (num x) (num y) (num z) (entries CORNER_ARRAY) 0%Z t
    = Normal c t /\
    (0 <= c < 256)%Z.
Proof.
  intros Sh [L8 U] V. apply (visited_shape t nx ny nz x y z Sh) in V.
  destruct V as (Hx & Hy & Hz).
  destruct (cornerLoop_total t nx ny nz x y z CORNER_ARRAY Sh U Hx Hy Hz 0%nat 0%Z) as [c E].
  exists c. split; [exact E|].
  destruct (cornerLoop_bits (num x) (num y) (num z) t CORNER_ARRAY
              0 0%Z c t ltac:(simpl; lia) ltac:(rewrite L8; lia) E)
    as (_ & B & _).
  rewrite L8 in B. exact B.
Qed.

(** C5: for every cell visited on a well-shaped field, with the eight unit
    corner offsets, the configuration byte is computed, lies in
    [[0, 256)], and its bit [i] is set exactly when the value read at
    corner [i] is a number strictly above the isovalue; a value equal to
    the isovalue leaves the bit clear. *)
Theorem cube_config_bits (t : VoxelGrid) (nx ny nz x y z : nat) :
  shape_ok t nx ny nz ->
  corners_ok CORNER_ARRAY ->
  In (x, y, z) (visited t) ->
  exists c,
    cornerLoop (num x) (num y) (num z) (entries CORNER_ARRAY) 0%Z t
    = Normal c t /\
    (0 <= c < 256)%Z /\
    forall i corner, nth_error CORNER_ARRAY i = Some corner ->
      exists v,
        sample_corner (num x) (num y) (num z) corner t = Normal v t /\
        (Z.testbit c (Z.of_nat i) = true <->
         exists q, v = Some q /\ isovalue t < q) /\
        (forall q, v = Some q -> q == isovalue t ->
         Z.testbit c (Z.of_nat i) = false).
Proof.
  intros Sh [L8 U] V. apply (visited_shape t nx ny nz x y z Sh) in V.
  destruct V as (Hx & Hy & Hz).
  destruct (cornerLoop_total t nx ny nz x y z CORNER_ARRAY Sh U Hx Hy Hz 0%nat 0%Z) as [c E].
  exists c. split; [exact E|].
  destruct (cornerLoop_bits (num x) (num y) (num z) t CORNER_ARRAY
              0 0%Z c t ltac:(simpl; lia) ltac:(rewrite L8; lia) E)
    as (_ & B & _ & Bits).
  rewrite L8 in B. split; [exact B|].
  intros i corner H. destruct (Bits i corner H) as [v [Ev Tv]].
  exists v. split; [exact Ev|]. simpl in Tv. rewrite Tv. split.
  - apply js_gt_spec.
  - intros q -> Eq. destruct (js_gt (Some q) (isovalue t)) eqn:G; [|reflexivity].
    apply js_gt_spec in G. destruct G as [q' [Eq' Lt]].
    injection Eq' as <-. rewrite Eq in Lt. exfalso. apply (Qlt_irrefl _ Lt).
Qed.

End Scan.

(** ** The triangles of one cube *)

(** Induction three elements at a time, as the [while] loop advances. *)
Lemma triples_ind {A} (P : list A -> Prop) :
  P [] -> (forall a, P [a]) -> (forall a b, P [a; b]) ->
  (forall a b c l, P l -> P (a :: b :: c :: l)) ->
  forall l, P l.
Proof.
  intros H0 H1 H2 H3.
  assert (H : forall n l, (length l <= n)%nat -> P l).
  { induction n as [|n IH]; intros l Hl.
    - destruct l; [exact H0 | simpl in Hl; lia].
    - destruct l as [|a [|b [|c l]]]; auto.
      apply H3, IH. simpl in Hl. lia. }
  intros l. apply (H (length l)). lia.
Qed.

Lemma midpoint_vertex (r x y z : Q) (p0 p1 : Vector3) :
  vec_eq
    (Vector3_add (mkVector3 (x / r) (y / r) (z / r))
       (Vector3_multiplyScalar
          (Vector3_add
             (mkVector3 (vec_x p0 / r) (vec_y p0 / r) (vec_z p0 / r))
             (mkVector3 (vec_x p1 / r) (vec_y p1 / r) (vec_z p1 / r)))
          (1 # 2)))
    (cell_vertex r x y z p0 p1).
Proof.
  unfold vec_eq, cell_vertex, Vector3_add, Vector3_multiplyScalar; simpl.
  unfold Qdiv. repeat split; ring.
Qed.

Section Triangles.

Variable CORNER_ARRAY : list Vector3.
Variable EDGE_ARRAY : list (list Vector3).
Variable TRIANGLE_TABLE : list (list Z).

Lemma getEdgeMidpoint_normal (edge : option (list Vector3)) (r : Q)
    (t t' : VoxelGrid) (v : Vector3) :
  getEdgeMidpoint edge r t = Normal v t' ->
  t' = t /\
  exists p0 p1 more,
    edge = Some (p0 :: p1 :: more) /\
    v = Vector3_multiplyScalar
          (Vector3_add
             (mkVector3 (vec_x p0 / r) (vec_y p0 / r) (vec_z p0 / r))
             (mkVector3 (vec_x p1 / r) (vec_y p1 / r) (vec_z p1 / r)))
          (1 # 2).
Proof.
  destruct edge as [[|p0 [|p1 more]]|]; simpl; try discriminate.
  intros E. injection E as <- <-. split; [reflexivity|].
  exists p0, p1, more. split; reflexivity.
Qed.

Lemma emitTriangle_normal (x y z : Q) (k1 k2 k3 : option Z)
    (t t' : VoxelGrid) :
  emitTriangle EDGE_ARRAY x y z k1 k2 k3 t = Normal tt t' ->
  exists e1 e2 e3 v1 v2 v3,
    k1 = Some e1 /\ k2 = Some e2 /\ k3 = Some e3 /\
    vertex_of_edge EDGE_ARRAY (resolution t) x y z e1 v1 /\
    vertex_of_edge EDGE_ARRAY (resolution t) x y z e2 v2 /\
    vertex_of_edge EDGE_ARRAY (resolution t) x y z e3 v3 /\
    t' = set_meshVertexes (meshVertexes t ++ [v1; v2; v3]) t.
Proof.
  unfold emitTriangle. unfold bind at 1. unfold get at 1.
  unfold bind at 1.
  destruct (getEdgeMidpoint (lookup EDGE_ARRAY k1) (resolution t) t)
    as [m1 s1|] eqn:E1; [|discriminate].
  apply getEdgeMidpoint_normal in E1.
  destruct E1 as (-> & p0 & p1 & more & L1 & ->).
  unfold bind at 1.
  destruct (getEdgeMidpoint (lookup EDGE_ARRAY k2) (resolution t) t)
    as [m2 s2|] eqn:E2; [|discriminate].
  apply getEdgeMidpoint_normal in E2.
  destruct E2 as (-> & q0 & q1 & more2 & L2 & ->).
  unfold bind at 1.
  destruct (getEdgeMidpoint (lookup EDGE_ARRAY k3) (resolution t) t)
    as [m3 s3|] eqn:E3; [|discriminate].
  apply getEdgeMidpoint_normal in E3.
  destruct E3 as (-> & r0 & r1 & more3 & L3 & ->).
  unfold modify. intros E. injection E as <-.
  destruct k1 as [e1|]; [|discriminate].
  destruct k2 as [e2|]; [|discriminate].
  destruct k3 as [e3|]; [|discriminate].
  do 6 eexists. repeat (split; [reflexivity|]).
  split; [|split; [|split; [|reflexivity]]].
  - exists p0, p1, more. split; [exact L1 | apply midpoint_vertex].
  - exists q0, q1, more2. split; [exact L2 | apply midpoint_vertex].
  - exists r0, r1, more3. split; [exact L3 | apply midpoint_vertex].
Qed.

Lemma emitTriangle_total (x y z : Q) (e1 e2 e3 : Z) (t : VoxelGrid) :
  edge_ok EDGE_ARRAY e1 = true -> edge_ok EDGE_ARRAY e2 = true ->
  edge_ok EDGE_ARRAY e3 = true ->
  exists t', emitTriangle EDGE_ARRAY x y z (Some e1) (Some e2) (Some e3) t
             = Normal tt t'.
Proof.
  unfold edge_ok, emitTriangle. intros H1 H2 H3.
  destruct (lookup EDGE_ARRAY (Some e1)) as [[|p0 [|p1 m1]]|]; try discriminate.
  destruct (lookup EDGE_ARRAY (Some e2)) as [[|q0 [|q1 m2]]|]; try discriminate.
  destruct (lookup EDGE_ARRAY (Some e3)) as [[|r0 [|r1 m3]]|]; try discriminate.
  eexists. reflexivity.
Qed.

(** When the inner loop ends normally, it has pushed one vertex per edge
    index it read, in order, each the midpoint vertex of its edge. *)
Lemma triangleLoop_normal (x y z : Q) (triangles : list Z) :
  forall t t',
    triangleLoop EDGE_ARRAY x y z triangles t = Normal tt t' ->
    exists vs,
      t' = set_meshVertexes (meshVertexes t ++ vs) t /\
      Forall2 (vertex_of_edge EDGE_ARRAY (resolution t) x y z)
              (referenced triangles) vs.
Proof.
  induction triangles as [|e1|e1 e2|e1 e2 e3 rest IH] using triples_ind;
    intros t t'; simpl.
  - intros E. injection E as <-. exists []. split; [|constructor].
    rewrite app_nil_r, set_meshVertexes_same. reflexivity.
  - destruct (e1 =? -1)%Z.
    + intros E. injection E as <-. exists []. split; [|constructor].
      rewrite app_nil_r, set_meshVertexes_same. reflexivity.
    + intros E. apply emitTriangle_normal in E.
      destruct E as (? & ? & ? & ? & ? & ? & _ & D & _). discriminate.
  - destruct (e1 =? -1)%Z.
    + intros E. injection E as <-. exists []. split; [|constructor].
      rewrite app_nil_r, set_meshVertexes_same. reflexivity.
    + intros E. apply emitTriangle_normal in E.
      destruct E as (? & ? & ? & ? & ? & ? & _ & _ & D & _). discriminate.
  - destruct (e1 =? -1)%Z.
    + intros E. injection E as <-. exists []. split; [|constructor].
      rewrite app_nil_r, set_meshVertexes_same. reflexivity.
    + unfold bind at 1.
      destruct (emitTriangle EDGE_ARRAY x y z (Some e1) (Some e2) (Some e3) t)
        as [[] s|] eqn:E1; [|discriminate].
      apply emitTriangle_normal in E1.
      destruct E1 as (a1 & a2 & a3 & v1 & v2 & v3 & A1 & A2 & A3
                      & V1 & V2 & V3 & ->).
      injection A1 as <-. injection A2 as <-. injection A3 as <-.
      intros E. apply IH in E. destruct E as [vs [-> F]].
      exists ([v1; v2; v3] ++ vs). split.
      * destruct t; unfold set_meshVertexes; simpl.
        rewrite <- app_assoc. reflexivity.
      * simpl. repeat (constructor; [assumption|]). exact F.
Qed.

Lemma triangleLoop_total (x y z : Q) (triangles : list Z) :
  entry_ok EDGE_ARRAY triangles = true ->
  forall t, exists t', triangleLoop EDGE_ARRAY x y z triangles t = Normal tt t'.
Proof.
  induction triangles as [|e1|e1 e2|e1 e2 e3 rest IH] using triples_ind;
    simpl; intros H t.
  - eexists; reflexivity.
  - destruct (e1 =? -1)%Z; [eexists; reflexivity | discriminate].
  - destruct (e1 =? -1)%Z; [eexists; reflexivity | discriminate].
  - destruct (e1 =? -1)%Z; [eexists; reflexivity|].
    apply andb_prop in H. destruct H as [H H4].
    apply andb_prop in H. destruct H as [H H3].
    apply andb_prop in H. destruct H as [H1 H2].
    destruct (emitTriangle_total x y z e1 e2 e3 t H1 H2 H3) as [s E].
    unfold bind. rewrite E. apply IH. exact H4.
Qed.

End Triangles.

(** ** Extraction as a whole *)

Section Extraction.

Variable CORNER_ARRAY : list Vector3.
Variable EDGE_ARRAY : list (list Vector3).
Variable TRIANGLE_TABLE : list (list Z).

Let extract := marchCubes CORNER_ARRAY EDGE_ARRAY TRIANGLE_TABLE.
Let cube := marchCube CORNER_ARRAY EDGE_ARRAY TRIANGLE_TABLE.

(** C6: when the body of the scan ends normally on the cell [(x, y, z)],
    it has pushed, for the edge indices read from the table entry of the
    cell's configuration byte and in their order, one vertex each: the
    midpoint (factor one half) of the two end points of the edge divided
    by the resolution, plus [(x, y, z)] divided by the resolution.  The
    values of the field enter through the configuration byte only. *)
Theorem marchCube_vertices (x y z : nat) (t t' : VoxelGrid) :
  cube x y z t = Normal tt t' ->
  exists c triangles vs,
    cornerLoop (num x) (num y) (num z) (entries CORNER_ARRAY) 0%Z t
    = Normal c t /\
    lookup TRIANGLE_TABLE (Some c) = Some triangles /\
    t' = set_meshVertexes (meshVertexes t ++ vs) t /\
    Forall2
      (vertex_of_edge EDGE_ARRAY (resolution t) (num x) (num y) (num z))
      (referenced triangles) vs.
Proof.
  unfold cube, marchCube. unfold bind at 1.
  pose proof (reads_cornerLoop (num x) (num y) (num z)
                (entries CORNER_ARRAY) 0%Z t) as R.
  destruct (cornerLoop (num x) (num y) (num z) (entries CORNER_ARRAY) 0%Z t)
    as [c s|] eqn:Ec; [|discriminate].
  simpl in R. subst s.
  destruct (lookup TRIANGLE_TABLE (Some c)) as [triangles|] eqn:El;
    [|discriminate].
  intros E. apply triangleLoop_normal in E. destruct E as [vs [-> F]].
  exists c, triangles, vs. auto.
Qed.

Lemma marchCube_total (t : VoxelGrid) (nx ny nz x y z : nat) :
  shape_ok t nx ny nz ->
  tables_ok CORNER_ARRAY EDGE_ARRAY TRIANGLE_TABLE ->
  In (x, y, z) (visited t) ->
  exists t', cube x y z t = Normal tt t'.
Proof.
  intros Sh (Co & L & F) V.
  destruct (cube_config_range CORNER_ARRAY t nx ny nz x y z Sh Co V)
    as (c & Ec & Bc).
  unfold cube, marchCube, bind. rewrite Ec.
  unfold lookup.
  replace (0 <=? c)%Z with true by (symmetry; apply Z.leb_le; lia).
  destruct (nth_error TRIANGLE_TABLE (Z.to_nat c)) as [triangles|] eqn:En.
  - apply triangleLoop_total.
    rewrite forallb_forall in F. apply F.
    apply nth_error_In with (Z.to_nat c). exact En.
  - apply nth_error_None in En. lia.
Qed.

(** C4: on every field with the shape invariant, whatever its values and
    the isovalue, and with tables as the spec describes them, extraction
    ends normally and the number of vertices it leaves is a multiple
    of 3. *)
Theorem marchCubes_vertex_count (t : VoxelGrid) (nx ny nz : nat) :
  shape_ok t nx ny nz ->
  tables_ok CORNER_ARRAY EDGE_ARRAY TRIANGLE_TABLE ->
  exists t',
    extract t = Normal tt t' /\
    (length (meshVertexes t') mod 3 = 0)%nat.
Proof.
  intros Sh Tb. unfold extract. rewrite marchCubes_visits.
  destruct (forEach_normal (extends (set_meshVertexes [] t)) (visited t)
              (fun c => cube (fst (fst c)) (snd (fst c)) (snd c)))
    with (s := set_meshVertexes [] t) as [t' [E I]].
  - intros [[x y] z] s V [vs [-> Hm]]. simpl.
    destruct (marchCube_total
                (set_meshVertexes (meshVertexes (set_meshVertexes [] t) ++ vs)
                   (set_meshVertexes [] t)) nx ny nz x y z Sh Tb V)
      as [s' Es].
    exists s'. split; [exact Es|].
    eapply extends_trans; [|].
    + exists vs. split; [reflexivity | exact Hm].
    + pose proof (pushes_marchCube CORNER_ARRAY EDGE_ARRAY TRIANGLE_TABLE
                    x y z
                    (set_meshVertexes
                       (meshVertexes (set_meshVertexes [] t) ++ vs)
                       (set_meshVertexes [] t))) as P.
      fold cube in P. rewrite Es in P. exact P.
  - apply extends_refl.
  - exists t'. split; [exact E|].
    destruct I as [vs [-> H]]. exact H.
Qed.

End Extraction.

(** ** Extraction as a function of the field *)

Lemma uniform_ret {A} (a : A) : uniform (ret a).
Proof. intros t1 t2 H. simpl. auto. Qed.

Lemma uniform_throw {A} (e : error) : uniform (@throw VoxelGrid A e).
Proof. intros t1 t2 H. simpl. auto. Qed.

Lemma uniform_bind {A B} (m : M VoxelGrid A) (k : A -> M VoxelGrid B) :
  uniform m -> (forall a, uniform (k a)) -> uniform (bind m k).
Proof.
  intros Hm Hk t1 t2 H. unfold bind. specialize (Hm t1 t2 H).
  destruct (m t1) as [a1 s1|e1 s1]; destruct (m t2) as [a2 s2|e2 s2];
    simpl in Hm; try contradiction.
  - destruct Hm as [<- Hs]. apply Hk. exact Hs.
  - exact Hm.
Qed.

(** [t <- get ;; k t], where [k] reads the field of [t] only. *)
Lemma uniform_bind_get {B} (k : VoxelGrid -> M VoxelGrid B) :
  (forall t1 t2, same_field t1 t2 ->
     forall s1 s2, agree s1 s2 -> agree_out (k t1 s1) (k t2 s2)) ->
  uniform (bind get k).
Proof. intros H t1 t2 Ht. unfold bind, get. apply H; [apply Ht | exact Ht]. Qed.

Lemma uniform_forEach {A} (l : list A) (body : A -> M VoxelGrid unit) :
  (forall a, uniform (body a)) -> uniform (forEach l body).
Proof.
  intros H. induction l as [|a l IH]; simpl.
  - apply uniform_ret.
  - apply uniform_bind; [apply H | intros _; exact IH].
Qed.

Section Determinism.

Variable CORNER_ARRAY : list Vector3.
Variable EDGE_ARRAY : list (list Vector3).
Variable TRIANGLE_TABLE : list (list Z).

Let extract := marchCubes CORNER_ARRAY EDGE_ARRAY TRIANGLE_TABLE.

Lemma uniform_sample_corner (x y z : Q) (corner : Vector3) :
  uniform (sample_corner x y z corner).
Proof.
  unfold sample_corner. apply uniform_bind_get.
  intros t1 t2 (_ & _ & _ & <-) s1 s2 Hs.
  destruct (get_prop (grid t1) (x + vec_x corner)) as [plane|];
    [|apply uniform_throw; exact Hs].
  destruct (get_prop plane (y + vec_y corner)) as [row|];
    [apply uniform_ret | apply uniform_throw]; exact Hs.
Qed.

Lemma uniform_cornerLoop (x y z : Q) (es : list (nat * Vector3)) :
  forall c, uniform (cornerLoop x y z es c).
Proof.
  induction es as [|[i corner] es IH]; intros c; simpl.
  - apply uniform_ret.
  - apply uniform_bind; [apply uniform_sample_corner|]. intros v.
    apply uniform_bind_get. intros t1 t2 (_ & _ & <- & _) s1 s2 Hs.
    apply IH. exact Hs.
Qed.

Lemma uniform_getEdgeMidpoint (e : option (list Vector3)) (r : Q) :
  uniform (getEdgeMidpoint e r).
Proof.
  destruct e as [[|p0 [|p1 more]]|]; simpl;
    intros t1 t2 H; simpl; auto.
Qed.

Lemma uniform_emitTriangle (x y z : Q) (k1 k2 k3 : option Z) :
  uniform (emitTriangle EDGE_ARRAY x y z k1 k2 k3).
Proof.
  unfold emitTriangle. apply uniform_bind_get.
  intros t1 t2 (<- & _) s1 s2 Hs. revert s1 s2 Hs.
  change (uniform
    (bind (getEdgeMidpoint (lookup EDGE_ARRAY k1) (resolution t1)) (fun v1 =>
     bind (getEdgeMidpoint (lookup EDGE_ARRAY k2) (resolution t1)) (fun v2 =>
     bind (getEdgeMidpoint (lookup EDGE_ARRAY k3) (resolution t1)) (fun v3 =>
       modify (fun t => set_meshVertexes
         (meshVertexes t ++
          [Vector3_add (mkVector3 (x / resolution t1) (y / resolution t1)
                          (z / resolution t1)) v1;
           Vector3_add (mkVector3 (x / resolution t1) (y / resolution t1)
                          (z / resolution t1)) v2;
           Vector3_add (mkVector3 (x / resolution t1) (y / resolution t1)
                          (z / resolution t1)) v3]) t)))))).
  apply uniform_bind; [apply uniform_getEdgeMidpoint|]. intros v1.
  apply uniform_bind; [apply uniform_getEdgeMidpoint|]. intros v2.
  apply uniform_bind; [apply uniform_getEdgeMidpoint|]. intros v3.
  intros s1 s2 [F E]. simpl. split; [reflexivity|]. split.
  - exact F.
  - simpl. rewrite E. reflexivity.
Qed.

Lemma uniform_triangleLoop (x y z : Q) (triangles : list Z) :
  uniform (triangleLoop EDGE_ARRAY x y z triangles).
Proof.
  induction triangles as [|e1|e1 e2|e1 e2 e3 rest IH] using triples_ind; simpl.
  - apply uniform_ret.
  - destruct (e1 =? -1)%Z; [apply uniform_ret | apply uniform_emitTriangle].
  - destruct (e1 =? -1)%Z; [apply uniform_ret | apply uniform_emitTriangle].
  - destruct (e1 =? -1)%Z; [apply uniform_ret|].
    apply uniform_bind; [apply uniform_emitTriangle | intros _; exact IH].
Qed.

Lemma uniform_marchCube (x y z : nat) :
  uniform (marchCube CORNER_ARRAY EDGE_ARRAY TRIANGLE_TABLE x y z).
Proof.
  unfold marchCube.
  apply uniform_bind; [apply uniform_cornerLoop|]. intros c.
  destruct (lookup TRIANGLE_TABLE (Some c));
    [apply uniform_triangleLoop | apply uniform_throw].
Qed.

(** Two objects with the same field have the same extraction, whatever
    their buffers, meshes and positions. *)
Lemma marchCubes_same_field (t1 t2 : VoxelGrid) :
  same_field t1 t2 -> agree_out (extract t1) (extract t2).
Proof.
  intros F. unfold extract, marchCubes.
  change (bind (modify (set_meshVertexes [])) ?k t1)
    with (k tt (set_meshVertexes [] t1)).
  change (bind (modify (set_meshVertexes [])) ?k t2)
    with (k tt (set_meshVertexes [] t2)).
  cbv beta.
  assert (A : agree (set_meshVertexes [] t1) (set_meshVertexes [] t2)).
  { split; [exact F | reflexivity]. }
  revert A. generalize (set_meshVertexes [] t1) (set_meshVertexes [] t2).
  apply uniform_bind_get. intros s1 s2 (<- & <- & _) u1 u2 Hu.
  revert u1 u2 Hu.
  apply uniform_forEach. intros x. apply uniform_forEach. intros y.
  apply uniform_forEach. intros z. apply uniform_marchCube.
Qed.

(** C7: extraction run twice on an unmodified field gives the same outcome,
    hence the same vertex sequence in the same order; and the outcome is a
    function of the field (resolution, size, isovalue, grid) as it is at the
    call: the vertex buffer accumulated before, the mesh and the position
    do not enter it. *)
Theorem marchCubes_idempotent (t : VoxelGrid) (old : list Vector3)
    (m : option Mesh) (p : Vector3) :
  extract (final (extract t)) = extract t /\
  extract (set_meshVertexes old t) = extract t /\
  let t2 := mkVoxelGrid (resolution t) (size t) (isovalue t) p (grid t) old m in
  agree_out (extract t2) (extract t) /\
  meshVertexes (final (extract t2)) = meshVertexes (final (extract t)).
Proof.
  split; [|split].
  - destruct (marchCubes_final CORNER_ARRAY EDGE_ARRAY TRIANGLE_TABLE t)
      as [vs [E _]].
    fold extract in E. rewrite E. reflexivity.
  - reflexivity.
  - intros t2.
    assert (A : agree_out (extract t2) (extract t)).
    { apply marchCubes_same_field. subst t2. repeat split. }
    split; [exact A|].
    destruct (extract t2) as [a2 s2|e2 s2]; destruct (extract t) as [a1 s1|e1 s1];
      simpl in A; try contradiction; apply A.
Qed.

End Determinism.


(** ** Allocation *)

Lemma collect_const {St A} (f : M St A) (a : A) :
  (forall s, f s = Normal a s) ->
  forall n s, collect n f s = Normal (repeat a n) s.
Proof.
  intros H. induction n as [|n IH]; intros s; simpl.
  - reflexivity.
  - unfold bind. rewrite H, IH. reflexivity.
Qed.

Lemma collect_throw {St A} (f : M St A) (e : error) :
  (forall s, f s = Abrupt e s) ->
  forall n s, collect (S n) f s = Abrupt e s.
Proof. intros H n s. simpl. unfold bind. rewrite H. reflexivity. Qed.

Lemma fill_holes (n : nat) (v : Q) : fill (repeat None n) v = repeat (Some v) n.
Proof. unfold fill. apply map_repeat. Qed.

Lemma new_row_outcome (lz : Q) :
  (is_integer lz && (0 <=? Qfloor lz)%Z && (Qfloor lz <=? MAX_ARRAY_LENGTH)%Z = true /\
   forall s, new_row lz s = Normal (repeat (Some (-1)) (Z.to_nat (Qfloor lz))) s) \/
  (is_integer lz && (0 <=? Qfloor lz)%Z && (Qfloor lz <=? MAX_ARRAY_LENGTH)%Z = false /\
   forall s, new_row lz s = Abrupt RangeError s).
Proof.
  unfold new_row, Array_, bind.
  destruct (is_integer lz && (0 <=? Qfloor lz)%Z
            && (Qfloor lz <=? MAX_ARRAY_LENGTH)%Z).
  - left. split; [reflexivity|]. intros s. simpl. rewrite fill_holes. reflexivity.
  - right. split; [reflexivity|]. intros s. reflexivity.
Qed.

(** The nested [Array.from] of [initializeGrid] computes [allocate] and
    leaves the object alone. *)
Lemma allocation_outcome (lx ly lz : Q) (s : VoxelGrid) :
  Array_from lx (Array_from ly (new_row lz)) s
  = match allocate lx ly lz with
    | Some g => Normal g s
    | None => Abrupt RangeError s
    end.
Proof.
  unfold allocate, Array_from at 1.
  destruct (to_length lx <=? MAX_ARRAY_LENGTH)%Z; [|reflexivity].
  destruct (Z.to_nat (to_length lx)) as [|nx]; [reflexivity|].
  unfold Array_from.
  destruct (to_length ly <=? MAX_ARRAY_LENGTH)%Z;
    [|apply collect_throw; reflexivity].
  destruct (Z.to_nat (to_length ly)) as [|ny].
  - apply collect_const. reflexivity.
  - destruct (new_row_outcome lz) as [[-> H]|[-> H]].
    + apply collect_const. intros s'. apply collect_const. exact H.
    + apply collect_throw. intros s'. apply collect_throw. exact H.
Qed.

(** ** One write *)

Lemma length_update {A} (l : list A) (n : nat) (a : A) :
  length (update l n a) = length l.
Proof.
  revert n. induction l as [|b l IH]; intros [|n]; simpl; auto.
Qed.

Lemma nth_error_update {A} (l : list A) (n m : nat) (a : A) :
  nth_error (update l n a) m
  = if (m =? n)%nat then (if (n <? length l)%nat then Some a else None)
    else nth_error l m.
Proof.
  revert n m. induction l as [|b l IH]; intros n m; simpl.
  - destruct (m =? n)%nat; destruct m; reflexivity.
  - destruct n as [|n]; destruct m as [|m]; simpl; try reflexivity.
    rewrite IH. reflexivity.
Qed.

Lemma Forall_update {A} (P : A -> Prop) (l : list A) (n : nat) (a : A) :
  Forall P l -> P a -> Forall P (update l n a).
Proof.
  intros F Pa. revert n. induction F as [|b l Pb F IH]; intros [|n]; simpl;
    constructor; auto.
Qed.

Lemma update_same {A} (l : list A) (n : nat) (a : A) :
  nth_error l n = Some a -> update l n a = l.
Proof.
  revert n. induction l as [|b l IH]; intros [|n]; simpl; intros H;
    try discriminate.
  - injection H as ->. reflexivity.
  - rewrite IH by assumption. reflexivity.
Qed.

Lemma get_prop_Some {A} (arr : list A) (k : Q) (a : A) :
  get_prop arr k = Some a ->
  exists n, array_index k = Some n /\ nth_error arr n = Some a /\
            (n < length arr)%nat.
Proof.
  unfold get_prop. destruct (array_index k) as [n|]; [|discriminate].
  intros H. exists n. repeat split; [assumption|].
  apply nth_error_Some. congruence.
Qed.

Lemma grid_write_normal (a b c v : Q) (t t' : VoxelGrid) :
  grid_write a b c v t = Normal tt t' ->
  exists ia ib plane row,
    array_index a = Some ia /\ array_index b = Some ib /\
    nth_error (grid t) ia = Some plane /\ nth_error plane ib = Some row /\
    t' = set_grid (update (grid t) ia (update plane ib (set_prop row c v))) t.
Proof.
  unfold grid_write, bind, get.
  destruct (get_prop (grid t) a) as [plane|] eqn:Ep; [|discriminate].
  destruct (get_prop_Some _ _ _ Ep) as (ia & Ea & Na & _). rewrite Ea.
  destruct (get_prop plane b) as [row|] eqn:Er; [|discriminate].
  destruct (get_prop_Some _ _ _ Er) as (ib & Eb & Nb & _). rewrite Eb.
  unfold modify. intros E. injection E as <-.
  exists ia, ib, plane, row. auto.
Qed.

(** On a grid of [nx] planes of [ny] rows a write goes through exactly when
    its first two keys name a row. *)
Lemma grid_write_box (a b c v : Q) (t : VoxelGrid) (nx ny : nat) :
  box (grid t) nx ny ->
  if names_row nx ny (a, b, c)
  then exists t', grid_write a b c v t = Normal tt t' /\ box (grid t') nx ny
  else grid_write a b c v t = Abrupt TypeError t.
Proof.
  intros [Lx Ly]. unfold names_row, grid_write, bind, get, get_prop. simpl.
  destruct (array_index a) as [ia|]; [|reflexivity].
  destruct (array_index b) as [ib|].
  - destruct (Nat.ltb_spec ia nx) as [Ha|Ha]; simpl.
    + destruct (nth_error (grid t) ia) as [plane|] eqn:Ep;
        [|apply nth_error_None in Ep; lia].
      assert (Lp : length plane = ny).
      { rewrite Forall_forall in Ly. apply Ly. eapply nth_error_In; eauto. }
      destruct (Nat.ltb_spec ib ny) as [Hb|Hb].
      * destruct (nth_error plane ib) as [row|] eqn:Er;
          [|apply nth_error_None in Er; lia].
        eexists. split; [reflexivity|]. simpl. split.
        -- rewrite length_update. exact Lx.
        -- apply Forall_update; [exact Ly|]. rewrite length_update. exact Lp.
      * destruct (nth_error plane ib) as [row|] eqn:Er; [|reflexivity].
        assert (ib < length plane)%nat by (apply nth_error_Some; congruence).
        lia.
    + destruct (nth_error (grid t) ia) as [plane|] eqn:Ep; [|reflexivity].
      assert (ia < length (grid t))%nat by (apply nth_error_Some; congruence).
      lia.
  - destruct (nth_error (grid t) ia) as [plane|]; reflexivity.
Qed.

(** ** The eight writes *)

(** [initializeGrid] is the allocation, the assignment of [this.grid] and
    the eight writes. *)
Lemma initializeGrid_steps (t : VoxelGrid) :
  initializeGrid t
  = match allocate (vec_x (size t) * resolution t)
                   (vec_y (size t) * resolution t)
                   (vec_z (size t) * resolution t) with
    | Some g => write_seeds (seed_keys t) (set_grid g t)
    | None => Abrupt RangeError t
    end.
Proof.
  unfold initializeGrid. unfold bind at 1. unfold get at 1. cbv zeta.
  unfold bind at 1.
  fold (new_row (vec_z (size t) * resolution t)).
  rewrite allocation_outcome.
  destruct (allocate _ _ _) as [g|]; [|reflexivity].
  unfold bind at 1. unfold modify at 1.
  unfold write_seeds, seed_keys. simpl forEach.
  generalize (set_grid g t). intros s.
  unfold bind. 
  repeat match goal with
         | |- context [grid_write ?a ?b ?c ?v ?s] =>
             destruct (grid_write a b c v s) as [[] ?|? ?]; [|reflexivity]
         end.
  reflexivity.
Qed.

Lemma set_grid_same (t : VoxelGrid) : set_grid (grid t) t = t.
Proof. destruct t; reflexivity. Qed.

(** On a grid of [nx] planes of [ny] rows the writes go through when every
    key names a row, and otherwise stop with a [TypeError]. *)
Lemma write_seeds_box (nx ny : nat) (keys : list (Q * Q * Q)) :
  forall s, box (grid s) nx ny ->
    if forallb (names_row nx ny) keys
    then exists s', write_seeds keys s = Normal tt s' /\ box (grid s') nx ny
    else exists s', write_seeds keys s = Abrupt TypeError s'.
Proof.
  unfold write_seeds.
  induction keys as [|[[a b] c] keys IH]; intros s B; simpl.
  - exists s. split; [reflexivity | exact B].
  - pose proof (grid_write_box a b c 1 s nx ny B) as W.
    destruct (names_row nx ny (a, b, c)); simpl.
    + destruct W as [s1 [E1 B1]]. unfold bind. rewrite E1.
      apply IH. exact B1.
    + unfold bind. rewrite W. exists s. reflexivity.
Qed.

Lemma cell_at_update (g : Grid) (ia ib ic : nat) (plane : list (list (option Q)))
    (row : list (option Q)) (v : option Q) (i j k : nat) :
  nth_error g ia = Some plane -> nth_error plane ib = Some row ->
  (ic < length row)%nat ->
  cell_at (update g ia (update plane ib (update row ic v))) i j k
  = if (i =? ia)%nat && (j =? ib)%nat && (k =? ic)%nat then Some v
    else cell_at g i j k.
Proof.
  intros Ep Er Lc. unfold cell_at. rewrite nth_error_update.
  assert (La : (ia < length g)%nat) by (apply nth_error_Some; congruence).
  assert (Lb : (ib < length plane)%nat) by (apply nth_error_Some; congruence).
  destruct (Nat.eqb_spec i ia) as [->|Ni]; simpl; [|reflexivity].
  replace (ia <? length g)%nat with true by (symmetry; apply Nat.ltb_lt; lia).
  rewrite nth_error_update, Ep.
  destruct (Nat.eqb_spec j ib) as [->|Nj]; simpl; [|reflexivity].
  replace (ib <? length plane)%nat with true
    by (symmetry; apply Nat.ltb_lt; lia).
  rewrite nth_error_update, Er.
  destruct (Nat.eqb_spec k ic) as [->|Nk]; [|reflexivity].
  replace (ic <? length row)%nat with true by (symmetry; apply Nat.ltb_lt; lia).
  reflexivity.
Qed.

(** A write whose three keys name a cell of the grid replaces that cell and
    no other, and keeps all lengths. *)
Lemma grid_write_cell (a b c v : Q) (t : VoxelGrid) (nx ny nz ia ib ic : nat) :
  box (grid t) nx ny -> rows_len (grid t) nz ->
  names_cell (a, b, c) (ia, ib, ic) ->
  (ia < nx)%nat -> (ib < ny)%nat -> (ic < nz)%nat ->
  exists t',
    grid_write a b c v t = Normal tt t' /\
    box (grid t') nx ny /\ rows_len (grid t') nz /\
    forall i j k,
      cell_at (grid t') i j k
      = if (i =? ia)%nat && (j =? ib)%nat && (k =? ic)%nat then Some (Some v)
        else cell_at (grid t) i j k.
Proof.
  intros [Lx Ly] Lz (Ea & Eb & Ec) Ha Hb Hc. simpl in Ea, Eb, Ec.
  unfold grid_write, bind, get, get_prop. rewrite Ea.
  destruct (nth_error (grid t) ia) as [plane|] eqn:Ep;
    [|apply nth_error_None in Ep; lia].
  assert (Lp : length plane = ny).
  { rewrite Forall_forall in Ly. apply Ly. eapply nth_error_In; eauto. }
  assert (Rp : Forall (fun row : list (option Q) => length row = nz) plane).
  { unfold rows_len in Lz. rewrite Forall_forall in Lz. apply Lz.
    eapply nth_error_In; eauto. }
  rewrite Eb.
  destruct (nth_error plane ib) as [row|] eqn:Er;
    [|apply nth_error_None in Er; lia].
  assert (Lr : length row = nz).
  { rewrite Forall_forall in Rp. apply Rp. eapply nth_error_In; eauto. }
  assert (Es : set_prop row c v = update row ic (Some v)).
  { unfold set_prop. rewrite Ec.
    replace (ic <? length row)%nat with true
      by (symmetry; apply Nat.ltb_lt; lia).
    reflexivity. }
  rewrite Es. eexists. split; [reflexivity|]. simpl. split; [|split].
  - split; [rewrite length_update; exact Lx|].
    apply Forall_update; [exact Ly | rewrite length_update; exact Lp].
  - apply Forall_update; [exact Lz|].
    apply Forall_update; [exact Rp | rewrite length_update; exact Lr].
  - intros i j k. apply cell_at_update; [assumption | assumption | lia].
Qed.

(** A write whose third key is no array index leaves every element. *)
Lemma grid_write_named (a b c v : Q) (t : VoxelGrid) (nx ny : nat) :
  box (grid t) nx ny -> names_row nx ny (a, b, c) = true ->
  array_index c = None ->
  grid_write a b c v t = Normal tt t.
Proof.
  intros [Lx Ly] N Ec. unfold names_row in N. simpl in N.
  unfold grid_write, bind, get, get_prop.
  destruct (array_index a) as [ia|]; [|discriminate].
  destruct (array_index b) as [ib|]; [|discriminate].
  apply andb_prop in N. destruct N as [Ha Hb].
  apply Nat.ltb_lt in Ha. apply Nat.ltb_lt in Hb.
  destruct (nth_error (grid t) ia) as [plane|] eqn:Ep;
    [|apply nth_error_None in Ep; lia].
  assert (Lp : length plane = ny).
  { rewrite Forall_forall in Ly. apply Ly. eapply nth_error_In; eauto. }
  destruct (nth_error plane ib) as [row|] eqn:Er;
    [|apply nth_error_None in Er; lia].
  unfold set_prop. rewrite Ec.
  rewrite (update_same plane ib row Er), (update_same (grid t) ia plane Ep).
  unfold modify. rewrite set_grid_same. reflexivity.
Qed.

(** ** Lengths and keys, arithmetic *)

Lemma num_inj (n m : nat) : num n == num m -> n = m.
Proof.
  unfold num, Qeq. simpl. lia.
Qed.

Lemma Qle_bool_Qeq (p q q' : Q) : q == q' -> Qle_bool p q = Qle_bool p q'.
Proof.
  intros E. destruct (Qle_bool p q') eqn:H.
  - apply Qle_bool_iff. apply Qle_bool_iff in H. rewrite E. exact H.
  - destruct (Qle_bool p q) eqn:H'; [|reflexivity].
    apply Qle_bool_iff in H'. rewrite E in H'. apply Qle_bool_iff in H'.
    congruence.
Qed.

Lemma to_length_Qeq (q q' : Q) : q == q' -> to_length q = to_length q'.
Proof.
  intros E. unfold to_length, Qtrunc.
  rewrite (Qle_bool_Qeq 0 q q' E), (Qfloor_comp _ _ E), (Qceiling_comp _ _ E).
  reflexivity.
Qed.

Lemma to_length_num (n : nat) :
  (Z.of_nat n <= 9007199254740991)%Z -> to_length (num n) = Z.of_nat n.
Proof.
  intros B. unfold to_length, Qtrunc, num.
  replace (Qle_bool 0 (inject_Z (Z.of_nat n))) with true.
  - rewrite Qfloor_Z. rewrite Z.max_r by lia. apply Z.min_l. exact B.
  - symmetry. apply Qle_bool_iff. change 0 with (inject_Z 0).
    rewrite <- Zle_Qle. lia.
Qed.

Lemma to_length_nonpos (q : Q) : q <= 0 -> to_length q = 0%Z.
Proof.
  intros H. unfold to_length, Qtrunc.
  destruct (Qle_bool 0 q) eqn:P.
  - apply Qle_bool_iff in P.
    assert (E : q == 0) by (apply Qle_antisym; assumption).
    rewrite (Qfloor_comp _ _ E). reflexivity.
  - pose proof (Qceiling_resp_le _ _ H) as C.
    change (Qceiling 0) with 0%Z in C. lia.
Qed.

Lemma array_index_of_num (q : Q) (n : nat) :
  q == num n ->
  array_index q = if (Z.of_nat n <? MAX_ARRAY_LENGTH)%Z then Some n else None.
Proof.
  intros E. rewrite (array_index_Qeq _ _ E).
  destruct (Z.ltb_spec (Z.of_nat n) MAX_ARRAY_LENGTH) as [L|L].
  - apply array_index_num. exact L.
  - destruct (array_index (num n)) as [m|] eqn:A; [|reflexivity].
    apply array_index_Some in A. destruct A as [A B].
    apply num_inj in A. subst m. lia.
Qed.

Lemma array_index_negative (q : Q) : q < 0 -> array_index q = None.
Proof.
  intros H. destruct (array_index q) as [n|] eqn:A; [|reflexivity].
  apply array_index_Some in A. destruct A as [A _].
  assert (0 <= num n) by (change 0 with (num 0); apply num_le; lia).
  lra.
Qed.

(** ** The allocated box *)

Lemma cell_at_repeat (c : option Q) (nx ny nz i j k : nat) :
  (i < nx)%nat -> (j < ny)%nat -> (k < nz)%nat ->
  cell_at (repeat (repeat (repeat c nz) ny) nx) i j k = Some c.
Proof.
  intros Hi Hj Hk. unfold cell_at.
  rewrite !nth_error_repeat by assumption. reflexivity.
Qed.

Lemma Forall_repeat {A} (P : A -> Prop) (a : A) (n : nat) :
  P a -> Forall P (repeat a n).
Proof. intros H. induction n; simpl; constructor; auto. Qed.

Lemma allocate_Some (lx ly lz : Q) (g : Grid) :
  allocate lx ly lz = Some g ->
  let nx := Z.to_nat (to_length lx) in
  let ny := Z.to_nat (to_length ly) in
  box g nx ny /\
  (to_length lx <= MAX_ARRAY_LENGTH)%Z /\
  (nx <> 0%nat -> ny <> 0%nat ->
   (to_length ly <= MAX_ARRAY_LENGTH)%Z /\
   is_integer lz = true /\ (0 <= Qfloor lz <= MAX_ARRAY_LENGTH)%Z /\
   g = repeat (repeat (repeat (Some (-1)) (Z.to_nat (Qfloor lz))) ny) nx).
Proof.
  unfold allocate.
  destruct (Z.leb_spec (to_length lx) MAX_ARRAY_LENGTH) as [Bx|]; [|discriminate].
  destruct (Z.to_nat (to_length lx)) as [|nx] eqn:Ex.
  - intros E. injection E as <-. simpl. split; [|split; [assumption|]].
    + split; [reflexivity | constructor].
    + intros N. contradiction.
  - destruct (Z.leb_spec (to_length ly) MAX_ARRAY_LENGTH) as [By|]; [|discriminate].
    destruct (Z.to_nat (to_length ly)) as [|ny] eqn:Ey.
    + intros E. injection E as <-. simpl. split; [|split; [assumption|]].
      * split; [simpl; rewrite repeat_length; reflexivity|].
        apply (Forall_repeat _ _ (S nx)). reflexivity.
      * intros _ N. contradiction.
    + destruct (is_integer lz) eqn:I; simpl; [|discriminate].
      destruct (Z.leb_spec 0 (Qfloor lz)) as [P|]; simpl; [|discriminate].
      destruct (Z.leb_spec (Qfloor lz) MAX_ARRAY_LENGTH) as [Bz|]; [|discriminate].
      intros E. injection E as <-. split; [|split; [assumption|]].
      * split; [simpl; rewrite repeat_length; reflexivity|].
        apply (Forall_repeat _ _ (S nx)). simpl. rewrite repeat_length.
        reflexivity.
      * intros _ _. repeat split; auto.
Qed.

Lemma rows_len_repeat (c : option Q) (nx ny nz : nat) :
  rows_len (repeat (repeat (repeat c nz) ny) nx) nz.
Proof.
  unfold rows_len. apply Forall_repeat, Forall_repeat, repeat_length.
Qed.

(** ** All the writes *)

Lemma cell_eq_dec (c1 c2 : nat * nat * nat) : {c1 = c2} + {c1 <> c2}.
Proof. repeat decide equality. Qed.

(** Writes whose keys name cells of the grid set exactly those cells. *)
Lemma write_seeds_cells (nx ny nz : nat) (keys : list (Q * Q * Q))
    (cells : list (nat * nat * nat)) :
  Forall2 names_cell keys cells ->
  Forall (fun cell => (fst (fst cell) < nx /\ snd (fst cell) < ny
                       /\ snd cell < nz)%nat) cells ->
  forall s, box (grid s) nx ny -> rows_len (grid s) nz ->
    exists s',
      write_seeds keys s = Normal tt s' /\
      s' = set_grid (grid s') s /\
      box (grid s') nx ny /\ rows_len (grid s') nz /\
      forall i j k,
        (In (i, j, k) cells -> cell_at (grid s') i j k = Some (Some 1)) /\
        (~ In (i, j, k) cells -> cell_at (grid s') i j k = cell_at (grid s) i j k).
Proof.
  unfold write_seeds.
  induction 1 as [|[[a b] c] [[ia ib] ic] keys cells N F2 IH];
    intros R s B L; simpl.
  - exists s. split; [reflexivity|]. split; [symmetry; apply set_grid_same|].
    split; [exact B|]. split; [exact L|].
    intros i j k. split; [intros [] | reflexivity].
  - inversion R as [|? ? (Ha & Hb & Hc) R']; subst. simpl in Ha, Hb, Hc.
    destruct (grid_write_cell a b c 1 s nx ny nz ia ib ic B L N Ha Hb Hc)
      as (s1 & E1 & B1 & L1 & C1).
    pose proof (grid_write_normal _ _ _ _ _ _ E1)
      as (? & ? & ? & ? & _ & _ & _ & _ & S1).
    destruct (IH R' s1 B1 L1) as (s' & E' & S' & B' & L' & C').
    exists s'. unfold bind. rewrite E1. split; [exact E'|].
    split; [|split; [exact B'|split; [exact L'|]]].
    + rewrite S', S1. destruct s; reflexivity.
    + intros i j k. destruct (C' i j k) as [In' Out'].
      destruct (in_dec cell_eq_dec (i, j, k) cells) as [I|NI].
      * split; [intros _; apply In'; exact I|].
        intros NIn. exfalso. apply NIn. right. exact I.
      * rewrite (Out' NI), C1. split.
        -- intros [E|I]; [|contradiction]. injection E as -> -> ->.
           rewrite !Nat.eqb_refl. reflexivity.
        -- intros NIn.
           destruct (Nat.eqb_spec i ia) as [->|]; [|reflexivity].
           destruct (Nat.eqb_spec j ib) as [->|]; [|reflexivity].
           destruct (Nat.eqb_spec k ic) as [->|]; [|reflexivity].
           exfalso. apply NIn. left. reflexivity.
Qed.

(** Writes whose third key is no array index change no element. *)
Lemma write_seeds_named (nx ny : nat) (keys : list (Q * Q * Q)) (s : VoxelGrid) :
  box (grid s) nx ny ->
  forallb (names_row nx ny) keys = true ->
  Forall (fun key => array_index (snd key) = None) keys ->
  write_seeds keys s = Normal tt s.
Proof.
  unfold write_seeds. intros B N F.
  induction F as [|[[a b] c] keys Hc F IH]; simpl.
  - reflexivity.
  - simpl in N. apply andb_prop in N. destruct N as [N1 N].
    unfold bind. rewrite (grid_write_named a b c 1 s nx ny B N1 Hc).
    apply IH. exact N.
Qed.

(** ** The outcome of [initializeGrid] *)

Lemma num_double (n : nat) : num (2 * n) == 2 * num n.
Proof.
  replace (2 * n)%nat with (n + n)%nat by lia. rewrite num_plus. ring.
Qed.

Lemma num_minus (n d : nat) : (d <= n)%nat -> num (n - d) == num n - num d.
Proof.
  intros H. replace n with ((n - d) + d)%nat at 2 by lia.
  rewrite num_plus. ring.
Qed.

Lemma half_key (s r : Q) : s * r == 2 * (s / 2 * r).
Proof. field. Qed.

(** The allocation fails with [RangeError]; after it the writes go through
    exactly when each of the eight keys names a row. *)
Lemma initializeGrid_outcome (t : VoxelGrid) :
  let lx := vec_x (size t) * resolution t in
  let ly := vec_y (size t) * resolution t in
  let lz := vec_z (size t) * resolution t in
  match allocate lx ly lz with
  | None => initializeGrid t = Abrupt RangeError t
  | Some g =>
      box g (Z.to_nat (to_length lx)) (Z.to_nat (to_length ly)) /\
      if forallb (names_row (Z.to_nat (to_length lx)) (Z.to_nat (to_length ly)))
                 (seed_keys t)
      then exists t', initializeGrid t = Normal tt t'
      else exists t', initializeGrid t = Abrupt TypeError t'
  end.
Proof.
  intros lx ly lz. rewrite initializeGrid_steps. fold lx ly lz.
  destruct (allocate lx ly lz) as [g|] eqn:A; [|reflexivity].
  destruct (allocate_Some lx ly lz g A) as (B & _).
  split; [exact B|].
  pose proof (write_seeds_box _ _ (seed_keys t) (set_grid g t) B) as W.
  destruct (forallb _ (seed_keys t)).
  - destruct W as [s' [E _]]. exists s'. exact E.
  - exact W.
Qed.

Ltac split_andb H :=
  repeat match type of H with
         | (_ && _)%bool = true =>
             let H1 := fresh "N" in
             apply andb_prop in H; destruct H as [H1 H]
         end.

(** What a normal end of [initializeGrid] tells: the anchor keys are the
    indices [ix] and [iy], the extents are their doubles, and the state is
    the box of [-1] after the eight writes. *)
Lemma initializeGrid_success (t t' : VoxelGrid) :
  initializeGrid t = Normal tt t' ->
  exists ix iy nz,
    vec_x (size t) / 2 * resolution t == num ix /\
    vec_y (size t) / 2 * resolution t == num iy /\
    vec_x (size t) * resolution t == num (2 * ix) /\
    vec_y (size t) * resolution t == num (2 * iy) /\
    vec_z (size t) * resolution t == num nz /\
    (ix + 4 < 2 * ix)%nat /\ (3 <= iy)%nat /\
    (Z.of_nat (2 * ix) <= MAX_ARRAY_LENGTH)%Z /\
    (Z.of_nat (2 * iy) <= MAX_ARRAY_LENGTH)%Z /\
    (Z.of_nat nz <= MAX_ARRAY_LENGTH)%Z /\
    forallb (names_row (2 * ix) (2 * iy)) (seed_keys t) = true /\
    write_seeds (seed_keys t)
      (set_grid (repeat (repeat (repeat (Some (-1)) nz) (2 * iy)) (2 * ix)) t)
    = Normal tt t'.
Proof.
  intros H. pose proof (initializeGrid_outcome t) as O. cbv zeta in O.
  rewrite initializeGrid_steps in H.
  destruct (allocate _ _ _) as [g|] eqn:A; [|discriminate].
  destruct O as [B O].
  destruct (forallb _ (seed_keys t)) eqn:F.
  2:{ destruct O as [s' E]. rewrite initializeGrid_steps, A in E. congruence. }
  clear O.
  destruct (allocate_Some _ _ _ g A) as (_ & Bx & Full).
  set (nx := Z.to_nat (to_length (vec_x (size t) * resolution t))) in *.
  set (ny := Z.to_nat (to_length (vec_y (size t) * resolution t))) in *.
  pose proof F as F0.
  unfold seed_keys in F. simpl in F. split_andb F. clear F.
  unfold names_row in N, N4, N6. simpl in N, N4, N6.
  destruct (array_index (vec_x (size t) / 2 * resolution t)) as [ix|] eqn:Ax;
    [|discriminate].
  destruct (array_index (vec_y (size t) / 2 * resolution t)) as [iy|] eqn:Ay;
    [|discriminate].
  apply andb_prop in N. destruct N as [Lx Ly].
  apply Nat.ltb_lt in Lx. apply Nat.ltb_lt in Ly.
  apply array_index_Some in Ax. destruct Ax as [Ex Mx].
  apply array_index_Some in Ay. destruct Ay as [Ey My].
  unfold MAX_ARRAY_LENGTH in Mx, My.
  assert (Dx : vec_x (size t) * resolution t == num (2 * ix)).
  { rewrite half_key, Ex, num_double. reflexivity. }
  assert (Dy : vec_y (size t) * resolution t == num (2 * iy)).
  { rewrite half_key, Ey, num_double. reflexivity. }
  assert (Nx : nx = (2 * ix)%nat).
  { subst nx. rewrite (to_length_Qeq _ _ Dx), to_length_num by lia.
    apply Nat2Z.id. }
  assert (Ny : ny = (2 * iy)%nat).
  { subst ny. rewrite (to_length_Qeq _ _ Dy), to_length_num by lia.
    apply Nat2Z.id. }
  destruct Full as (By & Iz & Bz & G); [lia | lia |].
  assert (Bx' : (Z.of_nat (2 * ix) <= MAX_ARRAY_LENGTH)%Z).
  { rewrite <- Nx. subst nx. rewrite Z2Nat.id; [exact Bx|].
    rewrite (to_length_Qeq _ _ Dx), to_length_num by lia. lia. }
  assert (By' : (Z.of_nat (2 * iy) <= MAX_ARRAY_LENGTH)%Z).
  { rewrite <- Ny. subst ny. rewrite Z2Nat.id; [exact By|].
    rewrite (to_length_Qeq _ _ Dy), to_length_num by lia. lia. }
  (* the last write: x + 4 *)
  assert (Hx4 : (ix + 4 < 2 * ix)%nat).
  { assert (E4 : vec_x (size t) / 2 * resolution t + 4 == num (ix + 4)).
    { rewrite Ex, num_plus. reflexivity. }
    rewrite (array_index_of_num _ _ E4) in N6.
    destruct (Z.of_nat (ix + 4) <? MAX_ARRAY_LENGTH)%Z; simpl in N6;
      [|discriminate].
    apply andb_prop in N6. destruct N6 as [L4 _].
    apply Nat.ltb_lt in L4. lia. }
  (* the sixth write: y - 3 *)
  assert (Hy3 : (3 <= iy)%nat).
  { destruct (le_lt_dec 3 iy) as [|Lt]; [assumption|]. exfalso.
    assert (Neg : vec_y (size t) / 2 * resolution t - 3 < 0).
    { rewrite Ey. apply num_lt in Lt. change (num 3) with 3 in Lt. lra. }
    rewrite (array_index_negative _ Neg) in N4.
    destruct (array_index (vec_x (size t) / 2 * resolution t + 2));
      discriminate. }
  exists ix, iy, (Z.to_nat (Qfloor (vec_z (size t) * resolution t))).
  repeat (split; [assumption|]).
  split.
  { apply is_integer_spec in Iz. unfold num. rewrite Z2Nat.id by lia. exact Iz. }
  repeat (split; [assumption|]).
  split; [rewrite Z2Nat.id by lia; lia|].
  split; [rewrite <- Nx, <- Ny; exact F0|].
  rewrite <- Nx, <- Ny, <- G. exact H.
Qed.

Lemma key_plus (q : Q) (n d : nat) :
  q == num n -> (Z.of_nat (n + d) < MAX_ARRAY_LENGTH)%Z ->
  array_index (q + num d) = Some (n + d)%nat.
Proof.
  intros E B.
  assert (E' : q + num d == num (n + d)) by (rewrite E, num_plus; reflexivity).
  rewrite (array_index_of_num _ _ E').
  replace (Z.of_nat (n + d) <? MAX_ARRAY_LENGTH)%Z with true
    by (symmetry; apply Z.ltb_lt; exact B).
  reflexivity.
Qed.

Lemma key_minus (q : Q) (n d : nat) :
  q == num n -> (d <= n)%nat -> (Z.of_nat n < MAX_ARRAY_LENGTH)%Z ->
  array_index (q - num d) = Some (n - d)%nat.
Proof.
  intros E L B.
  assert (E' : q - num d == num (n - d)) by (rewrite E, num_minus by exact L; reflexivity).
  rewrite (array_index_of_num _ _ E').
  replace (Z.of_nat (n - d) <? MAX_ARRAY_LENGTH)%Z with true
    by (symmetry; apply Z.ltb_lt; lia).
  reflexivity.
Qed.

(** The eight keys name the eight seed cells around the anchor. *)
Lemma seed_keys_cells (t : VoxelGrid) (ix iy kz : nat) :
  vec_x (size t) / 2 * resolution t == num ix ->
  vec_y (size t) / 2 * resolution t == num iy ->
  array_index (vec_z (size t) / 2 * resolution t) = Some kz ->
  (Z.of_nat (ix + 4) < MAX_ARRAY_LENGTH)%Z ->
  (Z.of_nat iy < MAX_ARRAY_LENGTH)%Z -> (3 <= iy)%nat ->
  Forall2 names_cell (seed_keys t) (seed_cells ix iy kz).
Proof.
  intros Ex Ey Az Bx By L3.
  assert (A0 : array_index (vec_x (size t) / 2 * resolution t) = Some ix).
  { rewrite (array_index_of_num _ _ Ex).
    replace (Z.of_nat ix <? MAX_ARRAY_LENGTH)%Z with true
      by (symmetry; apply Z.ltb_lt; lia). reflexivity. }
  assert (B0 : array_index (vec_y (size t) / 2 * resolution t) = Some iy).
  { rewrite (array_index_of_num _ _ Ey).
    replace (Z.of_nat iy <? MAX_ARRAY_LENGTH)%Z with true
      by (symmetry; apply Z.ltb_lt; lia). reflexivity. }
  pose proof (fun d B => key_plus _ ix d Ex B) as P.
  pose proof (fun d L => key_minus _ iy d Ey L By) as Mi.
  unfold seed_keys, seed_cells.
  repeat constructor; simpl; try assumption;
    first [ exact (P 1%nat ltac:(lia)) | exact (P 2%nat ltac:(lia))
          | exact (P 3%nat ltac:(lia)) | exact (P 4%nat ltac:(lia))
          | exact (Mi 1%nat ltac:(lia)) | exact (Mi 2%nat ltac:(lia))
          | exact (Mi 3%nat ltac:(lia)) ].
Qed.

Lemma seed_cells_NoDup (ix iy kz : nat) :
  (3 <= iy)%nat -> NoDup (seed_cells ix iy kz).
Proof.
  intros L. unfold seed_cells.
  repeat (constructor;
          [simpl; intros H;
           repeat (destruct H as [H|H]; [injection H; lia|]); exact H|]).
  constructor.
Qed.

(** C10, amended: [initializeGrid] ends normally exactly when the array
    allocation goes through and the first two keys of each of the eight
    seed writes name a row of the allocated array; otherwise it throws
    ([TypeError] on a missing plane or row, [RangeError] from the
    allocation).  After a normal end the anchor keys are indices [ix], [iy],
    the extents are their doubles, [ix + 4] is below the x-extent and
    [iy - 3] is not negative; and when the third key is an index [kz] inside
    the rows, the eight seed cells, all distinct, hold [1] and every other
    cell holds [-1]. *)
Theorem initializeGrid_seeds (t : VoxelGrid) (o : outcome VoxelGrid unit) :
  initializeGrid t = o ->
  match o with
  | Normal _ t' =>
      forallb (names_row (x_extent t) (y_extent t)) (seed_keys t) = true /\
      exists ix iy nz,
        vec_x (size t) / 2 * resolution t == num ix /\
        vec_y (size t) / 2 * resolution t == num iy /\
        vec_z (size t) * resolution t == num nz /\
        x_extent t = (2 * ix)%nat /\ y_extent t = (2 * iy)%nat /\
        box (grid t') (2 * ix) (2 * iy) /\
        (ix + 4 < x_extent t)%nat /\ (3 <= iy)%nat /\
        forall kz,
          array_index (vec_z (size t) / 2 * resolution t) = Some kz ->
          (kz < nz)%nat ->
          NoDup (seed_cells ix iy kz) /\ length (seed_cells ix iy kz) = 8%nat /\
          forall i j k, (i < 2 * ix)%nat -> (j < 2 * iy)%nat -> (k < nz)%nat ->
            (In (i, j, k) (seed_cells ix iy kz) ->
             cell_at (grid t') i j k = Some (Some 1)) /\
            (~ In (i, j, k) (seed_cells ix iy kz) ->
             cell_at (grid t') i j k = Some (Some (-1)))
  | Abrupt e t' =>
      let a := allocate (vec_x (size t) * resolution t)
                        (vec_y (size t) * resolution t)
                        (vec_z (size t) * resolution t) in
      (e = RangeError /\ t' = t /\ a = None) \/
      (e = TypeError /\ a <> None /\
       forallb (names_row (x_extent t) (y_extent t)) (seed_keys t) = false)
  end.
Proof.
  intros <-. destruct (initializeGrid t) as [[] t'|e t'] eqn:E.
  - destruct (initializeGrid_success t t' E)
      as (ix & iy & nz & Ex & Ey & Dx & Dy & Dz & Hx & Hy & Bx & By & Bz & F & W).
    assert (Nx : x_extent t = (2 * ix)%nat).
    { unfold x_extent. unfold MAX_ARRAY_LENGTH in Bx.
      rewrite (to_length_Qeq _ _ Dx), to_length_num by lia. apply Nat2Z.id. }
    assert (Ny : y_extent t = (2 * iy)%nat).
    { unfold y_extent. unfold MAX_ARRAY_LENGTH in By.
      rewrite (to_length_Qeq _ _ Dy), to_length_num by lia. apply Nat2Z.id. }
    rewrite Nx, Ny. split; [exact F|].
    exists ix, iy, nz. repeat (split; [assumption || reflexivity|]).
    set (g0 := repeat (repeat (repeat (Some (-1)) nz) (2 * iy)) (2 * ix)) in *.
    assert (B0 : box (grid (set_grid g0 t)) (2 * ix) (2 * iy)).
    { simpl. subst g0. split; [apply repeat_length|].
      apply Forall_repeat, repeat_length. }
    split.
    { pose proof (write_seeds_box _ _ (seed_keys t) (set_grid g0 t) B0) as WB.
      rewrite F in WB. destruct WB as [s' [E' B']].
      rewrite W in E'. injection E' as <-. exact B'. }
    split; [lia|]. split; [exact Hy|].
    intros kz Az Lz.
    split; [apply seed_cells_NoDup; exact Hy|]. split; [reflexivity|].
    assert (R : Forall (fun cell => (fst (fst cell) < 2 * ix
                                     /\ snd (fst cell) < 2 * iy
                                     /\ snd cell < nz)%nat)
                  (seed_cells ix iy kz)).
    { unfold seed_cells. repeat constructor; simpl; lia. }
    assert (K : Forall2 names_cell (seed_keys t) (seed_cells ix iy kz)).
    { apply seed_keys_cells; try assumption; unfold MAX_ARRAY_LENGTH in *; lia. }
    destruct (write_seeds_cells (2 * ix) (2 * iy) nz _ _ K R (set_grid g0 t) B0
                (rows_len_repeat _ _ _ _))
      as (s' & E' & _ & _ & _ & C).
    rewrite W in E'. injection E' as <-.
    intros i j k Hi Hj Hk. destruct (C i j k) as [In1 Out1].
    split; [exact In1|].
    intros NI. rewrite (Out1 NI). simpl. subst g0.
    apply cell_at_repeat; assumption.
  - pose proof (initializeGrid_outcome t) as O. cbv zeta in O |- *.
    fold (x_extent t) (y_extent t) in O.
    destruct (allocate _ _ _) as [g|].
    + right. destruct O as [_ O].
      destruct (forallb _ (seed_keys t)).
      * destruct O as [s' E']. congruence.
      * destruct O as [s' E']. rewrite E in E'. injection E' as -> ->.
        repeat split. discriminate.
    + left. rewrite E in O. injection O as -> ->. auto.
Qed.

Lemma box_rows_shape (g : Grid) (nx ny nz : nat) :
  box g nx ny -> rows_len g nz ->
  Forall (fun plane => length plane = ny /\
                       Forall (fun row => length row = nz) plane) g.
Proof.
  intros [_ B] R. unfold rows_len in R. rewrite Forall_forall in *.
  intros plane H. split; [apply B | apply R]; exact H.
Qed.

Lemma Qceiling_num (q : Q) (n : nat) : q == num n -> Qceiling q = Z.of_nat n.
Proof. intros E. rewrite (Qceiling_comp _ _ E). apply Qceiling_Z. Qed.

(** C2, amended: when [initializeGrid] ends normally with a positive
    [size.z * resolution], the three products [size.axis * resolution] are
    integers, the array is a box with these extents (each equal to the
    ceiling of the product), and every cell holds [-1] or [1], whatever the
    isovalue, which is left as it was. *)
Theorem initializeGrid_allocates (t t' : VoxelGrid) :
  initializeGrid t = Normal tt t' ->
  0 < vec_z (size t) * resolution t ->
  exists nx ny nz,
    shape_ok t' nx ny nz /\
    Qceiling (vec_x (size t) * resolution t) = Z.of_nat nx /\
    Qceiling (vec_y (size t) * resolution t) = Z.of_nat ny /\
    Qceiling (vec_z (size t) * resolution t) = Z.of_nat nz /\
    isovalue t' = isovalue t /\
    forall i j k, (i < nx)%nat -> (j < ny)%nat -> (k < nz)%nat ->
      cell_at (grid t') i j k = Some (Some (-1)) \/
      cell_at (grid t') i j k = Some (Some 1).
Proof.
  intros E Pz.
  destruct (initializeGrid_success t t' E)
    as (ix & iy & nz & Ex & Ey & Dx & Dy & Dz & Hx & Hy & Bx & By & Bz & F & W).
  set (g0 := repeat (repeat (repeat (Some (-1)) nz) (2 * iy)) (2 * ix)) in *.
  assert (B0 : box (grid (set_grid g0 t)) (2 * ix) (2 * iy)).
  { simpl. subst g0. split; [apply repeat_length|].
    apply Forall_repeat, repeat_length. }
  assert (R0 : rows_len (grid (set_grid g0 t)) nz)
    by (apply rows_len_repeat).
  assert (Main : t' = set_grid (grid t') t /\ box (grid t') (2 * ix) (2 * iy)
                 /\ rows_len (grid t') nz
                 /\ forall i j k, (i < 2 * ix)%nat -> (j < 2 * iy)%nat ->
                      (k < nz)%nat ->
                      cell_at (grid t') i j k = Some (Some (-1)) \/
                      cell_at (grid t') i j k = Some (Some 1)).
  { destruct (array_index (vec_z (size t) / 2 * resolution t)) as [kz|] eqn:Az.
    - assert (Lz : (kz < nz)%nat).
      { pose proof (array_index_Some _ _ Az) as [Ez _].
        assert (D : num nz == num (2 * kz)).
        { rewrite <- Dz, half_key, Ez, num_double. reflexivity. }
        apply num_inj in D.
        assert (0 < num nz) by (rewrite <- Dz; exact Pz).
        change 0 with (num 0) in H. apply num_lt in H. lia. }
      assert (R : Forall (fun cell => (fst (fst cell) < 2 * ix
                                       /\ snd (fst cell) < 2 * iy
                                       /\ snd cell < nz)%nat)
                    (seed_cells ix iy kz)).
      { unfold seed_cells. repeat constructor; simpl; lia. }
      assert (K : Forall2 names_cell (seed_keys t) (seed_cells ix iy kz)).
      { apply seed_keys_cells; try assumption; unfold MAX_ARRAY_LENGTH in *; lia. }
      destruct (write_seeds_cells (2 * ix) (2 * iy) nz _ _ K R (set_grid g0 t)
                  B0 R0) as (s' & E' & S' & B' & R' & C).
      rewrite W in E'. injection E' as <-.
      split; [rewrite S' at 1; destruct t; reflexivity|].
      split; [exact B'|]. split; [exact R'|].
      intros i j k Hi Hj Hk. destruct (C i j k) as [In1 Out1].
      destruct (in_dec cell_eq_dec (i, j, k) (seed_cells ix iy kz)) as [I|NI].
      + right. apply In1. exact I.
      + left. rewrite (Out1 NI). simpl. subst g0.
        apply cell_at_repeat; assumption.
    - assert (Fz : Forall (fun key : Q * Q * Q => array_index (snd key) = None)
                     (seed_keys t)).
      { unfold seed_keys. repeat constructor; exact Az. }
      rewrite (write_seeds_named (2 * ix) (2 * iy) _ _ B0 F Fz) in W.
      injection W as <-. simpl.
      split; [reflexivity|]. split; [exact B0|]. split; [exact R0|].
      intros i j k Hi Hj Hk. left. subst g0. apply cell_at_repeat; assumption. }
  destruct Main as (St & B' & R' & C).
  exists (2 * ix)%nat, (2 * iy)%nat, nz.
  split.
  { unfold shape_ok. rewrite St. simpl.
    repeat (split; [assumption|]).
    split; [apply B'|].
    split; [apply (box_rows_shape _ _ _ _ B' R')|].
    repeat split; assumption. }
  split; [apply Qceiling_num; exact Dx|].
  split; [apply Qceiling_num; exact Dy|].
  split; [apply Qceiling_num; exact Dz|].
  split; [rewrite St; reflexivity | exact C].
Qed.

(** C8, amended: [initializeGrid] throws whenever [size.x * resolution] or
    [size.y * resolution] is at most [0], or [size.z * resolution] is below
    [0].  What is thrown is a [TypeError] (a missing plane or row at the
    first seed write) or a [RangeError] (the array constructor), and a
    [TypeError] when it is the x product that is at most [0]. *)
Theorem initializeGrid_nonpositive_extent (t : VoxelGrid) :
  vec_x (size t) * resolution t <= 0 \/
  vec_y (size t) * resolution t <= 0 \/
  vec_z (size t) * resolution t < 0 ->
  exists e t',
    initializeGrid t = Abrupt e t' /\
    (e = TypeError \/ e = RangeError) /\
    (vec_x (size t) * resolution t <= 0 -> e = TypeError).
Proof.
  intros H. destruct (initializeGrid t) as [[] t'|e t'] eqn:E.
  - exfalso.
    destruct (initializeGrid_success t t' E)
      as (ix & iy & nz & _ & _ & Dx & Dy & Dz & Hx & Hy & _).
    assert (Px : 0 < num (2 * ix))
      by (change 0 with (num 0); apply num_lt; lia).
    assert (Py : 0 < num (2 * iy))
      by (change 0 with (num 0); apply num_lt; lia).
    assert (Pz : 0 <= num nz)
      by (change 0 with (num 0); apply num_le; lia).
    rewrite <- Dx in Px. rewrite <- Dy in Py. rewrite <- Dz in Pz.
    destruct H as [H|[H|H]]; lra.
  - exists e, t'. split; [reflexivity|].
    pose proof (initializeGrid_outcome t) as O. cbv zeta in O.
    destruct (allocate _ _ _) as [g|] eqn:A.
    + destruct O as [_ O]. destruct (forallb _ (seed_keys t)).
      * destruct O as [s' E']. congruence.
      * destruct O as [s' E']. rewrite E in E'. injection E' as -> ->. auto.
    + rewrite E in O. injection O as -> ->. split; [auto|].
      intros Nx. exfalso. unfold allocate in A.
      rewrite (to_length_nonpos _ Nx) in A. simpl in A. discriminate.
Qed.

(** ** Rendering *)

Section Rendering.

Variable CORNER_ARRAY : list Vector3.
Variable EDGE_ARRAY : list (list Vector3).
Variable TRIANGLE_TABLE : list (list Z).

Let extract := marchCubes CORNER_ARRAY EDGE_ARRAY TRIANGLE_TABLE.

Lemma removal_step (w : World) :
  bind get (fun w0 : World =>
    match mesh (this w0) with
    | Some m => removeMeshAndDispose m
    | None => ret tt
    end) w
  = Normal tt (after_removal w).
Proof.
  unfold bind, get, after_removal.
  destruct (mesh (this w)); reflexivity.
Qed.

(** C1, amended: [render] first takes the previous mesh, if any, out of
    the scene and disposes of it, and only then runs the extraction, on
    the grid as it is.  When the extraction ends normally a mesh built
    from the whole vertex list is stored and added to the scene, and
    nothing is logged; when the extraction throws, [render] throws the
    same error, the scene stays without the previous mesh and no mesh is
    added. *)
Theorem render_outcome (w : World) :
  render CORNER_ARRAY EDGE_ARRAY TRIANGLE_TABLE w
  = match extract (this w) with
    | Normal _ t' =>
        let m := mkMesh (next_id w) (positions_of (meshVertexes t')) in
        Normal tt
          (mkWorld (set_mesh (Some m) t')
                   (scene_children (after_removal w) ++ [m])
                   (disposed (after_removal w)) (console w)
                   (S (next_id w)))
    | Abrupt e t' => Abrupt e (set_this t' (after_removal w))
    end.
Proof.
  unfold render.
  change (bind get ?k w)
    with (bind (bind get (fun w0 : World =>
                  match mesh (this w0) with
                  | Some m => removeMeshAndDispose m
                  | None => ret tt
                  end))
            (fun _ =>
               bind (on_this (marchCubes CORNER_ARRAY EDGE_ARRAY TRIANGLE_TABLE))
                 (fun _ =>
                    try_catch
                      (bind generateMesh (fun _ =>
                         bind get (fun w' => scene_add (mesh (this w')))))
                      (fun error => console_log error))) w).
  unfold bind at 1. rewrite removal_step.
  assert (T : this (after_removal w) = this w).
  { unfold after_removal. destruct (mesh (this w)); reflexivity. }
  assert (C : console (after_removal w) = console w).
  { unfold after_removal. destruct (mesh (this w)); reflexivity. }
  assert (I : next_id (after_removal w) = next_id w).
  { unfold after_removal. destruct (mesh (this w)); reflexivity. }
  unfold bind at 1. unfold on_this. rewrite T. fold extract.
  destruct (marchCubes_final CORNER_ARRAY EDGE_ARRAY TRIANGLE_TABLE (this w))
    as [vs [Ef Hm]].
  fold extract in Ef.
  destruct (extract (this w)) as [[] t'|e t']; [|reflexivity].
  simpl in Ef. subst t'.
  unfold try_catch, generateMesh, get. unfold bind.
  cbn [this meshVertexes set_this set_meshVertexes].
  rewrite Hm. simpl. rewrite C, I. reflexivity.
Qed.

End Rendering.

(** * Concrete runs *)

Lemma sample_tables_ok :
  tables_ok sample_CORNER_ARRAY sample_EDGE_ARRAY sample_TRIANGLE_TABLE.
Proof.
  split; [split; [reflexivity|]|split; [reflexivity | vm_compute; reflexivity]].
  unfold sample_CORNER_ARRAY.
  repeat (apply Forall_cons;
          [unfold unit_corner; simpl; repeat split;
           first [left; reflexivity | right; reflexivity]|]).
  apply Forall_nil.
Qed.

Lemma small_grid_shape : shape_ok small_grid 3 3 3.
Proof.
  unfold shape_ok, small_grid. simpl.
  repeat split; try reflexivity; try (unfold MAX_ARRAY_LENGTH; lia).
  repeat constructor.
Qed.

Lemma small_grid_visits_middle : In (1, 1, 1)%nat (visited small_grid).
Proof. vm_compute. tauto. Qed.

(** The small field gives the eight triangles around its one inner sample. *)
Example small_grid_extraction :
  exists t',
    marchCubes sample_CORNER_ARRAY sample_EDGE_ARRAY sample_TRIANGLE_TABLE
      small_grid = Normal tt t' /\
    length (meshVertexes t') = 24%nat /\ grid t' = grid small_grid.
Proof.
  exists (final (marchCubes sample_CORNER_ARRAY sample_EDGE_ARRAY
                   sample_TRIANGLE_TABLE small_grid)).
  split; [vm_compute; reflexivity|]. split; vm_compute; reflexivity.
Qed.

(** A field with every sample below the isovalue gives no triangle. *)
Example uniform_field_extraction :
  exists t',
    marchCubes sample_CORNER_ARRAY sample_EDGE_ARRAY sample_TRIANGLE_TABLE
      (set_grid (repeat (repeat (repeat (Some (-1)) 3) 3) 3) small_grid)
    = Normal tt t' /\
    meshVertexes t' = [].
Proof.
  exists (final (marchCubes sample_CORNER_ARRAY sample_EDGE_ARRAY
                   sample_TRIANGLE_TABLE
                   (set_grid (repeat (repeat (repeat (Some (-1)) 3) 3) 3)
                      small_grid))).
  split; vm_compute; reflexivity.
Qed.

(** The grid of [index.ts] has 40 planes, seeded around [20][20][20]. *)
Example index_grid_seeded :
  exists t',
    index_grid = Normal tt t' /\ length (grid t') = 40%nat /\
    cell_at (grid t') 22 17 20 = Some (Some 1) /\
    cell_at (grid t') 22 16 20 = Some (Some (-1)).
Proof.
  exists (final index_grid).
  split; [vm_compute; reflexivity|]. split; [vm_compute; reflexivity|].
  split; vm_compute; reflexivity.
Qed.

(** ** Witnesses: the theorems at concrete inputs *)

Lemma scan_reads_in_bounds_witness :
  shape_ok small_grid 3 3 3 /\
  Forall unit_corner sample_CORNER_ARRAY /\
  In (1, 1, 1)%nat (visited small_grid) /\
  (0 <= Z.of_nat 1 < Z.of_nat 3 - 1)%Z.
Proof.
  pose proof (scan_reads_in_bounds sample_CORNER_ARRAY sample_EDGE_ARRAY
                sample_TRIANGLE_TABLE small_grid 3 3 3 small_grid_shape
                (proj2 (proj1 sample_tables_ok))) as H.
  split; [exact small_grid_shape|].
  split; [exact (proj2 (proj1 sample_tables_ok))|].
  split; [exact small_grid_visits_middle|].
  exact (proj1 (proj1 (proj2 H 1%nat 1%nat 1%nat small_grid_visits_middle))).
Defined.

Lemma marchCubes_vertex_count_witness :
  shape_ok small_grid 3 3 3 /\
  tables_ok sample_CORNER_ARRAY sample_EDGE_ARRAY sample_TRIANGLE_TABLE /\
  exists t',
    marchCubes sample_CORNER_ARRAY sample_EDGE_ARRAY sample_TRIANGLE_TABLE
      small_grid = Normal tt t' /\
    (length (meshVertexes t') mod 3 = 0)%nat.
Proof.
  split; [exact small_grid_shape|]. split; [exact sample_tables_ok|].
  exact (marchCubes_vertex_count sample_CORNER_ARRAY sample_EDGE_ARRAY
           sample_TRIANGLE_TABLE small_grid 3 3 3 small_grid_shape
           sample_tables_ok).
Defined.

Lemma cube_config_bits_witness :
  shape_ok small_grid 3 3 3 /\
  corners_ok sample_CORNER_ARRAY /\
  In (1, 1, 1)%nat (visited small_grid) /\
  exists c,
    cornerLoop (num 1) (num 1) (num 1) (entries sample_CORNER_ARRAY) 0%Z
      small_grid = Normal c small_grid /\
    (0 <= c < 256)%Z.
Proof.
  split; [exact small_grid_shape|]. split; [exact (proj1 sample_tables_ok)|].
  split; [exact small_grid_visits_middle|].
  destruct (cube_config_bits sample_CORNER_ARRAY small_grid 3 3 3 1 1 1
              small_grid_shape (proj1 sample_tables_ok)
              small_grid_visits_middle) as [c [E [B _]]].
  exists c. split; [exact E | exact B].
Defined.

Lemma marchCube_vertices_witness :
  let t' := final (marchCube sample_CORNER_ARRAY sample_EDGE_ARRAY
                     sample_TRIANGLE_TABLE 1 1 1 small_grid) in
  marchCube sample_CORNER_ARRAY sample_EDGE_ARRAY sample_TRIANGLE_TABLE
    1 1 1 small_grid = Normal tt t' /\
  exists c triangles vs,
    cornerLoop (num 1) (num 1) (num 1) (entries sample_CORNER_ARRAY) 0%Z
      small_grid = Normal c small_grid /\
    lookup sample_TRIANGLE_TABLE (Some c) = Some triangles /\
    t' = set_meshVertexes (meshVertexes small_grid ++ vs) small_grid /\
    Forall2
      (vertex_of_edge sample_EDGE_ARRAY (resolution small_grid)
         (num 1) (num 1) (num 1))
      (referenced triangles) vs.
Proof.
  intros t'.
  assert (E : marchCube sample_CORNER_ARRAY sample_EDGE_ARRAY
                sample_TRIANGLE_TABLE 1 1 1 small_grid = Normal tt t')
    by (vm_compute; reflexivity).
  split; [exact E|].
  exact (marchCube_vertices sample_CORNER_ARRAY sample_EDGE_ARRAY
           sample_TRIANGLE_TABLE 1 1 1 small_grid t' E).
Defined.

Lemma initializeGrid_allocates_witness :
  initializeGrid slab = Normal tt (final (initializeGrid slab)) /\
  0 < vec_z (size slab) * resolution slab /\
  exists nx ny nz, shape_ok (final (initializeGrid slab)) nx ny nz.
Proof.
  assert (E : initializeGrid slab = Normal tt (final (initializeGrid slab)))
    by (vm_compute; reflexivity).
  assert (P : 0 < vec_z (size slab) * resolution slab) by reflexivity.
  split; [exact E|]. split; [exact P|].
  destruct (initializeGrid_allocates slab (final (initializeGrid slab)) E P)
    as (nx & ny & nz & Sh & _).
  exists nx, ny, nz. exact Sh.
Defined.

Lemma initializeGrid_nonpositive_extent_witness :
  vec_x (size zero_resolution) * resolution zero_resolution <= 0 /\
  exists e t', initializeGrid zero_resolution = Abrupt e t' /\ e = TypeError.
Proof.
  assert (N : vec_x (size zero_resolution) * resolution zero_resolution <= 0)
    by (vm_compute; discriminate).
  split; [exact N|].
  destruct (initializeGrid_nonpositive_extent zero_resolution (or_introl N))
    as (e & t' & E & _ & K).
  exists e, t'. split; [exact E | exact (K N)].
Defined.

Lemma initializeGrid_seeds_witness :
  initializeGrid slab = Normal tt (final (initializeGrid slab)) /\
  forallb (names_row (x_extent slab) (y_extent slab)) (seed_keys slab) = true.
Proof.
  assert (E : initializeGrid slab = Normal tt (final (initializeGrid slab)))
    by (vm_compute; reflexivity).
  split; [exact E|].
  exact (proj1 (initializeGrid_seeds slab
                  (Normal tt (final (initializeGrid slab))) E)).
Defined.

(** ** Counterexamples: where the code departs from a claim as stated *)

(** C1 as stated fails: the previous mesh is in the scene when [render] is
    called on [stale_world]; the extraction throws, leaving no complete
    vertex list, and yet the mesh is gone from the scene and disposed of. *)
Lemma render_removes_before_extraction :
  exists m e w',
    mesh (this stale_world) = Some m /\
    scene_children stale_world = [m] /\
    render sample_CORNER_ARRAY sample_EDGE_ARRAY sample_TRIANGLE_TABLE
      stale_world = Abrupt e w' /\
    scene_children w' = [] /\
    disposed w' = [mesh_id m] /\
    meshVertexes (this w') <> meshVertexes (this stale_world).
Proof.
  set (o := render sample_CORNER_ARRAY sample_EDGE_ARRAY sample_TRIANGLE_TABLE
              stale_world).
  assert (E : o = Abrupt TypeError (final o)) by (vm_compute; reflexivity).
  destruct (mesh (this stale_world)) as [m|] eqn:Em;
    [|vm_compute in Em; discriminate].
  exists m, TypeError, (final o).
  split; [reflexivity|].
  assert (Im : Some m = mesh (this stale_world)) by (symmetry; exact Em).
  vm_compute in Im. injection Im as ->.
  split; [vm_compute; reflexivity|]. split; [exact E|].
  split; [vm_compute; reflexivity|]. split; [vm_compute; reflexivity|].
  intros H. apply (f_equal (@length Vector3)) in H. vm_compute in H.
  discriminate.
Qed.

(** C2 as stated fails: the grid of [index.ts] (isovalue [0]) is
    initialised with the cell [20][20][20] at [1], which is not below the
    isovalue. *)
Lemma initializeGrid_cell_above_isovalue :
  exists t',
    index_grid = Normal tt t' /\
    cell_at (grid t') 20 20 20 = Some (Some 1) /\
    ~ 1 < isovalue t'.
Proof.
  exists (final index_grid).
  split; [vm_compute; reflexivity|]. split; [vm_compute; reflexivity|].
  vm_compute. discriminate.
Qed.

(** C8 as stated fails: with [size.z * resolution = 0] the z extent is not
    positive and [initializeGrid] ends normally. *)
Lemma initializeGrid_accepts_zero_extent :
  vec_z (size flat_slab) * resolution flat_slab <= 0 /\
  exists t', initializeGrid flat_slab = Normal tt t'.
Proof.
  split; [vm_compute; discriminate|].
  exists (final (initializeGrid flat_slab)). vm_compute. reflexivity.
Qed.

(** C10 as stated fails, twice.  On [thin_slab] the third seed key is
    [1/2], no array index: [initializeGrid] ends normally and every cell
    holds [-1], none holds [1].  On [flat_slab] the rows have no element, so
    the third seed key [0] is outside the allocated rows: [initializeGrid]
    does not throw, each seed write makes its row one element long. *)
Lemma initializeGrid_without_seeds :
  (array_index (vec_z (size thin_slab) / 2 * resolution thin_slab) = None /\
   exists t',
     initializeGrid thin_slab = Normal tt t' /\
     grid t' = repeat (repeat (repeat (Some (-1)) 1) 10) 10) /\
  (array_index (vec_z (size flat_slab) / 2 * resolution flat_slab) = Some 0%nat /\
   Array_ (vec_z (size flat_slab) * resolution flat_slab) flat_slab
   = Normal [] flat_slab /\
   exists t',
     initializeGrid flat_slab = Normal tt t' /\
     cell_at (grid t') 5 5 0 = Some (Some 1)).
Proof.
  split.
  - split; [vm_compute; reflexivity|].
    exists (final (initializeGrid thin_slab)).
    split; vm_compute; reflexivity.
  - split; [vm_compute; reflexivity|]. split; [vm_compute; reflexivity|].
    exists (final (initializeGrid flat_slab)).
    split; vm_compute; reflexivity.
Qed.

(** * Further properties of the code *)

(** ** [initializeGrid]: what it keeps, when it goes through *)

Lemma grid_write_final (a b c v : Q) (t : VoxelGrid) :
  final (grid_write a b c v t)
  = set_grid (grid (final (grid_write a b c v t))) t.
Proof.
  unfold grid_write, bind, get.
  destruct (get_prop (grid t) a) as [plane|]; destruct (array_index a);
    try (simpl; symmetry; apply set_grid_same).
  destruct (get_prop plane b) as [row|]; destruct (array_index b);
    try (simpl; symmetry; apply set_grid_same).
  reflexivity.
Qed.

Lemma write_seeds_final (keys : list (Q * Q * Q)) :
  forall s, final (write_seeds keys s)
            = set_grid (grid (final (write_seeds keys s))) s.
Proof.
  unfold write_seeds. induction keys as [|[[a b] c] keys IH]; intros s; simpl.
  - symmetry. apply set_grid_same.
  - unfold bind. pose proof (grid_write_final a b c 1 s) as W.
    destruct (grid_write a b c 1 s) as [[] s1|e s1]; simpl in W.
    + rewrite IH at 1. rewrite W. destruct s; reflexivity.
    + exact W.
Qed.


Lemma initializeGrid_final (t : VoxelGrid) :
  final (initializeGrid t) = set_grid (grid (final (initializeGrid t))) t.
Proof.
  rewrite initializeGrid_steps.
  destruct (allocate _ _ _) as [g|].
  - rewrite write_seeds_final at 1. destruct t; reflexivity.
  - simpl. symmetry. apply set_grid_same.
Qed.

(** X1: in every outcome, normal or not, [initializeGrid] changes the field
    [grid] only: resolution, size, isovalue and position, and also the
    vertex buffer and the mesh left by an earlier extraction, stay as they
    were. *)
Theorem initializeGrid_frame (t : VoxelGrid) :
  let t' := final (initializeGrid t) in
  resolution t' = resolution t /\ size t' = size t /\
  isovalue t' = isovalue t /\ position t' = position t /\
  meshVertexes t' = meshVertexes t /\ mesh t' = mesh t.
Proof.
  intros t'. subst t'. rewrite initializeGrid_final.
  repeat split; reflexivity.
Qed.


Lemma is_integer_num (n : nat) : is_integer (num n) = true.
Proof.
  apply is_integer_spec. unfold num. rewrite Qfloor_Z. reflexivity.
Qed.

(** X3: [initializeGrid] ends normally whenever [(size.x / 2) * resolution]
    is an integer of at least 5, [(size.y / 2) * resolution] an integer of
    at least 3 and [size.z * resolution] a non-negative integer, all extents
    within the largest array length. *)
Theorem initializeGrid_succeeds (t : VoxelGrid) (ix iy nz : nat) :
  vec_x (size t) / 2 * resolution t == num ix ->
  vec_y (size t) / 2 * resolution t == num iy ->
  vec_z (size t) * resolution t == num nz ->
  (5 <= ix)%nat -> (3 <= iy)%nat ->
  (Z.of_nat (2 * ix) <= MAX_ARRAY_LENGTH)%Z ->
  (Z.of_nat (2 * iy) <= MAX_ARRAY_LENGTH)%Z ->
  (Z.of_nat nz <= MAX_ARRAY_LENGTH)%Z ->
  exists t', initializeGrid t = Normal tt t'.
Proof.
  intros Ex Ey Ez Hx Hy Bx By Bz.
  unfold MAX_ARRAY_LENGTH in Bx, By, Bz.
  assert (Dx : vec_x (size t) * resolution t == num (2 * ix)).
  { rewrite half_key, Ex, num_double. reflexivity. }
  assert (Dy : vec_y (size t) * resolution t == num (2 * iy)).
  { rewrite half_key, Ey, num_double. reflexivity. }
  assert (Lx : to_length (vec_x (size t) * resolution t) = Z.of_nat (2 * ix)).
  { rewrite (to_length_Qeq _ _ Dx). apply to_length_num. lia. }
  assert (Ly : to_length (vec_y (size t) * resolution t) = Z.of_nat (2 * iy)).
  { rewrite (to_length_Qeq _ _ Dy). apply to_length_num. lia. }
  assert (Fz : Qfloor (vec_z (size t) * resolution t) = Z.of_nat nz).
  { rewrite (Qfloor_comp _ _ Ez). apply Qfloor_Z. }
  pose proof (initializeGrid_outcome t) as O. cbv zeta in O.
  assert (A : allocate (vec_x (size t) * resolution t)
                (vec_y (size t) * resolution t)
                (vec_z (size t) * resolution t) <> None).
  { unfold allocate. rewrite Lx, Ly, Fz, (is_integer_Qeq _ _ Ez), is_integer_num.
    rewrite !Nat2Z.id.
    replace (Z.of_nat (2 * ix) <=? MAX_ARRAY_LENGTH)%Z with true
      by (symmetry; apply Z.leb_le; unfold MAX_ARRAY_LENGTH; lia).
    replace (Z.of_nat (2 * iy) <=? MAX_ARRAY_LENGTH)%Z with true
      by (symmetry; apply Z.leb_le; unfold MAX_ARRAY_LENGTH; lia).
    replace (0 <=? Z.of_nat nz)%Z with true by (symmetry; apply Z.leb_le; lia).
    replace (Z.of_nat nz <=? MAX_ARRAY_LENGTH)%Z with true
      by (symmetry; apply Z.leb_le; unfold MAX_ARRAY_LENGTH; lia).
    destruct (2 * ix)%nat eqn:Nx; [lia|].
    destruct (2 * iy)%nat eqn:Ny; [lia|]. discriminate. }
  destruct (allocate _ _ _) as [g|]; [|contradiction].
  destruct O as [_ O].
  rewrite Lx, Ly, !Nat2Z.id in O.
  assert (F : forallb (names_row (2 * ix) (2 * iy)) (seed_keys t) = true).
  { assert (A0 : array_index (vec_x (size t) / 2 * resolution t) = Some ix).
    { rewrite (array_index_of_num _ _ Ex).
      replace (Z.of_nat ix <? MAX_ARRAY_LENGTH)%Z with true
        by (symmetry; apply Z.ltb_lt; unfold MAX_ARRAY_LENGTH; lia).
      reflexivity. }
    assert (B0 : array_index (vec_y (size t) / 2 * resolution t) = Some iy).
    { rewrite (array_index_of_num _ _ Ey).
      replace (Z.of_nat iy <? MAX_ARRAY_LENGTH)%Z with true
        by (symmetry; apply Z.ltb_lt; unfold MAX_ARRAY_LENGTH; lia).
      reflexivity. }
    assert (P : forall d, (d <= 4)%nat ->
                array_index (vec_x (size t) / 2 * resolution t + num d)
                = Some (ix + d)%nat).
    { intros d Hd. apply key_plus; [exact Ex|]. unfold MAX_ARRAY_LENGTH. lia. }
    assert (Mi : forall d, (d <= 3)%nat ->
                 array_index (vec_y (size t) / 2 * resolution t - num d)
                 = Some (iy - d)%nat).
    { intros d Hd. apply key_minus; [exact Ey | lia|].
      unfold MAX_ARRAY_LENGTH. lia. }
    pose proof (P 1%nat ltac:(lia)) as P1. pose proof (P 2%nat ltac:(lia)) as P2.
    pose proof (P 3%nat ltac:(lia)) as P3. pose proof (P 4%nat ltac:(lia)) as P4.
    pose proof (Mi 1%nat ltac:(lia)) as M1.
    pose proof (Mi 2%nat ltac:(lia)) as M2.
    pose proof (Mi 3%nat ltac:(lia)) as M3.
    change (num 1) with 1 in P1, M1. change (num 2) with 2 in P2, M2.
    change (num 3) with 3 in P3, M3. change (num 4) with 4 in P4.
    unfold seed_keys, names_row. simpl.
    rewrite A0, B0, P1, P2, P3, P4, M1, M2, M3.
    repeat (apply andb_true_intro; split);
      try reflexivity; apply Nat.ltb_lt; lia. }
  rewrite F in O. exact O.
Qed.

(** ** The scan: how many cubes, and none at all *)


Lemma range_pred (q : Q) (n : nat) : q == num n -> range (q - 1) = seq 0 (n - 1).
Proof.
  intros E. unfold range, loop_count.
  assert (E' : q - 1 == inject_Z (Z.of_nat n - 1)).
  { rewrite E. unfold num, Z.sub. rewrite inject_Z_plus. reflexivity. }
  rewrite (Qceiling_comp _ _ E'), Qceiling_Z.
  replace (Z.to_nat (Z.of_nat n - 1)) with (n - 1)%nat by lia. reflexivity.
Qed.

Lemma range_nonpos (q : Q) : q <= 0 -> range q = [].
Proof.
  intros H. unfold range, loop_count.
  pose proof (Qceiling_resp_le _ _ H) as C. change (Qceiling 0) with 0%Z in C.
  replace (Z.to_nat (Qceiling q)) with 0%nat by lia. reflexivity.
Qed.

Lemma flat_map_nil {A B} (l : list A) : flat_map (fun _ : A => @nil B) l = [].
Proof. induction l; simpl; auto. Qed.

Lemma length_flat_map_const {A B} (f : A -> list B) (k : nat) (l : list A) :
  (forall a, length (f a) = k) -> length (flat_map f l) = (length l * k)%nat.
Proof.
  intros H. induction l as [|a l IH]; simpl; [reflexivity|].
  rewrite length_app, H, IH. reflexivity.
Qed.

Lemma NoDup_flat_map {A B} (f : A -> list B) (l : list A) :
  NoDup l -> (forall a, NoDup (f a)) ->
  (forall a b c, In c (f a) -> In c (f b) -> a = b) ->
  NoDup (flat_map f l).
Proof.
  intros Nl Nf Inj. induction Nl as [|a l Na Nl IH]; simpl; [constructor|].
  apply NoDup_app; [apply Nf | exact IH|].
  intros c Ha Hl. apply in_flat_map in Hl. destruct Hl as [b [Hb Hc]].
  rewrite (Inj a b c Ha Hc) in Na. contradiction.
Qed.

Lemma NoDup_map_inj {A B} (f : A -> B) (l : list A) :
  (forall a b, f a = f b -> a = b) -> NoDup l -> NoDup (map f l).
Proof.
  intros Inj Nl. induction Nl as [|a l Na Nl IH]; simpl; constructor; auto.
  intros H. apply in_map_iff in H. destruct H as [b [E Hb]].
  apply Inj in E. subst b. contradiction.
Qed.

Lemma grid_cells_length (nx ny nz : nat) :
  length (grid_cells nx ny nz) = (nx * (ny * nz))%nat.
Proof.
  unfold grid_cells.
  rewrite (length_flat_map_const _ (ny * nz)), length_seq; [reflexivity|].
  intros i. rewrite (length_flat_map_const _ nz), length_seq; [reflexivity|].
  intros j. rewrite length_map, length_seq. reflexivity.
Qed.

Lemma grid_cells_NoDup (nx ny nz : nat) : NoDup (grid_cells nx ny nz).
Proof.
  unfold grid_cells. apply NoDup_flat_map.
  - apply seq_NoDup.
  - intros i. apply NoDup_flat_map.
    + apply seq_NoDup.
    + intros j. apply NoDup_map_inj; [|apply seq_NoDup].
      intros a b E. injection E. auto.
    + intros a b c Ha Hb. apply in_map_iff in Ha, Hb.
      destruct Ha as [k [<- _]]. destruct Hb as [k' [E _]].
      injection E. auto.
  - intros a b c Ha Hb. apply in_flat_map in Ha, Hb.
    destruct Ha as [j [_ Ha]]. destruct Hb as [j' [_ Hb]].
    apply in_map_iff in Ha, Hb.
    destruct Ha as [k [<- _]]. destruct Hb as [k' [E _]].
    injection E. auto.
Qed.


(** On a well-shaped field the scan is the box of cells short of the last
    index on each axis. *)
Lemma visited_grid_cells (t : VoxelGrid) (nx ny nz : nat) :
  shape_ok t nx ny nz -> visited t = grid_cells (nx - 1) (ny - 1) (nz - 1).
Proof.
  intros (Ex & Ey & Ez & _). unfold visited, grid_cells.
  rewrite (range_pred _ _ Ex), (range_pred _ _ Ey), (range_pred _ _ Ez).
  reflexivity.
Qed.

(** X4: on a field with the shape invariant the scan of [marchCubes]
    samples every cube of eight neighbouring samples exactly once:
    [(nx - 1) * (ny - 1) * (nz - 1)] cubes, none twice. *)
Theorem visited_count (t : VoxelGrid) (nx ny nz : nat) :
  shape_ok t nx ny nz ->
  length (visited t) = ((nx - 1) * ((ny - 1) * (nz - 1)))%nat /\
  NoDup (visited t).
Proof.
  intros Sh. rewrite (visited_grid_cells t nx ny nz Sh).
  split; [apply grid_cells_length | apply grid_cells_NoDup].
Qed.

Lemma visited_none (t : VoxelGrid) :
  vec_x (size t) * resolution t <= 1 \/
  vec_y (size t) * resolution t <= 1 \/
  vec_z (size t) * resolution t <= 1 ->
  visited t = [].
Proof.
  intros H. destruct (visited t) as [|[[x y] z] l] eqn:V; [reflexivity|].
  exfalso.
  assert (I : In (x, y, z) (visited t)) by (rewrite V; left; reflexivity).
  apply visited_spec in I. destruct I as (Hx & Hy & Hz).
  assert (0 <= num x) by (change 0 with (num 0); apply num_le; lia).
  assert (0 <= num y) by (change 0 with (num 0); apply num_le; lia).
  assert (0 <= num z) by (change 0 with (num 0); apply num_le; lia).
  destruct H as [H|[H|H]]; lra.
Qed.

Section EmptyScan.

Variable CORNER_ARRAY : list Vector3.
Variable EDGE_ARRAY : list (list Vector3).
Variable TRIANGLE_TABLE : list (list Z).

Lemma marchCubes_empty_scan (t : VoxelGrid) :
  visited t = [] ->
  marchCubes CORNER_ARRAY EDGE_ARRAY TRIANGLE_TABLE t
  = Normal tt (set_meshVertexes [] t).
Proof. intros V. rewrite marchCubes_visits, V. reflexivity. Qed.

(** X5: when one of the products [size.axis * resolution] is at most 1
    there is no cube to sample: [marchCubes] ends normally with an empty
    vertex buffer, whatever the grid holds (also an empty or ragged one)
    and whatever the tables. *)
Theorem marchCubes_no_cube (t : VoxelGrid) :
  vec_x (size t) * resolution t <= 1 \/
  vec_y (size t) * resolution t <= 1 \/
  vec_z (size t) * resolution t <= 1 ->
  marchCubes CORNER_ARRAY EDGE_ARRAY TRIANGLE_TABLE t
  = Normal tt (set_meshVertexes [] t).
Proof. intros H. apply marchCubes_empty_scan, visited_none, H. Qed.

(** Extraction goes through on every well-shaped field. *)
Lemma marchCubes_total (t : VoxelGrid) (nx ny nz : nat) :
  shape_ok t nx ny nz ->
  tables_ok CORNER_ARRAY EDGE_ARRAY TRIANGLE_TABLE ->
  exists t', marchCubes CORNER_ARRAY EDGE_ARRAY TRIANGLE_TABLE t = Normal tt t'.
Proof.
  intros Sh Tb. rewrite marchCubes_visits.
  destruct (forEach_normal
              (fun s => exists vs, s = set_meshVertexes vs t) (visited t)
              (fun c => marchCube CORNER_ARRAY EDGE_ARRAY TRIANGLE_TABLE
                          (fst (fst c)) (snd (fst c)) (snd c)))
    with (s := set_meshVertexes [] t) as [t' [E _]].
  - intros [[x y] z] s V [vs ->]. simpl.
    destruct (marchCube_total CORNER_ARRAY EDGE_ARRAY TRIANGLE_TABLE
                (set_meshVertexes vs t) nx ny nz x y z Sh Tb V) as [s' Es].
    exists s'. split; [exact Es|].
    destruct (pushes_marchCube CORNER_ARRAY EDGE_ARRAY TRIANGLE_TABLE x y z
                (set_meshVertexes vs t)) as [ws [Ew _]].
    rewrite Es in Ew. simpl in Ew. eexists. exact Ew.
  - exists []. reflexivity.
  - exists t'. exact E.
Qed.

End EmptyScan.

(** ** From the constructor to the extraction *)

(** The state after a normal [initializeGrid] with rows of some element has
    the shape invariant. *)
Lemma initializeGrid_shape (t t' : VoxelGrid) :
  initializeGrid t = Normal tt t' ->
  0 < vec_z (size t) * resolution t ->
  exists nx ny nz, shape_ok t' nx ny nz.
Proof.
  intros E Pz.
  destruct (initializeGrid_success t t' E)
    as (ix & iy & nz & Ex & Ey & Dx & Dy & Dz & Hx & Hy & Bx & By & Bz & F & W).
  set (g0 := repeat (repeat (repeat (Some (-1)) nz) (2 * iy)) (2 * ix)) in *.
  assert (B0 : box (grid (set_grid g0 t)) (2 * ix) (2 * iy)).
  { simpl. subst g0. split; [apply repeat_length|].
    apply Forall_repeat, repeat_length. }
  assert (R0 : rows_len (grid (set_grid g0 t)) nz) by (apply rows_len_repeat).
  assert (St : t' = set_grid (grid t') t).
  { pose proof (write_seeds_final (seed_keys t) (set_grid g0 t)) as Fi.
    rewrite W in Fi. simpl in Fi. rewrite Fi at 1. destruct t; reflexivity. }
  assert (Main : box (grid t') (2 * ix) (2 * iy) /\ rows_len (grid t') nz).
  { destruct (array_index (vec_z (size t) / 2 * resolution t)) as [kz|] eqn:Az.
    - assert (Lz : (kz < nz)%nat).
      { pose proof (array_index_Some _ _ Az) as [Ez _].
        assert (D : num nz == num (2 * kz)).
        { rewrite <- Dz, half_key, Ez, num_double. reflexivity. }
        apply num_inj in D.
        assert (H : 0 < num nz) by (rewrite <- Dz; exact Pz).
        change 0 with (num 0) in H. apply num_lt in H. lia. }
      assert (R : Forall (fun cell => (fst (fst cell) < 2 * ix
                                       /\ snd (fst cell) < 2 * iy
                                       /\ snd cell < nz)%nat)
                    (seed_cells ix iy kz)).
      { unfold seed_cells. repeat constructor; simpl; lia. }
      assert (K : Forall2 names_cell (seed_keys t) (seed_cells ix iy kz)).
      { apply seed_keys_cells; try assumption; unfold MAX_ARRAY_LENGTH in *; lia. }
      destruct (write_seeds_cells (2 * ix) (2 * iy) nz _ _ K R (set_grid g0 t)
                  B0 R0) as (s' & E' & _ & B' & R' & _).
      rewrite W in E'. injection E' as <-. split; assumption.
    - assert (Fz : Forall (fun key : Q * Q * Q => array_index (snd key) = None)
                     (seed_keys t)).
      { unfold seed_keys. repeat constructor; exact Az. }
      rewrite (write_seeds_named (2 * ix) (2 * iy) _ _ B0 F Fz) in W.
      injection W as <-. split; assumption. }
  destruct Main as [B' R'].
  exists (2 * ix)%nat, (2 * iy)%nat, nz.
  unfold shape_ok. rewrite St. simpl.
  repeat (split; [assumption|]).
  split; [apply B'|].
  split; [apply (box_rows_shape _ _ _ _ B' R')|].
  repeat split; assumption.
Qed.

Section ConstructThenExtract.

Variable CORNER_ARRAY : list Vector3.
Variable EDGE_ARRAY : list (list Vector3).
Variable TRIANGLE_TABLE : list (list Z).

(** X6: [initializeGrid] establishes what [marchCubes] needs.  After every
    normal end of [initializeGrid], with tables as the spec describes them,
    [marchCubes] ends normally: no corner read of the scan leaves the
    array. *)
Theorem initializeGrid_then_marchCubes (t t' : VoxelGrid) :
  initializeGrid t = Normal tt t' ->
  tables_ok CORNER_ARRAY EDGE_ARRAY TRIANGLE_TABLE ->
  exists t'',
    marchCubes CORNER_ARRAY EDGE_ARRAY TRIANGLE_TABLE t' = Normal tt t'' /\
    grid t'' = grid t'.
Proof.
  intros E Tb.
  assert (G : forall t'', marchCubes CORNER_ARRAY EDGE_ARRAY TRIANGLE_TABLE t'
                          = Normal tt t'' -> grid t'' = grid t').
  { intros t'' E''.
    destruct (marchCubes_final CORNER_ARRAY EDGE_ARRAY TRIANGLE_TABLE t')
      as [vs [Ef _]].
    rewrite E'' in Ef. simpl in Ef. rewrite Ef. reflexivity. }
  destruct (Qlt_le_dec 0 (vec_z (size t) * resolution t)) as [Pz|Nz].
  - destruct (initializeGrid_shape t t' E Pz) as (nx & ny & nz & Sh).
    destruct (marchCubes_total CORNER_ARRAY EDGE_ARRAY TRIANGLE_TABLE
                t' nx ny nz Sh Tb) as [t'' E''].
    exists t''. split; [exact E'' | apply G; exact E''].
  - pose proof (initializeGrid_final t) as Fr. rewrite E in Fr. simpl in Fr.
    assert (V : visited t' = []).
    { apply visited_none. right. right. rewrite Fr. simpl. lra. }
    exists (set_meshVertexes [] t').
    split; [apply marchCubes_empty_scan; exact V | reflexivity].
Qed.

End ConstructThenExtract.

(** ** The output, cube by cube *)

Lemma appends_ret {A} (a : A) : appends (ret a).
Proof. intros vs t1 t2 H. simpl. auto. Qed.

Lemma appends_throw {A} (e : error) : appends (@throw VoxelGrid A e).
Proof. intros vs t1 t2 H. simpl. auto. Qed.

Lemma appends_bind {A B} (m : M VoxelGrid A) (k : A -> M VoxelGrid B) :
  appends m -> (forall a, appends (k a)) -> appends (bind m k).
Proof.
  intros Hm Hk vs t1 t2 H. unfold bind. specialize (Hm vs t1 t2 H).
  destruct (m t1) as [a1 s1|e1 s1]; destruct (m t2) as [a2 s2|e2 s2];
    simpl in Hm; try contradiction.
  - destruct Hm as [<- Hs]. apply Hk. exact Hs.
  - exact Hm.
Qed.

Lemma appends_bind_get {B} (k : VoxelGrid -> M VoxelGrid B) :
  (forall t1 t2, same_field t1 t2 ->
     forall vs s1 s2, shifted vs s1 s2 -> shifted_out vs (k t1 s1) (k t2 s2)) ->
  appends (bind get k).
Proof.
  intros H vs t1 t2 Ht. unfold bind, get. apply H; [apply Ht | exact Ht].
Qed.

Lemma appends_forEach {A} (l : list A) (body : A -> M VoxelGrid unit) :
  (forall a, appends (body a)) -> appends (forEach l body).
Proof.
  intros H. induction l as [|a l IH]; simpl.
  - apply appends_ret.
  - apply appends_bind; [apply H | intros _; exact IH].
Qed.

Section CubeByCube.

Variable CORNER_ARRAY : list Vector3.
Variable EDGE_ARRAY : list (list Vector3).
Variable TRIANGLE_TABLE : list (list Z).

Lemma appends_sample_corner (x y z : Q) (corner : Vector3) :
  appends (sample_corner x y z corner).
Proof.
  unfold sample_corner. apply appends_bind_get.
  intros t1 t2 (_ & _ & _ & <-) vs s1 s2 Hs.
  destruct (get_prop (grid t1) (x + vec_x corner)) as [plane|];
    [|apply appends_throw; exact Hs].
  destruct (get_prop plane (y + vec_y corner)) as [row|];
    [apply appends_ret | apply appends_throw]; exact Hs.
Qed.

Lemma appends_cornerLoop (x y z : Q) (es : list (nat * Vector3)) :
  forall c, appends (cornerLoop x y z es c).
Proof.
  induction es as [|[i corner] es IH]; intros c; simpl.
  - apply appends_ret.
  - apply appends_bind; [apply appends_sample_corner|]. intros v.
    apply appends_bind_get. intros t1 t2 (_ & _ & <- & _) vs s1 s2 Hs.
    apply IH. exact Hs.
Qed.

Lemma appends_getEdgeMidpoint (e : option (list Vector3)) (r : Q) :
  appends (getEdgeMidpoint e r).
Proof.
  destruct e as [[|p0 [|p1 more]]|]; simpl;
    intros vs t1 t2 H; simpl; auto.
Qed.

Lemma appends_emitTriangle (x y z : Q) (k1 k2 k3 : option Z) :
  appends (emitTriangle EDGE_ARRAY x y z k1 k2 k3).
Proof.
  unfold emitTriangle. apply appends_bind_get.
  intros t1 t2 (<- & _) vs s1 s2 Hs. revert vs s1 s2 Hs.
  change (appends
    (bind (getEdgeMidpoint (lookup EDGE_ARRAY k1) (resolution t1)) (fun v1 =>
     bind (getEdgeMidpoint (lookup EDGE_ARRAY k2) (resolution t1)) (fun v2 =>
     bind (getEdgeMidpoint (lookup EDGE_ARRAY k3) (resolution t1)) (fun v3 =>
       modify (fun t => set_meshVertexes
         (meshVertexes t ++
          [Vector3_add (mkVector3 (x / resolution t1) (y / resolution t1)
                          (z / resolution t1)) v1;
           Vector3_add (mkVector3 (x / resolution t1) (y / resolution t1)
                          (z / resolution t1)) v2;
           Vector3_add (mkVector3 (x / resolution t1) (y / resolution t1)
                          (z / resolution t1)) v3]) t)))))).
  apply appends_bind; [apply appends_getEdgeMidpoint|]. intros v1.
  apply appends_bind; [apply appends_getEdgeMidpoint|]. intros v2.
  apply appends_bind; [apply appends_getEdgeMidpoint|]. intros v3.
  intros vs s1 s2 [F E]. simpl. split; [reflexivity|]. split.
  - exact F.
  - simpl. rewrite E, app_assoc. reflexivity.
Qed.

Lemma appends_triangleLoop (x y z : Q) (triangles : list Z) :
  appends (triangleLoop EDGE_ARRAY x y z triangles).
Proof.
  induction triangles as [|e1|e1 e2|e1 e2 e3 rest IH] using triples_ind; simpl.
  - apply appends_ret.
  - destruct (e1 =? -1)%Z; [apply appends_ret | apply appends_emitTriangle].
  - destruct (e1 =? -1)%Z; [apply appends_ret | apply appends_emitTriangle].
  - destruct (e1 =? -1)%Z; [apply appends_ret|].
    apply appends_bind; [apply appends_emitTriangle | intros _; exact IH].
Qed.

Lemma appends_marchCube (x y z : nat) :
  appends (marchCube CORNER_ARRAY EDGE_ARRAY TRIANGLE_TABLE x y z).
Proof.
  unfold marchCube.
  apply appends_bind; [apply appends_cornerLoop|]. intros c.
  destruct (lookup TRIANGLE_TABLE (Some c));
    [apply appends_triangleLoop | apply appends_throw].
Qed.

(** What a cube pushes on the buffer it finds is what it pushes on an
    empty one. *)
Lemma marchCube_push (t s s' : VoxelGrid) (x y z : nat) :
  same_field t s ->
  marchCube CORNER_ARRAY EDGE_ARRAY TRIANGLE_TABLE x y z s = Normal tt s' ->
  same_field t s' /\
  meshVertexes s'
  = meshVertexes s
    ++ cube_vertices CORNER_ARRAY EDGE_ARRAY TRIANGLE_TABLE t (x, y, z).
Proof.
  intros F E.
  assert (Sh : shifted (meshVertexes s) (set_meshVertexes [] t) s).
  { split; [exact F | simpl; rewrite app_nil_r; reflexivity]. }
  pose proof (appends_marchCube x y z _ _ _ Sh) as A. rewrite E in A.
  unfold cube_vertices. simpl fst. simpl snd.
  destruct (marchCube CORNER_ARRAY EDGE_ARRAY TRIANGLE_TABLE x y z
              (set_meshVertexes [] t)) as [[] s0|e s0];
    simpl in A; [|contradiction].
  destruct A as [_ [F0 E0]]. simpl. split; [|exact E0].
  destruct (pushes_marchCube CORNER_ARRAY EDGE_ARRAY TRIANGLE_TABLE x y z s)
    as [ws [Ew _]].
  rewrite E in Ew. simpl in Ew. rewrite Ew.
  destruct F as (F1 & F2 & F3 & F4). repeat split; assumption.
Qed.

Lemma forEach_cubes (t : VoxelGrid) (l : list (nat * nat * nat)) :
  forall s s',
    same_field t s ->
    forEach l (fun c => marchCube CORNER_ARRAY EDGE_ARRAY TRIANGLE_TABLE
                          (fst (fst c)) (snd (fst c)) (snd c)) s
    = Normal tt s' ->
    meshVertexes s'
    = meshVertexes s
      ++ flat_map (cube_vertices CORNER_ARRAY EDGE_ARRAY TRIANGLE_TABLE t) l.
Proof.
  induction l as [|[[x y] z] l IH]; intros s s' F; simpl.
  - intros E. injection E as <-. rewrite app_nil_r. reflexivity.
  - unfold bind.
    destruct (marchCube CORNER_ARRAY EDGE_ARRAY TRIANGLE_TABLE x y z s)
      as [[] s1|e s1] eqn:E1; [|discriminate].
    destruct (marchCube_push t s s1 x y z F E1) as [F1 M1].
    intros E. rewrite (IH s1 s' F1 E), M1, app_assoc. reflexivity.
Qed.

(** X7: when [marchCubes] ends normally, the vertex list is the
    concatenation, in the order of the scan (x slowest, z fastest), of what
    each visited cube pushes by itself; a cube's triangles do not depend on
    the cubes before it. *)
Theorem marchCubes_cube_by_cube (t t' : VoxelGrid) :
  marchCubes CORNER_ARRAY EDGE_ARRAY TRIANGLE_TABLE t = Normal tt t' ->
  meshVertexes t'
  = flat_map (cube_vertices CORNER_ARRAY EDGE_ARRAY TRIANGLE_TABLE t)
      (visited t).
Proof.
  rewrite marchCubes_visits. intros E.
  apply (forEach_cubes t) in E; [exact E|].
  repeat split.
Qed.

End CubeByCube.

(** ** Where the vertices lie *)

(** A loop that ends normally keeps what each of its rounds keeps. *)
Lemma forEach_keeps {St A} (I : St -> Prop) (l : list A) (body : A -> M St unit) :
  (forall a s s', In a l -> I s -> body a s = Normal tt s' -> I s') ->
  forall s s', I s -> forEach l body s = Normal tt s' -> I s'.
Proof.
  induction l as [|a l IH]; intros H s s' Hs; simpl.
  - intros E. injection E as <-. exact Hs.
  - unfold bind. destruct (body a s) as [[] s1|e s1] eqn:E1; [|discriminate].
    apply IH.
    + intros b u u' Hb. apply H. right. exact Hb.
    + apply (H a s s1); [left; reflexivity | exact Hs | exact E1].
Qed.

(** One coordinate of a midpoint vertex: between the cell's base and the
    next sample, hence inside the grid's extent. *)
Lemma midpoint_coordinate (a b r size_a : Q) (x n : nat) :
  (a == 0 \/ a == 1) -> (b == 0 \/ b == 1) -> 0 < r ->
  size_a * r == num n -> (x + 1 < n)%nat ->
  0 <= (a + b) * (1 # 2) / r + num x / r /\
  (a + b) * (1 # 2) / r + num x / r <= size_a.
Proof.
  intros Ha Hb Hr Es Hx.
  assert (Hw : 0 < / r) by (apply Qinv_lt_0_compat; exact Hr).
  assert (Nx : 0 <= num x) by (change 0 with (num 0); apply num_le; lia).
  assert (Lx : num x + 1 <= num n).
  { change 1 with (num 1). rewrite <- num_plus. apply num_le. lia. }
  assert (E1 : (a + b) * (1 # 2) / r + num x / r
               == ((a + b) * (1 # 2) + num x) * / r)
    by (unfold Qdiv; ring).
  assert (E2 : size_a == num n * / r).
  { rewrite <- Es. field. intros Z. rewrite Z in Hr. apply (Qlt_irrefl 0 Hr). }
  assert (Lo : 0 <= (a + b) * (1 # 2) + num x)
    by (destruct Ha as [->| ->]; destruct Hb as [->| ->]; lra).
  assert (Hi : (a + b) * (1 # 2) + num x <= num n)
    by (destruct Ha as [->| ->]; destruct Hb as [->| ->]; lra).
  rewrite E1, E2. split.
  - apply Qmult_le_0_compat; [exact Lo | apply Qlt_le_weak; exact Hw].
  - apply Qmult_le_compat_r; [exact Hi | apply Qlt_le_weak; exact Hw].
Qed.

Lemma in_size_box_vec_eq (t : VoxelGrid) (v w : Vector3) :
  vec_eq v w -> in_size_box t w -> in_size_box t v.
Proof.
  intros (Ex & Ey & Ez) H. unfold in_size_box in *.
  rewrite Ex, Ey, Ez. exact H.
Qed.

Section VertexBounds.

Variable CORNER_ARRAY : list Vector3.
Variable EDGE_ARRAY : list (list Vector3).
Variable TRIANGLE_TABLE : list (list Z).

Lemma edge_end_points (e : Z) (p0 p1 : Vector3) (more : list Vector3) :
  edges_unit EDGE_ARRAY ->
  lookup EDGE_ARRAY (Some e) = Some (p0 :: p1 :: more) ->
  unit_corner p0 /\ unit_corner p1.
Proof.
  intros U L. unfold lookup in L.
  destruct (0 <=? e)%Z; [|discriminate].
  apply nth_error_In in L. unfold edges_unit in U.
  rewrite Forall_forall in U. specialize (U _ L).
  inversion U as [|? ? U0 U']; subst. inversion U' as [|? ? U1 _]; subst.
  split; assumption.
Qed.

Lemma vertex_of_edge_in_box (t : VoxelGrid) (nx ny nz x y z : nat) (e : Z)
    (v : Vector3) :
  shape_ok t nx ny nz -> 0 < resolution t -> edges_unit EDGE_ARRAY ->
  (x + 1 < nx)%nat -> (y + 1 < ny)%nat -> (z + 1 < nz)%nat ->
  vertex_of_edge EDGE_ARRAY (resolution t) (num x) (num y) (num z) e v ->
  in_size_box t v.
Proof.
  intros (Ex & Ey & Ez & _) Hr U Hx Hy Hz (p0 & p1 & more & L & Ev).
  destruct (edge_end_points e p0 p1 more U L)
    as [(Ax & Ay & Az) (Bx & By & Bz)].
  apply (in_size_box_vec_eq t v _ Ev). unfold in_size_box, cell_vertex. simpl.
  split; [|split].
  - apply (midpoint_coordinate _ _ _ _ x nx); assumption.
  - apply (midpoint_coordinate _ _ _ _ y ny); assumption.
  - apply (midpoint_coordinate _ _ _ _ z nz); assumption.
Qed.

(** X8: on a field with the shape invariant and a positive resolution,
    with an edge table that joins unit corners, every vertex of a normal
    extraction lies in the box from the origin to [size]: the mesh never
    leaves the volume of the grid.  ([position] is not added: the box is
    the one at the origin.) *)
Theorem marchCubes_vertices_in_box (t t' : VoxelGrid) (nx ny nz : nat) :
  shape_ok t nx ny nz -> 0 < resolution t -> edges_unit EDGE_ARRAY ->
  marchCubes CORNER_ARRAY EDGE_ARRAY TRIANGLE_TABLE t = Normal tt t' ->
  Forall (in_size_box t) (meshVertexes t').
Proof.
  intros Sh Hr U. rewrite marchCubes_visits. intros E.
  pose (I := fun s : VoxelGrid =>
               s = set_meshVertexes (meshVertexes s) t
               /\ Forall (in_size_box t) (meshVertexes s)).
  assert (H : I t'); [|exact (proj2 H)].
  apply (forEach_keeps I (visited t) _) with (s := set_meshVertexes [] t) in E;
    [exact E | | split; [reflexivity | constructor]].
  intros [[x y] z] s s' V [Es Fs]. simpl.
  apply (visited_shape t nx ny nz x y z Sh) in V. destruct V as (Hx & Hy & Hz).
  unfold marchCube. unfold bind at 1.
  pose proof (reads_cornerLoop (num x) (num y) (num z)
                (entries CORNER_ARRAY) 0%Z s) as R.
  destruct (cornerLoop (num x) (num y) (num z) (entries CORNER_ARRAY) 0%Z s)
    as [c s0|]; [|discriminate].
  simpl in R. subst s0.
  destruct (lookup TRIANGLE_TABLE (Some c)) as [triangles|]; [|discriminate].
  intros E'. apply triangleLoop_normal in E'. destruct E' as [vs [-> F2]].
  split.
  - rewrite Es at 2. reflexivity.
  - simpl. apply Forall_app. split; [exact Fs|].
    assert (Rs : resolution s = resolution t) by (rewrite Es; reflexivity).
    rewrite Rs in F2. clear - F2 Sh Hr U Hx Hy Hz.
    induction F2 as [|e v es vs Hv F2 IH]; constructor; [|exact IH].
    apply (vertex_of_edge_in_box t nx ny nz x y z e v); assumption.
Qed.

End VertexBounds.

(** ** Fields on one side of the isovalue *)

Lemma forEach_idle {St A} (l : list A) (body : A -> M St unit) (s : St) :
  (forall a, In a l -> body a s = Normal tt s) ->
  forEach l body s = Normal tt s.
Proof.
  induction l as [|a l IH]; intros H; simpl; [reflexivity|].
  unfold bind. rewrite (H a (or_introl eq_refl)).
  apply IH. intros b Hb. apply H. right. exact Hb.
Qed.

Lemma testbit_255 (n : Z) :
  (0 <= n)%Z -> Z.testbit 255 n = (n <? 8)%Z.
Proof.
  intros H. destruct (Z.ltb_spec n 8) as [L|L].
  - assert (C : (n = 0 \/ n = 1 \/ n = 2 \/ n = 3 \/ n = 4 \/ n = 5 \/ n = 6
                 \/ n = 7)%Z) by lia.
    repeat (destruct C as [->|C]; [reflexivity|]). subst n. reflexivity.
  - apply (testbit_above 255 8 n); lia.
Qed.

Section OneSide.

Variable CORNER_ARRAY : list Vector3.
Variable EDGE_ARRAY : list (list Vector3).
Variable TRIANGLE_TABLE : list (list Z).

Lemma triangleLoop_no_reference (x y z : Q) (triangles : list Z) (s : VoxelGrid) :
  referenced triangles = [] ->
  triangleLoop EDGE_ARRAY x y z triangles s = Normal tt s.
Proof.
  destruct triangles as [|e1 rest]; simpl; [reflexivity|].
  destruct (e1 =? -1)%Z; [reflexivity|].
  destruct rest as [|e2 [|e3 rest']]; discriminate.
Qed.

(** The byte of a visited cube, bit by bit, against the cells of the
    grid. *)
Lemma cube_byte_cells (t : VoxelGrid) (nx ny nz x y z : nat) :
  shape_ok t nx ny nz -> corners_ok CORNER_ARRAY ->
  In (x, y, z) (visited t) ->
  exists c,
    cornerLoop (num x) (num y) (num z) (entries CORNER_ARRAY) 0%Z t
    = Normal c t /\
    (0 <= c < 256)%Z /\
    forall n, (n < 8)%nat ->
      exists i j k v,
        cell_at (grid t) i j k = Some v /\
        Z.testbit c (Z.of_nat n) = js_gt v (isovalue t).
Proof.
  intros Sh [L8 U] V.
  destruct (cube_config_range CORNER_ARRAY t nx ny nz x y z Sh (conj L8 U) V)
    as (c & E & B).
  exists c. split; [exact E|]. split; [exact B|].
  destruct (cornerLoop_bits (num x) (num y) (num z) t CORNER_ARRAY
              0 0%Z c t ltac:(simpl; lia) ltac:(rewrite L8; lia) E)
    as (_ & _ & _ & Bits).
  apply (visited_shape t nx ny nz x y z Sh) in V. destruct V as (Hx & Hy & Hz).
  intros n Hn.
  destruct (nth_error CORNER_ARRAY n) as [corner|] eqn:En;
    [|apply nth_error_None in En; lia].
  destruct (Bits n corner En) as [v [Ev Tv]]. simpl in Tv.
  rewrite Forall_forall in U.
  destruct (sample_corner_in_bounds t nx ny nz x y z corner Sh
              (U corner (nth_error_In _ _ En)) Hx Hy Hz)
    as (i & j & k & v' & _ & _ & _ & _ & _ & _ & Cv & Sv).
  rewrite Ev in Sv. injection Sv as <-.
  exists i, j, k, v. split; [exact Cv | exact Tv].
Qed.

Lemma cube_byte_none_above (t : VoxelGrid) (nx ny nz x y z : nat) :
  shape_ok t nx ny nz -> corners_ok CORNER_ARRAY -> none_above t ->
  In (x, y, z) (visited t) ->
  cornerLoop (num x) (num y) (num z) (entries CORNER_ARRAY) 0%Z t
  = Normal 0%Z t.
Proof.
  intros Sh Co N V.
  destruct (cube_byte_cells t nx ny nz x y z Sh Co V) as (c & E & B & Bits).
  assert (C0 : c = 0%Z); [|rewrite C0 in E; exact E].
  apply Z.bits_inj_0. intros n.
  destruct (Z.ltb_spec n 0) as [Ng|Nn]; [apply Z.testbit_neg_r; exact Ng|].
  destruct (Z.ltb_spec n 8) as [L|L]; [|apply (testbit_above c 8 n); lia].
  destruct (Bits (Z.to_nat n) ltac:(lia)) as (i & j & k & v & Cv & Tv).
  rewrite Z2Nat.id in Tv by exact Nn. rewrite Tv.
  destruct (js_gt v (isovalue t)) eqn:G; [|reflexivity].
  apply js_gt_spec in G. destruct G as [q [-> Lt]].
  specialize (N i j k q Cv). exfalso. apply (Qlt_not_le _ _ Lt N).
Qed.

Lemma cube_byte_all_above (t : VoxelGrid) (nx ny nz x y z : nat) :
  shape_ok t nx ny nz -> corners_ok CORNER_ARRAY -> all_above t ->
  In (x, y, z) (visited t) ->
  cornerLoop (num x) (num y) (num z) (entries CORNER_ARRAY) 0%Z t
  = Normal 255%Z t.
Proof.
  intros Sh Co N V.
  destruct (cube_byte_cells t nx ny nz x y z Sh Co V) as (c & E & B & Bits).
  assert (C0 : c = 255%Z); [|rewrite C0 in E; exact E].
  apply Z.bits_inj'. intros n Nn. rewrite (testbit_255 n Nn).
  destruct (Z.ltb_spec n 8) as [L|L]; [|apply (testbit_above c 8 n); lia].
  destruct (Bits (Z.to_nat n) ltac:(lia)) as (i & j & k & v & Cv & Tv).
  rewrite Z2Nat.id in Tv by exact Nn. rewrite Tv.
  apply js_gt_spec. destruct (N i j k v Cv) as [q [-> Lt]].
  exists q. split; [reflexivity | exact Lt].
Qed.

Lemma marchCubes_constant_byte (t : VoxelGrid) (c : Z) (triangles : list Z) :
  (forall x y z, In (x, y, z) (visited t) ->
     cornerLoop (num x) (num y) (num z) (entries CORNER_ARRAY) 0%Z
       (set_meshVertexes [] t)
     = Normal c (set_meshVertexes [] t)) ->
  lookup TRIANGLE_TABLE (Some c) = Some triangles ->
  referenced triangles = [] ->
  marchCubes CORNER_ARRAY EDGE_ARRAY TRIANGLE_TABLE t
  = Normal tt (set_meshVertexes [] t).
Proof.
  intros H L R. rewrite marchCubes_visits.
  apply forEach_idle. intros [[x y] z] V. simpl.
  unfold marchCube, bind. rewrite (H x y z V), L.
  apply triangleLoop_no_reference. exact R.
Qed.

(** X9: on a field with the shape invariant where no sample is above the
    isovalue (a sample equal to it counts as outside), every cube has the
    configuration byte 0; when entry 0 of the triangle table names no edge,
    [marchCubes] ends normally with an empty vertex buffer. *)
Theorem marchCubes_none_above (t : VoxelGrid) (nx ny nz : nat)
    (triangles : list Z) :
  shape_ok t nx ny nz -> corners_ok CORNER_ARRAY -> none_above t ->
  lookup TRIANGLE_TABLE (Some 0%Z) = Some triangles ->
  referenced triangles = [] ->
  marchCubes CORNER_ARRAY EDGE_ARRAY TRIANGLE_TABLE t
  = Normal tt (set_meshVertexes [] t).
Proof.
  intros Sh Co N L R.
  apply (marchCubes_constant_byte t 0%Z triangles); [|exact L | exact R].
  intros x y z V.
  apply (cube_byte_none_above (set_meshVertexes [] t) nx ny nz x y z Sh Co N V).
Qed.

(** X10: on a field with the shape invariant where every sample is above
    the isovalue, every cube has the configuration byte 255; when entry 255
    of the triangle table names no edge, [marchCubes] ends normally with an
    empty vertex buffer. *)
Theorem marchCubes_all_above (t : VoxelGrid) (nx ny nz : nat)
    (triangles : list Z) :
  shape_ok t nx ny nz -> corners_ok CORNER_ARRAY -> all_above t ->
  lookup TRIANGLE_TABLE (Some 255%Z) = Some triangles ->
  referenced triangles = [] ->
  marchCubes CORNER_ARRAY EDGE_ARRAY TRIANGLE_TABLE t
  = Normal tt (set_meshVertexes [] t).
Proof.
  intros Sh Co N L R.
  apply (marchCubes_constant_byte t 255%Z triangles); [|exact L | exact R].
  intros x y z V.
  apply (cube_byte_all_above (set_meshVertexes [] t) nx ny nz x y z Sh Co N V).
Qed.

End OneSide.

(** ** [forEachVoxel] *)



(** X12: when one of the products [size.axis * resolution] is at most 0,
    in particular when the resolution is 0, [forEachVoxel] does not call
    the callback at all (so nothing is divided by a zero resolution). *)
Theorem forEachVoxel_no_call {St} (t : VoxelGrid)
    (callback : Q -> Q -> Q -> M St unit) (s : St) :
  vec_x (size t) * resolution t <= 0 \/
  vec_y (size t) * resolution t <= 0 \/
  vec_z (size t) * resolution t <= 0 ->
  forEachVoxel t callback s = Normal tt s.
Proof.
  unfold forEachVoxel. intros [H|[H|H]].
  - rewrite (range_nonpos _ H). reflexivity.
  - rewrite (range_nonpos _ H). apply forEach_idle. intros x _. reflexivity.
  - rewrite (range_nonpos _ H). apply forEach_idle. intros x _.
    apply forEach_idle. intros y _. reflexivity.
Qed.

(** ** [generateMesh] *)




(** ** The scene: removal, rendering, rendering again *)

Lemma remove_child_absent (id : nat) (l : list Mesh) :
  ~ In id (map mesh_id l) -> remove_child id l = l.
Proof.
  induction l as [|m l IH]; simpl; intros H; [reflexivity|].
  destruct (Nat.eqb_spec (mesh_id m) id) as [E|N].
  - exfalso. apply H. left. exact E.
  - rewrite IH; [reflexivity|]. intros I. apply H. right. exact I.
Qed.

Lemma remove_child_filter (id : nat) (l : list Mesh) :
  NoDup (map mesh_id l) ->
  remove_child id l = filter (fun c => negb (mesh_id c =? id)%nat) l.
Proof.
  induction l as [|m l IH]; simpl; intros H; [reflexivity|].
  inversion H as [|? ? Nm Nl]; subst.
  destruct (Nat.eqb_spec (mesh_id m) id) as [E|N]; simpl.
  - subst id. rewrite <- (remove_child_absent (mesh_id m) l Nm) at 1.
    apply IH. exact Nl.
  - rewrite IH by exact Nl. reflexivity.
Qed.

Lemma remove_child_last (id : nat) (l : list Mesh) (m : Mesh) :
  ~ In id (map mesh_id l) -> mesh_id m = id ->
  remove_child id (l ++ [m]) = l.
Proof.
  induction l as [|c l IH]; simpl; intros H E.
  - rewrite E, Nat.eqb_refl. reflexivity.
  - destruct (Nat.eqb_spec (mesh_id c) id) as [Ec|N].
    + exfalso. apply H. left. exact Ec.
    + rewrite IH; [reflexivity | | exact E]. intros I. apply H. right. exact I.
Qed.

Lemma filter_ids_NoDup (p : Mesh -> bool) (l : list Mesh) :
  NoDup (map mesh_id l) -> NoDup (map mesh_id (filter p l)).
Proof.
  induction l as [|m l IH]; simpl; intros H; [constructor|].
  inversion H as [|? ? Nm Nl]; subst.
  destruct (p m); simpl; [constructor|]; auto.
  intros I. apply Nm. apply in_map_iff in I. destruct I as [c [E Hc]].
  apply filter_In in Hc. apply in_map_iff. exists c. tauto.
Qed.

(** X14: in a scene that holds no object twice, [removeMeshAndDispose]
    takes the mesh out of the scene, keeps all other children in their
    order, records the disposal and leaves the grid alone; a mesh that is
    not in the scene is only disposed of. *)
Theorem removeMeshAndDispose_scene (m : Mesh) (w : World) :
  NoDup (map mesh_id (scene_children w)) ->
  exists w',
    removeMeshAndDispose m w = Normal tt w' /\
    scene_children w'
    = filter (fun c => negb (mesh_id c =? mesh_id m)%nat) (scene_children w) /\
    ~ In (mesh_id m) (map mesh_id (scene_children w')) /\
    (~ In (mesh_id m) (map mesh_id (scene_children w)) ->
     scene_children w' = scene_children w) /\
    disposed w' = mesh_id m :: disposed w /\
    this w' = this w.
Proof.
  intros N. eexists. split; [reflexivity|]. simpl.
  split; [apply remove_child_filter; exact N|].
  split.
  - rewrite (remove_child_filter _ _ N). intros I.
    apply in_map_iff in I. destruct I as [c [E Hc]].
    apply filter_In in Hc. destruct Hc as [_ Hc].
    rewrite E, Nat.eqb_refl in Hc. discriminate.
  - split; [apply remove_child_absent|]. split; reflexivity.
Qed.

Section RenderingAgain.

Variable CORNER_ARRAY : list Vector3.
Variable EDGE_ARRAY : list (list Vector3).
Variable TRIANGLE_TABLE : list (list Z).

Let extract := marchCubes CORNER_ARRAY EDGE_ARRAY TRIANGLE_TABLE.
Let draw := render CORNER_ARRAY EDGE_ARRAY TRIANGLE_TABLE.

(** [render] by the outcome of the extraction. *)
Lemma render_steps (w : World) :
  draw w
  = match extract (this w) with
    | Normal _ t' =>
        let m := mkMesh (next_id w) (positions_of (meshVertexes t')) in
        Normal tt
          (mkWorld (set_mesh (Some m) t')
                   (scene_children (after_removal w) ++ [m])
                   (disposed (after_removal w)) (console w)
                   (S (next_id w)))
    | Abrupt e t' => Abrupt e (set_this t' (after_removal w))
    end.
Proof.
  unfold draw, render.
  change (bind get ?k w)
    with (bind (bind get (fun w0 : World =>
                  match mesh (this w0) with
                  | Some m => removeMeshAndDispose m
                  | None => ret tt
                  end))
            (fun _ =>
               bind (on_this (marchCubes CORNER_ARRAY EDGE_ARRAY TRIANGLE_TABLE))
                 (fun _ =>
                    try_catch
                      (bind generateMesh (fun _ =>
                         bind get (fun w' => scene_add (mesh (this w')))))
                      (fun error => console_log error))) w).
  unfold bind at 1. rewrite removal_step.
  assert (T : this (after_removal w) = this w).
  { unfold after_removal. destruct (mesh (this w)); reflexivity. }
  assert (C : console (after_removal w) = console w).
  { unfold after_removal. destruct (mesh (this w)); reflexivity. }
  assert (I : next_id (after_removal w) = next_id w).
  { unfold after_removal. destruct (mesh (this w)); reflexivity. }
  unfold bind at 1. unfold on_this. rewrite T. fold extract.
  destruct (marchCubes_final CORNER_ARRAY EDGE_ARRAY TRIANGLE_TABLE (this w))
    as [vs [Ef Hm]].
  fold extract in Ef.
  destruct (extract (this w)) as [[] t'|e t']; [|reflexivity].
  simpl in Ef. subst t'.
  unfold try_catch, generateMesh, get. unfold bind.
  cbn [this meshVertexes set_this set_meshVertexes].
  rewrite Hm. simpl. rewrite C, I. reflexivity.
Qed.

(** X15: the [catch] of [render] is never entered: whatever the grid and
    the tables, [marchCubes] leaves whole triangles, so the check of
    [generateMesh] cannot fail after it and [render] logs nothing, also
    when it throws. *)
Theorem render_never_logs (w : World) :
  console (final (draw w)) = console w /\
  (length (meshVertexes (this (final (draw w)))) mod 3 = 0)%nat.
Proof.
  rewrite render_steps.
  destruct (marchCubes_final CORNER_ARRAY EDGE_ARRAY TRIANGLE_TABLE (this w))
    as [vs [Ef Hm]].
  fold extract in Ef.
  destruct (extract (this w)) as [[] t'|e t']; simpl in Ef; subst t'; simpl.
  - split; [reflexivity | exact Hm].
  - split; [|exact Hm].
    unfold after_removal. destruct (mesh (this w)); reflexivity.
Qed.

Lemma after_removal_children (w : World) :
  NoDup (map mesh_id (scene_children w)) ->
  scene_children (after_removal w)
  = match mesh (this w) with
    | Some m => filter (fun c => negb (mesh_id c =? mesh_id m)%nat)
                  (scene_children w)
    | None => scene_children w
    end.
Proof.
  intros N. unfold after_removal. destruct (mesh (this w)) as [m|]; simpl.
  - apply remove_child_filter. exact N.
  - reflexivity.
Qed.

(** X16: [render] keeps the scene in order.  In a world where the scene
    holds no object twice and every mesh is older than the next one to be
    made, a normal [render] leaves such a world again; the new mesh of the
    grid is the last child of the scene, the previous one is out of the
    scene and disposed of, and every other child is still there. *)
Theorem render_keeps_scene (w w' : World) :
  world_ok w -> draw w = Normal tt w' ->
  world_ok w' /\
  (exists m' rest,
     mesh (this w') = Some m' /\ mesh_id m' = next_id w /\
     scene_children w' = rest ++ [m'] /\
     forall c, In c rest <->
       In c (scene_children w) /\
       forall m, mesh (this w) = Some m -> mesh_id c <> mesh_id m) /\
  (forall m, mesh (this w) = Some m ->
     ~ In (mesh_id m) (map mesh_id (scene_children w')) /\
     In (mesh_id m) (disposed w')).
Proof.
  intros (N & Fw & Mw) E. rewrite render_steps in E.
  destruct (extract (this w)) as [[] t'|e t']; [|discriminate].
  simpl in E. injection E as <-. simpl.
  pose proof (after_removal_children w N) as A.
  assert (Sub : forall c, In c (scene_children (after_removal w)) <->
                  In c (scene_children w) /\
                  forall m, mesh (this w) = Some m -> mesh_id c <> mesh_id m).
  { intros c. rewrite A. destruct (mesh (this w)) as [m|].
    - rewrite filter_In. split.
      + intros [I Hc]. split; [exact I|]. intros m0 Em. injection Em as <-.
        intros Ec. rewrite Ec, Nat.eqb_refl in Hc. discriminate.
      + intros [I Hc]. split; [exact I|].
        destruct (Nat.eqb_spec (mesh_id c) (mesh_id m)) as [Ec|]; [|reflexivity].
        exfalso. apply (Hc m eq_refl Ec).
    - split; [intros I; split; [exact I | discriminate] | tauto]. }
  assert (Na : NoDup (map mesh_id (scene_children (after_removal w)))).
  { rewrite A. destruct (mesh (this w)); [apply filter_ids_NoDup|]; exact N. }
  assert (Fa : Forall (fun c => (mesh_id c < next_id w)%nat)
                 (scene_children (after_removal w))).
  { rewrite Forall_forall in *. intros c I. apply Fw. apply Sub. exact I. }
  split; [|split].
  - unfold world_ok. simpl. split; [|split].
    + rewrite map_app. simpl. apply NoDup_app.
      * exact Na.
      * constructor; [intros []|constructor].
      * intros id I [<-|[]]. apply in_map_iff in I.
        destruct I as [c [Ec Ic]]. rewrite Forall_forall in Fa.
        specialize (Fa c Ic). lia.
    + apply Forall_app. split.
      * rewrite Forall_forall in *. intros c I. specialize (Fa c I). lia.
      * constructor; [simpl; lia | constructor].
    + intros m Em. injection Em as <-. simpl. lia.
  - eexists. exists (scene_children (after_removal w)).
    split; [reflexivity|]. split; [reflexivity|]. split; [reflexivity|].
    exact Sub.
  - intros m Em. split.
    + rewrite map_app, in_app_iff. simpl. intros [I|[I|[]]].
      * apply in_map_iff in I. destruct I as [c [Ec Ic]].
        apply Sub in Ic. destruct Ic as [_ Hc]. apply (Hc m Em Ec).
      * specialize (Mw m Em). lia.
    + unfold after_removal. rewrite Em. simpl. left. reflexivity.
Qed.

(** X17: rendering again without touching the field shows the same
    surface: after a normal [render] in such a world a second [render] ends
    normally too, with the same vertex list and a new mesh with the same
    position buffer, and the scene has as many children as before; meshes
    do not pile up. *)
Theorem render_again (w w1 : World) :
  world_ok w -> draw w = Normal tt w1 ->
  exists w2 m1 m2,
    draw w1 = Normal tt w2 /\
    meshVertexes (this w2) = meshVertexes (this w1) /\
    mesh (this w1) = Some m1 /\ mesh (this w2) = Some m2 /\
    mesh_positions m2 = mesh_positions m1 /\ mesh_id m2 <> mesh_id m1 /\
    length (scene_children w2) = length (scene_children w1) /\
    In m2 (scene_children w2) /\
    ~ In (mesh_id m1) (map mesh_id (scene_children w2)).
Proof.
  intros (N & Fw & Mw) E. rewrite render_steps in E.
  destruct (marchCubes_final CORNER_ARRAY EDGE_ARRAY TRIANGLE_TABLE (this w))
    as [vs [Ef _]].
  fold extract in Ef.
  destruct (extract (this w)) as [[] t1|e t1] eqn:E1; [|discriminate].
  simpl in Ef. simpl in E. injection E as <-.
  set (m1 := mkMesh (next_id w) (positions_of (meshVertexes t1))).
  set (A := scene_children (after_removal w)).
  assert (Fa : ~ In (next_id w) (map mesh_id A)).
  { intros I. apply in_map_iff in I. destruct I as [c [Ec Ic]].
    assert (Iw : In c (scene_children w)).
    { subst A. rewrite (after_removal_children w N) in Ic.
      destruct (mesh (this w)); [apply filter_In in Ic; tauto | exact Ic]. }
    rewrite Forall_forall in Fw. specialize (Fw c Iw). lia. }
  pose proof (marchCubes_same_field CORNER_ARRAY EDGE_ARRAY TRIANGLE_TABLE
                (set_mesh (Some m1) t1) (this w)) as Ag.
  fold extract in Ag. rewrite E1 in Ag.
  assert (Sf : same_field (set_mesh (Some m1) t1) (this w)).
  { rewrite Ef. repeat split. }
  specialize (Ag Sf).
  rewrite render_steps. simpl this.
  destruct (extract (set_mesh (Some m1) t1)) as [[] t2|e t2];
    simpl in Ag; [|contradiction].
  destruct Ag as [_ [_ Ev]].
  eexists. exists m1. eexists. split; [reflexivity|]. simpl.
  split; [exact Ev|]. split; [reflexivity|]. split; [reflexivity|].
  split; [rewrite Ev; reflexivity|].
  split; [intros H; unfold m1 in H; simpl in H; lia|].
  unfold after_removal. simpl.
  rewrite (remove_child_last (next_id w) A m1 Fa eq_refl).
  split; [rewrite !length_app; reflexivity|].
  split; [apply in_or_app; right; left; reflexivity|].
  rewrite map_app, in_app_iff. simpl. intros [I|[I|[]]]; [contradiction | lia].
Qed.

End RenderingAgain.

(** ** What extraction can throw, how much it can push *)

Lemma only_TypeError_ret {St A} (a : A) : throws_only_TypeError (@ret St A a).
Proof. intros s e s' H. discriminate. Qed.

Lemma only_TypeError_throw {St A} :
  throws_only_TypeError (@throw St A TypeError).
Proof. intros s e s' H. injection H as <- _. reflexivity. Qed.

Lemma only_TypeError_bind {St A B} (m : M St A) (k : A -> M St B) :
  throws_only_TypeError m -> (forall a, throws_only_TypeError (k a)) ->
  throws_only_TypeError (bind m k).
Proof.
  intros Hm Hk s e s'. unfold bind.
  destruct (m s) as [a s1|e1 s1] eqn:E.
  - apply Hk.
  - intros H. injection H as <- _. apply (Hm s e1 s1 E).
Qed.

Lemma only_TypeError_forEach {St A} (l : list A) (body : A -> M St unit) :
  (forall a, throws_only_TypeError (body a)) ->
  throws_only_TypeError (forEach l body).
Proof.
  intros H. induction l as [|a l IH]; simpl.
  - apply only_TypeError_ret.
  - apply only_TypeError_bind; [apply H | intros _; exact IH].
Qed.

Lemma referenced_length (triangles : list Z) :
  (length (referenced triangles) <= length triangles)%nat.
Proof.
  induction triangles as [|e1|e1 e2|e1 e2 e3 rest IH] using triples_ind;
    simpl; [lia| | |]; destruct (e1 =? -1)%Z; simpl; lia.
Qed.

Section Limits.

Variable CORNER_ARRAY : list Vector3.
Variable EDGE_ARRAY : list (list Vector3).
Variable TRIANGLE_TABLE : list (list Z).

Lemma only_TypeError_sample_corner (x y z : Q) (corner : Vector3) :
  throws_only_TypeError (sample_corner x y z corner).
Proof.
  unfold sample_corner. apply only_TypeError_bind.
  - intros s e s' H. discriminate.
  - intros t.
    destruct (get_prop (grid t) (x + vec_x corner)) as [plane|];
      [|apply only_TypeError_throw].
    destruct (get_prop plane (y + vec_y corner)) as [row|];
      [apply only_TypeError_ret | apply only_TypeError_throw].
Qed.

Lemma only_TypeError_cornerLoop (x y z : Q) (es : list (nat * Vector3)) :
  forall c, throws_only_TypeError (cornerLoop x y z es c).
Proof.
  induction es as [|[i corner] es IH]; intros c; simpl.
  - apply only_TypeError_ret.
  - apply only_TypeError_bind; [apply only_TypeError_sample_corner|]. intros v.
    apply only_TypeError_bind; [intros s e s' H; discriminate|]. intros t.
    apply IH.
Qed.

Lemma only_TypeError_getEdgeMidpoint (e : option (list Vector3)) (r : Q) :
  throws_only_TypeError (getEdgeMidpoint e r).
Proof.
  destruct e as [[|p0 [|p1 more]]|]; simpl; intros s e s' H;
    try discriminate; injection H as <- _; reflexivity.
Qed.

Lemma only_TypeError_emitTriangle (x y z : Q) (k1 k2 k3 : option Z) :
  throws_only_TypeError (emitTriangle EDGE_ARRAY x y z k1 k2 k3).
Proof.
  unfold emitTriangle.
  apply only_TypeError_bind; [intros s e s' H; discriminate|]. intros t.
  apply only_TypeError_bind; [apply only_TypeError_getEdgeMidpoint|]. intros v1.
  apply only_TypeError_bind; [apply only_TypeError_getEdgeMidpoint|]. intros v2.
  apply only_TypeError_bind; [apply only_TypeError_getEdgeMidpoint|]. intros v3.
  intros s e s' H. discriminate.
Qed.

Lemma only_TypeError_triangleLoop (x y z : Q) (triangles : list Z) :
  throws_only_TypeError (triangleLoop EDGE_ARRAY x y z triangles).
Proof.
  induction triangles as [|e1|e1 e2|e1 e2 e3 rest IH] using triples_ind; simpl.
  - apply only_TypeError_ret.
  - destruct (e1 =? -1)%Z;
      [apply only_TypeError_ret | apply only_TypeError_emitTriangle].
  - destruct (e1 =? -1)%Z;
      [apply only_TypeError_ret | apply only_TypeError_emitTriangle].
  - destruct (e1 =? -1)%Z; [apply only_TypeError_ret|].
    apply only_TypeError_bind;
      [apply only_TypeError_emitTriangle | intros _; exact IH].
Qed.

Lemma only_TypeError_marchCubes :
  throws_only_TypeError (marchCubes CORNER_ARRAY EDGE_ARRAY TRIANGLE_TABLE).
Proof.
  unfold marchCubes.
  apply only_TypeError_bind; [intros s e s' H; discriminate|]. intros _.
  apply only_TypeError_bind; [intros s e s' H; discriminate|]. intros t.
  apply only_TypeError_forEach. intros x.
  apply only_TypeError_forEach. intros y.
  apply only_TypeError_forEach. intros z.
  unfold marchCube.
  apply only_TypeError_bind; [apply only_TypeError_cornerLoop|]. intros c.
  destruct (lookup TRIANGLE_TABLE (Some c));
    [apply only_TypeError_triangleLoop | apply only_TypeError_throw].
Qed.

(** X18: whatever the grid and the tables, the only exception [marchCubes]
    and [render] can throw is a [TypeError] (a read through a missing
    plane, row, table entry, edge or end point); the string of
    [generateMesh] never leaves [render]. *)
Theorem render_throws_only_TypeError (w w' : World) (e : error) :
  render CORNER_ARRAY EDGE_ARRAY TRIANGLE_TABLE w = Abrupt e w' ->
  e = TypeError /\
  exists t',
    marchCubes CORNER_ARRAY EDGE_ARRAY TRIANGLE_TABLE (this w)
    = Abrupt TypeError t' /\
    this w' = t'.
Proof.
  rewrite render_steps.
  destruct (marchCubes CORNER_ARRAY EDGE_ARRAY TRIANGLE_TABLE (this w))
    as [[] t'|e' t'] eqn:E; [discriminate|].
  intros H. injection H as <- <-.
  rewrite (only_TypeError_marchCubes (this w) e' t' E).
  split; [reflexivity|]. exists t'. split; reflexivity.
Qed.

(** X19: in every outcome, on any grid and with any tables, [marchCubes]
    leaves a vertex buffer of whole triangles: also the buffer left behind
    by an extraction that throws has a length divisible by 3. *)
Theorem marchCubes_whole_triangles (t : VoxelGrid) :
  (length (meshVertexes
             (final (marchCubes CORNER_ARRAY EDGE_ARRAY TRIANGLE_TABLE t)))
   mod 3 = 0)%nat.
Proof.
  destruct (marchCubes_final CORNER_ARRAY EDGE_ARRAY TRIANGLE_TABLE t)
    as [vs [E H]].
  rewrite E. exact H.
Qed.

Lemma forEach_cubes_length (k : nat) (l : list (nat * nat * nat)) :
  (forall triangles, In triangles TRIANGLE_TABLE ->
     (length triangles <= k)%nat) ->
  forall s s',
    forEach l (fun c => marchCube CORNER_ARRAY EDGE_ARRAY TRIANGLE_TABLE
                          (fst (fst c)) (snd (fst c)) (snd c)) s
    = Normal tt s' ->
    (length (meshVertexes s') <= length (meshVertexes s) + length l * k)%nat.
Proof.
  intros K. induction l as [|[[x y] z] l IH]; intros s s'; simpl.
  - intros E. injection E as <-. lia.
  - unfold bind.
    destruct (marchCube CORNER_ARRAY EDGE_ARRAY TRIANGLE_TABLE x y z s)
      as [[] s1|e s1] eqn:E1; [|discriminate].
    intros E. specialize (IH s1 s' E).
    assert (L1 : (length (meshVertexes s1) <= length (meshVertexes s) + k)%nat).
    { clear IH E. unfold marchCube in E1. unfold bind in E1.
      pose proof (reads_cornerLoop (num x) (num y) (num z)
                    (entries CORNER_ARRAY) 0%Z s) as R.
      destruct (cornerLoop (num x) (num y) (num z) (entries CORNER_ARRAY) 0%Z s)
        as [c s0|]; [|discriminate].
      simpl in R. subst s0.
      destruct (lookup TRIANGLE_TABLE (Some c)) as [triangles|] eqn:L;
        [|discriminate].
      apply triangleLoop_normal in E1. destruct E1 as [vs [-> F2]].
      simpl. rewrite length_app.
      apply Forall2_length in F2. rewrite <- F2.
      pose proof (referenced_length triangles) as Rl.
      assert (In triangles TRIANGLE_TABLE).
      { unfold lookup in L. destruct (0 <=? c)%Z; [|discriminate].
        apply nth_error_In in L. exact L. }
      specialize (K triangles H). lia. }
    lia.
Qed.

(** X20: when no entry of the triangle table is longer than [k], a normal
    extraction leaves at most [k] vertices per visited cube. *)
Theorem marchCubes_vertex_bound (t t' : VoxelGrid) (k : nat) :
  (forall triangles, In triangles TRIANGLE_TABLE ->
     (length triangles <= k)%nat) ->
  marchCubes CORNER_ARRAY EDGE_ARRAY TRIANGLE_TABLE t = Normal tt t' ->
  (length (meshVertexes t') <= length (visited t) * k)%nat.
Proof.
  intros K. rewrite marchCubes_visits. intros E.
  apply (forEach_cubes_length k (visited t) K) in E. simpl in E. exact E.
Qed.

End Limits.

(** ** Further witnesses *)

Lemma cell_at_repeat_inv (c c' : option Q) (nx ny nz i j k : nat) :
  cell_at (repeat (repeat (repeat c nz) ny) nx) i j k = Some c' -> c' = c.
Proof.
  unfold cell_at.
  destruct (nth_error (repeat (repeat (repeat c nz) ny) nx) i) as [plane|] eqn:Ep;
    [|discriminate].
  apply nth_error_In, repeat_spec in Ep. subst plane.
  destruct (nth_error (repeat (repeat c nz) ny) j) as [row|] eqn:Er;
    [|discriminate].
  apply nth_error_In, repeat_spec in Er. subst row.
  intros H. apply nth_error_In, repeat_spec in H. exact H.
Qed.

Lemma low_grid_shape : shape_ok low_grid 3 3 3.
Proof.
  unfold shape_ok, low_grid, small_grid. simpl.
  repeat split; try reflexivity; try (unfold MAX_ARRAY_LENGTH; lia).
  repeat constructor.
Qed.

Lemma low_grid_none_above : none_above low_grid.
Proof.
  intros i j k v H. apply cell_at_repeat_inv in H. injection H as ->.
  vm_compute. discriminate.
Qed.

Lemma high_grid_all_above : all_above high_grid.
Proof.
  intros i j k c H. apply cell_at_repeat_inv in H. subst c.
  exists 1. split; reflexivity.
Qed.

Lemma sample_edges_unit : edges_unit sample_EDGE_ARRAY.
Proof.
  unfold edges_unit, sample_EDGE_ARRAY. simpl.
  repeat (apply Forall_cons;
          [repeat (apply Forall_cons;
                   [unfold unit_corner; simpl; repeat split;
                    first [left; reflexivity | right; reflexivity]|]);
           apply Forall_nil|]).
  apply Forall_nil.
Qed.

Lemma sample_entries_short :
  forall triangles, In triangles sample_TRIANGLE_TABLE ->
    (length triangles <= 4)%nat.
Proof.
  assert (H : forallb (fun tr : list Z => (length tr <=? 4)%nat)
                sample_TRIANGLE_TABLE = true) by (vm_compute; reflexivity).
  rewrite forallb_forall in H. intros tr I. apply Nat.leb_le, H, I.
Qed.

Lemma fresh_world_ok : world_ok fresh_world.
Proof.
  unfold world_ok, fresh_world. simpl.
  split; [constructor|]. split; [constructor | discriminate].
Qed.


Lemma initializeGrid_succeeds_witness :
  vec_x (size slab) / 2 * resolution slab == num 5 /\
  vec_y (size slab) / 2 * resolution slab == num 5 /\
  vec_z (size slab) * resolution slab == num 2 /\
  exists t', initializeGrid slab = Normal tt t'.
Proof.
  assert (Ex : vec_x (size slab) / 2 * resolution slab == num 5) by reflexivity.
  assert (Ey : vec_y (size slab) / 2 * resolution slab == num 5) by reflexivity.
  assert (Ez : vec_z (size slab) * resolution slab == num 2) by reflexivity.
  split; [exact Ex|]. split; [exact Ey|]. split; [exact Ez|].
  apply (initializeGrid_succeeds slab 5 5 2 Ex Ey Ez);
    unfold MAX_ARRAY_LENGTH; lia.
Defined.

Lemma visited_count_witness :
  shape_ok small_grid 3 3 3 /\
  length (visited small_grid) = ((3 - 1) * ((3 - 1) * (3 - 1)))%nat.
Proof.
  split; [exact small_grid_shape|].
  exact (proj1 (visited_count small_grid 3 3 3 small_grid_shape)).
Defined.

Lemma marchCubes_no_cube_witness :
  vec_z (size thin_slab) * resolution thin_slab <= 1 /\
  marchCubes sample_CORNER_ARRAY sample_EDGE_ARRAY sample_TRIANGLE_TABLE
    thin_slab = Normal tt (set_meshVertexes [] thin_slab).
Proof.
  assert (H : vec_z (size thin_slab) * resolution thin_slab <= 1)
    by (vm_compute; discriminate).
  split; [exact H|].
  apply (marchCubes_no_cube sample_CORNER_ARRAY sample_EDGE_ARRAY
           sample_TRIANGLE_TABLE thin_slab).
  right. right. exact H.
Defined.

Lemma initializeGrid_then_marchCubes_witness :
  initializeGrid slab = Normal tt (final (initializeGrid slab)) /\
  tables_ok sample_CORNER_ARRAY sample_EDGE_ARRAY sample_TRIANGLE_TABLE /\
  exists t'',
    marchCubes sample_CORNER_ARRAY sample_EDGE_ARRAY sample_TRIANGLE_TABLE
      (final (initializeGrid slab)) = Normal tt t'' /\
    grid t'' = grid (final (initializeGrid slab)).
Proof.
  assert (E : initializeGrid slab = Normal tt (final (initializeGrid slab)))
    by (vm_compute; reflexivity).
  split; [exact E|]. split; [exact sample_tables_ok|].
  exact (initializeGrid_then_marchCubes sample_CORNER_ARRAY sample_EDGE_ARRAY
           sample_TRIANGLE_TABLE slab _ E sample_tables_ok).
Defined.

Lemma marchCubes_cube_by_cube_witness :
  let t' := final (marchCubes sample_CORNER_ARRAY sample_EDGE_ARRAY
                     sample_TRIANGLE_TABLE small_grid) in
  marchCubes sample_CORNER_ARRAY sample_EDGE_ARRAY sample_TRIANGLE_TABLE
    small_grid = Normal tt t' /\
  meshVertexes t'
  = flat_map (cube_vertices sample_CORNER_ARRAY sample_EDGE_ARRAY
                sample_TRIANGLE_TABLE small_grid) (visited small_grid).
Proof.
  intros t'.
  assert (E : marchCubes sample_CORNER_ARRAY sample_EDGE_ARRAY
                sample_TRIANGLE_TABLE small_grid = Normal tt t')
    by (vm_compute; reflexivity).
  split; [exact E|].
  exact (marchCubes_cube_by_cube sample_CORNER_ARRAY sample_EDGE_ARRAY
           sample_TRIANGLE_TABLE small_grid t' E).
Defined.

Lemma marchCubes_vertices_in_box_witness :
  let t' := final (marchCubes sample_CORNER_ARRAY sample_EDGE_ARRAY
                     sample_TRIANGLE_TABLE small_grid) in
  shape_ok small_grid 3 3 3 /\ 0 < resolution small_grid /\
  edges_unit sample_EDGE_ARRAY /\
  marchCubes sample_CORNER_ARRAY sample_EDGE_ARRAY sample_TRIANGLE_TABLE
    small_grid = Normal tt t' /\
  Forall (in_size_box small_grid) (meshVertexes t').
Proof.
  intros t'.
  assert (E : marchCubes sample_CORNER_ARRAY sample_EDGE_ARRAY
                sample_TRIANGLE_TABLE small_grid = Normal tt t')
    by (vm_compute; reflexivity).
  assert (R : 0 < resolution small_grid) by reflexivity.
  split; [exact small_grid_shape|]. split; [exact R|].
  split; [exact sample_edges_unit|]. split; [exact E|].
  exact (marchCubes_vertices_in_box sample_CORNER_ARRAY sample_EDGE_ARRAY
           sample_TRIANGLE_TABLE small_grid t' 3 3 3 small_grid_shape R
           sample_edges_unit E).
Defined.

Lemma marchCubes_none_above_witness :
  shape_ok low_grid 3 3 3 /\ corners_ok sample_CORNER_ARRAY /\
  none_above low_grid /\
  lookup sample_TRIANGLE_TABLE (Some 0%Z) = Some [(-1)%Z] /\
  marchCubes sample_CORNER_ARRAY sample_EDGE_ARRAY sample_TRIANGLE_TABLE
    low_grid = Normal tt (set_meshVertexes [] low_grid).
Proof.
  assert (L : lookup sample_TRIANGLE_TABLE (Some 0%Z) = Some [(-1)%Z])
    by reflexivity.
  split; [exact low_grid_shape|]. split; [exact (proj1 sample_tables_ok)|].
  split; [exact low_grid_none_above|]. split; [exact L|].
  exact (marchCubes_none_above sample_CORNER_ARRAY sample_EDGE_ARRAY
           sample_TRIANGLE_TABLE low_grid 3 3 3 [(-1)%Z] low_grid_shape
           (proj1 sample_tables_ok) low_grid_none_above L eq_refl).
Defined.

Lemma marchCubes_all_above_witness :
  shape_ok high_grid 3 3 3 /\ corners_ok sample_CORNER_ARRAY /\
  all_above high_grid /\
  lookup sample_TRIANGLE_TABLE (Some 255%Z) = Some [(-1)%Z] /\
  marchCubes sample_CORNER_ARRAY sample_EDGE_ARRAY sample_TRIANGLE_TABLE
    high_grid = Normal tt (set_meshVertexes [] high_grid).
Proof.
  assert (L : lookup sample_TRIANGLE_TABLE (Some 255%Z) = Some [(-1)%Z])
    by (vm_compute; reflexivity).
  assert (Sh : shape_ok high_grid 3 3 3).
  { unfold shape_ok, high_grid, small_grid. simpl.
    repeat split; try reflexivity; try (unfold MAX_ARRAY_LENGTH; lia).
    repeat constructor. }
  split; [exact Sh|]. split; [exact (proj1 sample_tables_ok)|].
  split; [exact high_grid_all_above|]. split; [exact L|].
  exact (marchCubes_all_above sample_CORNER_ARRAY sample_EDGE_ARRAY
           sample_TRIANGLE_TABLE high_grid 3 3 3 [(-1)%Z] Sh
           (proj1 sample_tables_ok) high_grid_all_above L eq_refl).
Defined.


Lemma forEachVoxel_no_call_witness :
  vec_x (size zero_resolution) * resolution zero_resolution <= 0 /\
  forEachVoxel zero_resolution count_call 0%nat = Normal tt 0%nat.
Proof.
  assert (H : vec_x (size zero_resolution) * resolution zero_resolution <= 0)
    by (vm_compute; discriminate).
  split; [exact H|].
  exact (forEachVoxel_no_call zero_resolution count_call 0%nat (or_introl H)).
Defined.


Lemma removeMeshAndDispose_scene_witness :
  NoDup (map mesh_id (scene_children drawn_world)) /\
  exists w',
    removeMeshAndDispose (mkMesh 0 []) drawn_world = Normal tt w' /\
    scene_children w' = [].
Proof.
  assert (N : NoDup (map mesh_id (scene_children drawn_world))).
  { vm_compute. constructor; [intros []|constructor]. }
  split; [exact N|].
  destruct (removeMeshAndDispose_scene (mkMesh 0 []) drawn_world N)
    as (w' & E & C & _).
  exists w'. split; [exact E|]. rewrite C. vm_compute. reflexivity.
Defined.

Lemma render_keeps_scene_witness :
  world_ok fresh_world /\
  render sample_CORNER_ARRAY sample_EDGE_ARRAY sample_TRIANGLE_TABLE
    fresh_world = Normal tt drawn_world /\
  world_ok drawn_world.
Proof.
  assert (E : render sample_CORNER_ARRAY sample_EDGE_ARRAY
                sample_TRIANGLE_TABLE fresh_world = Normal tt drawn_world)
    by (vm_compute; reflexivity).
  split; [exact fresh_world_ok|]. split; [exact E|].
  exact (proj1 (render_keeps_scene sample_CORNER_ARRAY sample_EDGE_ARRAY
                  sample_TRIANGLE_TABLE fresh_world drawn_world
                  fresh_world_ok E)).
Defined.

Lemma render_again_witness :
  world_ok fresh_world /\
  render sample_CORNER_ARRAY sample_EDGE_ARRAY sample_TRIANGLE_TABLE
    fresh_world = Normal tt drawn_world /\
  exists w2,
    render sample_CORNER_ARRAY sample_EDGE_ARRAY sample_TRIANGLE_TABLE
      drawn_world = Normal tt w2 /\
    length (scene_children w2) = length (scene_children drawn_world).
Proof.
  assert (E : render sample_CORNER_ARRAY sample_EDGE_ARRAY
                sample_TRIANGLE_TABLE fresh_world = Normal tt drawn_world)
    by (vm_compute; reflexivity).
  split; [exact fresh_world_ok|]. split; [exact E|].
  destruct (render_again sample_CORNER_ARRAY sample_EDGE_ARRAY
              sample_TRIANGLE_TABLE fresh_world drawn_world fresh_world_ok E)
    as (w2 & m1 & m2 & E2 & _ & _ & _ & _ & _ & L & _).
  exists w2. split; [exact E2 | exact L].
Defined.

Lemma render_throws_only_TypeError_witness :
  let o := render sample_CORNER_ARRAY sample_EDGE_ARRAY sample_TRIANGLE_TABLE
             stale_world in
  o = Abrupt TypeError (final o) /\
  exists t',
    marchCubes sample_CORNER_ARRAY sample_EDGE_ARRAY sample_TRIANGLE_TABLE
      (this stale_world) = Abrupt TypeError t' /\
    this (final o) = t'.
Proof.
  intros o.
  assert (E : o = Abrupt TypeError (final o)) by (vm_compute; reflexivity).
  split; [exact E|].
  exact (proj2 (render_throws_only_TypeError sample_CORNER_ARRAY
                  sample_EDGE_ARRAY sample_TRIANGLE_TABLE stale_world
                  (final o) TypeError E)).
Defined.

Lemma marchCubes_vertex_bound_witness :
  let t' := final (marchCubes sample_CORNER_ARRAY sample_EDGE_ARRAY
                     sample_TRIANGLE_TABLE small_grid) in
  marchCubes sample_CORNER_ARRAY sample_EDGE_ARRAY sample_TRIANGLE_TABLE
    small_grid = Normal tt t' /\
  (length (meshVertexes t') <= length (visited small_grid) * 4)%nat.
Proof.
  intros t'.
  assert (E : marchCubes sample_CORNER_ARRAY sample_EDGE_ARRAY
                sample_TRIANGLE_TABLE small_grid = Normal tt t')
    by (vm_compute; reflexivity).
  split; [exact E|].
  exact (marchCubes_vertex_bound sample_CORNER_ARRAY sample_EDGE_ARRAY
           sample_TRIANGLE_TABLE small_grid t' 4 sample_entries_short E).
Defined.
